(** * voip_probe: the client-side measurement engine

    A shallow embedding of [voip_probe.py]: the E-model MOS estimator
    ([emodel_mos]), the RFC 3550 jitter filter ([rfc3550_jitter_update]) and
    the body of the measurement loop of [run_client] (send, receive,
    report), followed by the properties the specification states about them.

    Numbers are modelled as Python has them: [int] is [Z], [float] is IEEE 754
    binary64 with round-to-nearest-even, taken from the Standard Library's
    executable specification [SpecFloat] (precision 53, maximal exponent
    1024).  [dict] and [set] are stdpp's [gmap] and [gset].  What the loop
    reads from the outside (clocks, the result of [sendto] and of
    [recvfrom]) is an input of each iteration. *)

From Stdlib Require Import ZArith Bool List Ascii String Lia.
From Stdlib Require Import QArith Qpower Qabs Lqa.
From Stdlib Require Import Floats.SpecFloat.
From Stdlib Require Strings.Byte.
From stdpp Require Import base option list gmap strings.

Local Open Scope Z_scope.

(** ** Python floats *)

Module F64.

Definition prec : Z := 53.
Definition emax : Z := 1024.

Abbreviation float := spec_float.

Definition fadd : float -> float -> float := SFadd prec emax.
Definition fsub : float -> float -> float := SFsub prec emax.
Definition fmul : float -> float -> float := SFmul prec emax.
Definition fdiv : float -> float -> float := SFdiv prec emax.

(** [x < y] and [x <= y]; both are [False] when an operand is NaN. *)
Definition flt (x y : float) : bool := SFltb x y.
Definition fle (x y : float) : bool := SFleb x y.

(** [float(z)] for an [int] [z] (an [int] beyond the range of floats, for
    which Python raises [OverflowError], becomes an infinity) *)
Definition of_Z (z : Z) : float := binary_normalize prec emax z 0 false.

(** The decimal literal [n/d], correctly rounded: numerator and denominator
    are small enough to be converted exactly, and the division rounds once. *)
Definition dec (n d : Z) : float := fdiv (of_Z n) (of_Z d).

Definition f0 : float := S754_zero false.
Definition f1 : float := of_Z 1.

Definition is_zero (x : float) : bool :=
  match x with S754_zero _ => true | _ => false end.

(** [x / y] on floats raises [ZeroDivisionError] when [y] is a zero. *)
Definition py_div (x y : float) : option float :=
  if is_zero y then None else Some (fdiv x y).

(** [max(a, b)] and [min(a, b)]: the first argument is kept unless the
    second is strictly greater (smaller). *)
Definition py_max (a b : float) : float := if flt a b then b else a.
Definition py_min (a b : float) : float := if flt b a then b else a.

(** [abs(x)] *)
Definition py_abs (x : float) : float := SFabs x.

(** Truth value of a float: false exactly for the two zeros. *)
Definition truthy (x : float) : bool := negb (is_zero x).

(** [a / b] on two [int]s: the correctly rounded quotient;
    [ZeroDivisionError] when [b = 0]. *)
Definition int_truediv (a b : Z) : option float :=
  if b =? 0 then None
  else if a =? 0 then Some (S754_zero (b <? 0))
  else
    let '(q, e, l) := SFdiv_core_binary prec emax (Z.abs a) 0 (Z.abs b) 0 in
    Some (binary_round_aux prec emax (xorb (a <? 0) (b <? 0)) q e l).

(** Exact comparison of a float with an [int] (Python compares the two
    mathematically, without converting the [int]). *)
Definition compare_Z (x : float) (z : Z) : option comparison :=
  match x with
  | S754_nan => None
  | S754_infinity s => Some (if s then Lt else Gt)
  | S754_zero _ => Some (0 ?= z)
  | S754_finite s m e =>
      let v := if s then Z.neg m else Z.pos m in
      Some (if 0 <=? e then (v * 2 ^ e ?= z) else (v ?= z * 2 ^ (- e)))
  end.

(** [x > z] and [x >= z] for a float [x] and an [int] [z] *)
Definition gt_Z (x : float) (z : Z) : bool :=
  match compare_Z x z with Some Gt => true | _ => false end.
Definition ge_Z (x : float) (z : Z) : bool :=
  match compare_Z x z with Some (Gt | Eq) => true | _ => false end.

End F64.

Import F64.

(** ** E-model MOS estimator *)

(** [str.lower()] on the ASCII letters (no other character lowers to a
    letter or digit of a codec name). *)
Definition lower_ascii (c : ascii) : ascii :=
  let n := nat_of_ascii c in
  if ((65 <=? n) && (n <=? 90))%nat then ascii_of_nat (n + 32) else c.

Fixpoint lower (s : string) : string :=
  match s with
  | EmptyString => EmptyString
  | String c s' => String (lower_ascii c) (lower s')
  end.

(** [CODEC_PARAMS]: codec name to [(Ie, Bpl)] *)
Definition CODEC_PARAMS : list (string * (float * float)) :=
  [ ("g711"%string, (of_Z 0, of_Z 25));
    ("g729"%string, (of_Z 11, of_Z 19));
    ("opus"%string, (of_Z 5, of_Z 14)) ].

Fixpoint dict_get {V} (d : list (string * V)) (k : string) (default : V) : V :=
  match d with
  | [] => default
  | (k', v) :: d' => if String.eqb k' k then v else dict_get d' k default
  end.

Definition hstep (x : float) : float := if flt f0 x then f1 else f0.

(** The MOS as a function of the transmission rating [R] (the last
    [if]/[elif]/[else] of [emodel_mos]); [cubic_mos] is the polynomial
    [1 + 0.035*R + (R*(R-60)*(100-R))*7e-6] of its last branch. *)
Definition cubic_mos (R : float) : float :=
  fadd (fadd f1 (fmul (dec 35 1000) R))
       (fmul (fmul (fmul R (fsub R (of_Z 60))) (fsub (of_Z 100) R))
             (dec 7 1000000)).

Definition mos_of_R (R : float) : float :=
  if fle R f0 then f1
  else if fle (of_Z 100) R then dec 45 10
  else
    let mos := cubic_mos R in
    py_max f1 (py_min (dec 45 10) mos).

(** [emodel_mos(delay_ms, loss_percent, codec, burstR)] returns
    [(mos, R, Id, Ie_eff)], or raises [ZeroDivisionError] ([None]). *)
Definition emodel_mos (delay_ms loss_percent : float) (codec : string)
    (burstR : float) : option (float * float * float * float) :=
  let '(Ie, Bpl) :=
    dict_get CODEC_PARAMS (lower codec) (dict_get CODEC_PARAMS "g711" (f0, f0)) in
  let d := py_max f0 delay_ms in
  let Ppl := py_max f0 loss_percent in
  let Id :=
    fadd (fmul (dec 24 1000) d)
         (fmul (fmul (dec 11 100) (fsub d (dec 1773 10)))
               (hstep (fsub d (dec 1773 10)))) in
  Ie_eff ←
    (if flt f0 Ppl then
       q ← py_div Ppl Bpl;
       t ← py_div (fmul (fsub (of_Z 95) Ie) Ppl) (fadd q burstR);
       Some (fadd Ie t)
     else Some Ie);
  let R := fsub (fsub (dec 942 10) Id) Ie_eff in
  Some (mos_of_R R, R, Id, Ie_eff).

(** ** RFC 3550 jitter filter *)

Definition rfc3550_jitter_update (J_prev diff_ms : float) : float :=
  fadd J_prev (fdiv (fsub (py_abs diff_ms) J_prev) (of_Z 16)).

(** ** Wire format: [PKT_STRUCT = struct.Struct("!I Q I")] *)

Definition MAGIC : Z := 0xABCD1357.
Definition PKT_SIZE : Z := 16.

(** Big-endian unsigned encoding on [n] bytes, and decoding. *)
Fixpoint be_encode (n : nat) (z : Z) : list Byte.byte :=
  match n with
  | O => []
  | S n' =>
      be_encode n' (z / 256)
        ++ [default Byte.x00 (Byte.of_N (Z.to_N (z mod 256)))]
  end.

Definition be_decode (bs : list Byte.byte) : Z :=
  fold_left (fun acc b => acc * 256 + Z.of_N (Byte.to_N b)) bs 0.

(** [PKT_STRUCT.pack(seq, ts, magic)]; [struct.error] ([None]) when a field
    does not fit its width. *)
Definition pack (seq ts magic : Z) : option (list Byte.byte) :=
  if (0 <=? seq) && (seq <? 2 ^ 32) && (0 <=? ts) && (ts <? 2 ^ 64)
     && (0 <=? magic) && (magic <? 2 ^ 32)
  then Some (be_encode 4 seq ++ be_encode 8 ts ++ be_encode 4 magic)
  else None.

(** [PKT_STRUCT.unpack(bs)] on a buffer of exactly 16 bytes *)
Definition unpack (bs : list Byte.byte) : Z * Z * Z :=
  (be_decode (take 4 bs), be_decode (take 8 (drop 4 bs)),
   be_decode (take 4 (drop 12 bs))).

(** ** Client state *)

(** One field of a CSV row. [CellRound x n] stands for [round(x, n)]. *)
Inductive cell :=
| CellStr (s : string)
| CellInt (z : Z)
| CellRound (x : float) (ndigits : Z).

(** The lines the loop prints. *)
Inductive line :=
| LineSendError (err : string)
| LineStats (sent recv : Z)
            (loss_total loss_win avg_rtt avg_oneway jitter mos : float).

(** The arguments of [run_client] that the loop reads. *)
Record config := {
  cfg_pps : Z;
  cfg_duration : option Z;
  cfg_csv_path : option string;
  cfg_codec : string;
  cfg_burstR : float;
  cfg_warmup : Z;
  cfg_report_every : Z
}.

(** The local variables of [run_client] that the loop updates, the rows
    handed to [csv_writer] and the lines printed. *)
Record client := mkClient {
  sent_times : gmap Z Z;
  received : gset Z;
  rtt_samples : list float;
  oneway_samples : list float;
  window : list Z;
  window_maxlen : Z;
  last_transit_ms : option float;
  J_ms : float;
  total_sent : Z;
  total_recv : Z;
  seq : Z;
  next_send : float;
  next_report : float;
  csv_rows : list (list cell);
  console : list line
}.

(** The locals fixed before the loop starts. *)
Record session := {
  start : float;
  interval_s : float
}.

Definition csv_enabled (cfg : config) : bool :=
  match cfg_csv_path cfg with
  | Some p => negb (String.eqb p "")
  | None => false
  end.

Definition csv_header : list cell :=
  map CellStr
    [ "ts_utc"; "seq"; "rtt_ms"; "oneway_ms_est"; "jitter_ms";
      "loss_pct_window"; "mos"; "r_factor"; "Id"; "Ie_eff" ]%string.

(** The statements of [run_client] before the loop; [t_start], [t_send] and
    [t_report] are the three readings of [time.time()]. [None]:
    [1.0 / float(pps)] raised [ZeroDivisionError]. *)
Definition init (cfg : config) (t_start t_send t_report : float)
  : option (session * client) :=
  interval ← py_div f1 (of_Z (cfg_pps cfg));
  Some
    ({| start := t_start; interval_s := interval |},
     {| sent_times := ∅; received := ∅;
        rtt_samples := []; oneway_samples := [];
        window := []; window_maxlen := Z.max (cfg_pps cfg * 10) 100;
        last_transit_ms := None; J_ms := f0;
        total_sent := 0; total_recv := 0; seq := 0;
        next_send := t_send;
        next_report := fadd t_report (of_Z (cfg_report_every cfg));
        csv_rows := if csv_enabled cfg then [csv_header] else [];
        console := [] |}).

(** [deque.append] on a deque with a [maxlen]: the oldest item is dropped
    when the bound is exceeded. *)
Definition deque_append (maxlen : Z) (w : list Z) (x : Z) : list Z :=
  let w' := w ++ [x] in
  if maxlen <? Z.of_nat (length w') then tail w' else w'.

(** [sum(xs)] on floats: left to right from the [int] 0.  (CPython 3.12
    and later carry a compensation term along; no statement below depends
    on the low bits of a sum.) *)
Definition py_sum (xs : list float) : float := fold_left fadd xs (of_Z 0).

(** [xs[i:]] *)
Definition slice_from {A} (xs : list A) (i : Z) : list A :=
  let n := Z.of_nat (length xs) in
  let i' := if i <? 0 then Z.max 0 (i + n) else Z.min i n in
  drop (Z.to_nat i') xs.

(** [sum(1 for w in win if w in received)] *)
Definition recv_in_window (win : list Z) (rcv : gset Z) : Z :=
  fold_left (fun acc w => if decide (w ∈ rcv) then acc + 1 else acc) win 0.

(** [100*(len(win)-recv_win)/len(win) if win else 0.0] *)
Definition window_loss (win : list Z) (rcv : gset Z) : option float :=
  let recv_win := recv_in_window win rcv in
  match win with
  | [] => Some f0
  | _ => int_truediv (100 * (Z.of_nat (length win) - recv_win))
                     (Z.of_nat (length win))
  end.

(** [100*(total_sent-total_recv)/total_sent if total_sent else 0.0] *)
Definition total_loss (sent recv : Z) : option float :=
  if sent =? 0 then Some f0 else int_truediv (100 * (sent - recv)) sent.

(** [sum(xs)/len(xs) if xs else 0.0] *)
Definition mean_or_zero (xs : list float) : option float :=
  match xs with
  | [] => Some f0
  | _ => py_div (py_sum xs) (of_Z (Z.of_nat (length xs)))
  end.

(** [round(v, n) if v else ""] *)
Definition opt_cell (v : option float) (ndigits : Z) : cell :=
  match v with
  | Some x => if truthy x then CellRound x ndigits else CellStr ""
  | None => CellStr ""
  end.

(** *** What one iteration reads from the outside *)

Inductive send_result :=
| SendOk
| SendErr (err : string).

Inductive recv_result :=
| RecvTimeout
| RecvFail
| RecvData (data : list Byte.byte) (recv_ns : Z) (clock : float)
           (stamp : string).

Record event := {
  ev_now : float;
  ev_send_ns : Z;
  ev_send : send_result;
  ev_recv : recv_result
}.

(** An exception that leaves the loop. *)
Inductive exn := StructError | ZeroDivisionError | SocketError.

Inductive outcome (A : Type) :=
| Ok (a : A)
| Raise (e : exn).
Arguments Ok {A} a.
Arguments Raise {A} e.

Definition of_option {A} (e : exn) (o : option A) : outcome A :=
  match o with Some a => Ok a | None => Raise e end.

#[global] Instance outcome_ret : MRet outcome := fun A a => Ok a.
#[global] Instance outcome_bind : MBind outcome := fun A B k o =>
  match o with Ok a => k a | Raise e => Raise e end.

(** How the receive block ends: it falls through to the report block, or
    [continue] starts the next iteration at once. *)
Inductive flow := Next | Continue.

(** *** The send block (lines 127-138) *)

Definition send_phase (ss : session) (st : client) (now : float)
    (send_ns : Z) (res : send_result) : outcome client :=
  if fle (next_send st) now then
    _ ← of_option StructError (pack (seq st) send_ns MAGIC);
    let st1 :=
      match res with
      | SendOk =>
          mkClient (<[seq st := send_ns]> (sent_times st)) (received st)
            (rtt_samples st) (oneway_samples st)
            (deque_append (window_maxlen st) (window st) (seq st))
            (window_maxlen st) (last_transit_ms st) (J_ms st)
            (total_sent st + 1) (total_recv st) (seq st)
            (next_send st) (next_report st) (csv_rows st) (console st)
      | SendErr err =>
          mkClient (sent_times st) (received st)
            (rtt_samples st) (oneway_samples st) (window st)
            (window_maxlen st) (last_transit_ms st) (J_ms st)
            (total_sent st) (total_recv st) (seq st)
            (next_send st) (next_report st) (csv_rows st)
            (console st ++ [LineSendError err])
      end in
    Ok (mkClient (sent_times st1) (received st1)
          (rtt_samples st1) (oneway_samples st1) (window st1)
          (window_maxlen st1) (last_transit_ms st1) (J_ms st1)
          (total_sent st1) (total_recv st1)
          (Z.land (seq st1 + 1) 0xffffffff)
          (fadd (next_send st1) (interval_s ss)) (next_report st1)
          (csv_rows st1) (console st1))
  else Ok st.

(** *** The receive block (lines 140-185) *)

(** The MOS-family values of a sample: withheld ([None]) until the warm-up
    has passed and three one-way samples exist (lines 166-171). *)
Definition sample_mos (cfg : config) (ss : session) (oneway : list float)
    (loss_pct clock : float)
  : outcome (option float * option float * option float * option float) :=
  let elapsed := fsub clock (start ss) in
  if gt_Z elapsed (cfg_warmup cfg) && (2 <? Z.of_nat (length oneway)) then
    avg_oneway ← of_option ZeroDivisionError
      (py_div (py_sum (slice_from oneway (- cfg_pps cfg)))
              (of_Z (Z.max 1 (Z.min (Z.of_nat (length oneway)) (cfg_pps cfg)))));
    '(mos, R, Id, Ie_eff) ← of_option ZeroDivisionError
      (emodel_mos avg_oneway loss_pct (cfg_codec cfg) (cfg_burstR cfg));
    Ok (Some mos, Some R, Some Id, Some Ie_eff)
  else Ok (None, None, None, None).

(** The row of lines 174-182 *)
Definition csv_row (stamp : string) (r_seq : Z)
    (rtt_ms oneway_ms J loss_pct : float)
    (m : option float * option float * option float * option float)
  : list cell :=
  let '(mos, R, Id, Ie_eff) := m in
  [ CellStr stamp; CellInt r_seq;
    CellRound rtt_ms 3; CellRound oneway_ms 3;
    CellRound J 3; CellRound loss_pct 3;
    opt_cell mos 3; opt_cell R 1; opt_cell Id 3; opt_cell Ie_eff 3 ].

Definition recv_phase (cfg : config) (ss : session) (st : client)
    (r : recv_result) : outcome (client * flow) :=
  match r with
  | RecvTimeout => Ok (st, Next)
  | RecvFail => Raise SocketError
  | RecvData data recv_ns clock stamp =>
      if PKT_SIZE <=? Z.of_nat (length data) then
        let '(r_seq, s_ns, magic) := unpack (take (Z.to_nat PKT_SIZE) data) in
        if negb (magic =? MAGIC) then Ok (st, Continue)
        else if decide (r_seq ∈ received st) then Ok (st, Continue)
        else
          let rcv := {[r_seq]} ∪ received st in
          match sent_times st !! r_seq with
          | None =>
              Ok (mkClient (sent_times st) rcv
                    (rtt_samples st) (oneway_samples st) (window st)
                    (window_maxlen st) (last_transit_ms st) (J_ms st)
                    (total_sent st) (total_recv st) (seq st)
                    (next_send st) (next_report st) (csv_rows st)
                    (console st), Next)
          | Some t0 =>
              let rtt_ms := fdiv (of_Z (recv_ns - t0)) (of_Z 1000000) in
              let oneway_ms := fdiv rtt_ms (of_Z 2) in
              let rtts := rtt_samples st ++ [rtt_ms] in
              let oneways := oneway_samples st ++ [oneway_ms] in
              let transit_ms := fdiv (of_Z (recv_ns - s_ns)) (of_Z 1000000) in
              let J :=
                match last_transit_ms st with
                | Some last =>
                    rfc3550_jitter_update (J_ms st) (fsub transit_ms last)
                | None => J_ms st
                end in
              loss_pct ← of_option ZeroDivisionError (window_loss (window st) rcv);
              m ← sample_mos cfg ss oneways loss_pct clock;
              let rows :=
                if csv_enabled cfg then
                  csv_rows st
                    ++ [csv_row stamp r_seq rtt_ms oneway_ms J loss_pct m]
                else csv_rows st in
              Ok (mkClient (sent_times st) rcv rtts oneways (window st)
                    (window_maxlen st) (Some transit_ms) J
                    (total_sent st) (total_recv st + 1) (seq st)
                    (next_send st) (next_report st) rows (console st), Next)
          end
      else Ok (st, Next)
  end.

(** *** The report block (lines 187-203) *)

(** The local [elapsed] of line 188 is not used afterwards and is left
    out. *)

Definition report_phase (cfg : config) (st : client) (now : float)
  : outcome client :=
  if fle (next_report st) now then
    avg_rtt ← of_option ZeroDivisionError (mean_or_zero (rtt_samples st));
    avg_oneway ← of_option ZeroDivisionError (mean_or_zero (oneway_samples st));
    loss_total ← of_option ZeroDivisionError
      (total_loss (total_sent st) (total_recv st));
    loss_win ← of_option ZeroDivisionError
      (window_loss (window st) (received st));
    '(mos, R, Id, Ie_eff) ← of_option ZeroDivisionError
      (emodel_mos avg_oneway loss_win (cfg_codec cfg) (cfg_burstR cfg));
    Ok (mkClient (sent_times st) (received st)
          (rtt_samples st) (oneway_samples st) (window st)
          (window_maxlen st) (last_transit_ms st) (J_ms st)
          (total_sent st) (total_recv st) (seq st)
          (next_send st)
          (fadd (next_report st) (of_Z (cfg_report_every cfg)))
          (csv_rows st)
          (console st
             ++ [LineStats (total_sent st) (total_recv st) loss_total loss_win
                           avg_rtt avg_oneway (J_ms st) mos]))
  else Ok st.

(** *** One iteration of [while True] *)

Inductive step_result :=
| Running (st : client)
| Break
| Raised (e : exn).

(** [duration and (now - start) >= duration] *)
Definition expired (cfg : config) (ss : session) (now : float) : bool :=
  match cfg_duration cfg with
  | Some d => negb (d =? 0) && ge_Z (fsub now (start ss)) d
  | None => false
  end.

Definition iteration (cfg : config) (ss : session) (st : client) (ev : event)
  : step_result :=
  if expired cfg ss (ev_now ev) then Break
  else
    match send_phase ss st (ev_now ev) (ev_send_ns ev) (ev_send ev) with
    | Raise e => Raised e
    | Ok st1 =>
        match recv_phase cfg ss st1 (ev_recv ev) with
        | Raise e => Raised e
        | Ok (st2, Continue) => Running st2
        | Ok (st2, Next) =>
            match report_phase cfg st2 (ev_now ev) with
            | Raise e => Raised e
            | Ok st3 => Running st3
            end
        end
    end.

(** The states of the loop: the one [init] builds, and those an iteration
    leaves behind. *)
Inductive reachable (cfg : config) (ss : session) : client -> Prop :=
| reachable_init t_start t_send t_report st :
    init cfg t_start t_send t_report = Some (ss, st) ->
    reachable cfg ss st
| reachable_step st ev st' :
    reachable cfg ss st ->
    iteration cfg ss st ev = Running st' ->
    reachable cfg ss st'.

(** A run on a list of events, for evaluating the loop on examples. *)
Fixpoint run (cfg : config) (ss : session) (st : client) (evs : list event)
  : step_result :=
  match evs with
  | [] => Running st
  | ev :: evs' =>
      match iteration cfg ss st ev with
      | Running st' => run cfg ss st' evs'
      | r => r
      end
  end.

(** The states in which the receive block runs: a state of the loop after
    the send block of an iteration. *)
Definition at_receive (cfg : config) (ss : session) (st : client) : Prop :=
  exists st0 now send_ns res,
    reachable cfg ss st0
    /\ expired cfg ss now = false
    /\ send_phase ss st0 now send_ns res = Ok st.

(** ** The E-model in exact arithmetic

    The formulas of [emodel_mos], with every operation carried out on
    rationals instead of being rounded to binary64: the delay impairment
    of line 49 and the MOS as a function of the rating (lines 58-64).
    They are the reference against which the rounding errors of the code
    are bounded. *)

Module Exact.
Local Open Scope Q_scope.

Definition qlt (x y : Q) : bool := negb (Qle_bool y x).
Definition py_max (a b : Q) : Q := if qlt a b then b else a.
Definition py_min (a b : Q) : Q := if qlt b a then b else a.

Definition hstep (x : Q) : Q := if qlt 0 x then 1 else 0.

Definition cubic (R : Q) : Q :=
  1 + (35 # 1000) * R + (R * (R - 60) * (100 - R)) * (7 # 1000000).

Definition clamp (x : Q) : Q := py_max 1 (py_min (45 # 10) x).

Definition mos_of_R (R : Q) : Q :=
  if Qle_bool R 0 then 1
  else if Qle_bool 100 R then 45 # 10
  else clamp (cubic R).

Definition delay_impairment (d : Q) : Q :=
  (24 # 1000) * d + (11 # 100) * (d - (1773 # 10)) * hstep (d - (1773 # 10)).

End Exact.

(** The first component of what [emodel_mos] returns. *)
Definition mos_value {A} (r : option (A * A * A * A)) : option A :=
  '(mos, _, _, _) ← r; Some mos.

(** ** Notions used in the statements *)

(** The number of window entries that are in the received set, counted as
    the specification words it (entries, with multiplicity). *)
Definition received_count (win : list Z) (rcv : gset Z) : Z :=
  Z.of_nat (length (filter (λ w, w ∈ rcv) win)).

(** A float lies in the closed interval between two integers. *)
Definition in_range (lo hi : Z) (x : float) : Prop :=
  fle (of_Z lo) x = true /\ fle x (of_Z hi) = true.

(** The cumulative loss percent of a printed line is a percentage. *)
Definition line_ok (l : line) : Prop :=
  match l with
  | LineStats _ _ loss_total _ _ _ _ _ => in_range 0 100 loss_total
  | LineSendError _ => True
  end.

(** The invariant of the loop: every credited sample is a distinct
    sequence number that was sent, and every distinct sequence number sent
    was counted. *)
Definition inv (st : client) : Prop :=
  0 <= total_recv st
  /\ total_recv st <= Z.of_nat (size (received st ∩ dom (sent_times st)))
  /\ Z.of_nat (size (dom (sent_times st))) <= total_sent st
  /\ 0 <= seq st < 2 ^ 32
  /\ Forall line_ok (console st).

(** Bookkeeping of the rounding steps of [SpecFloat]: whether a shifted
    mantissa has lost non-zero bits. *)
Definition inexact (mrs : shr_record) : bool := shr_r mrs || shr_s mrs.

Definition loc_inexact (l : location) : bool :=
  match l with loc_Exact => false | loc_Inexact _ => true end.

(** *** A small session, for evaluating the loop

    50 packets per second, codec g711, no warm-up, CSV export on; three
    probes are sent 20 ms apart and each echo comes back after 20 ms. *)

Definition cfgA : config :=
  {| cfg_pps := 50; cfg_duration := None;
     cfg_csv_path := Some "out.csv"%string; cfg_codec := "g711";
     cfg_burstR := f1; cfg_warmup := 0; cfg_report_every := 5 |}.

Definition packetA (k : Z) : list Byte.byte :=
  default [] (pack k (1000000000000 + 20000000 * k) MAGIC).

Definition echoA (k : Z) : event :=
  let ns := 1000000000000 + 20000000 * k in
  {| ev_now := dec (100000 + 2 * k) 100; ev_send_ns := ns; ev_send := SendOk;
     ev_recv := RecvData (packetA k) (ns + 20000000)
                  (dec (100001 + 2 * k) 100) "t" |}.

Definition ssA : session :=
  {| start := of_Z 1000; interval_s := dec 1 50 |}.

Definition st0A : client :=
  match init cfgA (of_Z 1000) (of_Z 1000) (of_Z 1000) with
  | Some (_, st) => st
  | None => mkClient ∅ ∅ [] [] [] 0 None f0 0 0 0 f0 f0 [] []
  end.

(** The state after the first echo. *)
Definition st1A : client :=
  match iteration cfgA ssA st0A (echoA 0) with
  | Running st => st
  | _ => st0A
  end.

(** A probe that is sent and never comes back. *)
Definition lostA (k : Z) : event :=
  {| ev_now := dec (100000 + 2 * k) 100;
     ev_send_ns := 1000000000000 + 20000000 * k;
     ev_send := SendOk; ev_recv := RecvTimeout |}.

(** The state after three echoes. *)
Definition st3A : client :=
  match run cfgA ssA st0A [echoA 0; echoA 1; echoA 2] with
  | Running st => st
  | _ => st0A
  end.

(** The state after an echo and a lost probe, and that state once the
    third probe has been sent. *)
Definition stB : client :=
  match run cfgA ssA st0A [echoA 0; lostA 1] with
  | Running st => st
  | _ => st0A
  end.

Definition stB_sent : client :=
  match send_phase ssA stB (dec 100004 100) 1000040000000 SendOk with
  | Ok st => st
  | Raise _ => stB
  end.

(** That state once the echo of the third probe has been received. *)
Definition stB_recv : client :=
  match recv_phase cfgA ssA stB_sent
          (RecvData (packetA 2) 1000060000000 (dec 100005 100) "t") with
  | Ok (st, _) => st
  | Raise _ => stB_sent
  end.

(** The state after an echo, a lost probe, an echo, and an iteration six
    seconds after the start, in which the report is due. *)
Definition eventsC : list event :=
  [ echoA 0; lostA 1; echoA 2;
    {| ev_now := of_Z 1006; ev_send_ns := 1006000000000;
       ev_send := SendOk; ev_recv := RecvTimeout |} ].

Definition stC : client :=
  match run cfgA ssA st0A eventsC with
  | Running st => st
  | _ => st0A
  end.

(** ** The echo responder and the command line *)

(** One turn of the loop of [run_server]: [recvfrom(2048)] hands over at
    most 2048 bytes of the datagram and [sendto] returns them to the
    address they came from.  The responder keeps no state. *)
Definition run_server_turn (data : list Byte.byte) : list Byte.byte :=
  take 2048 data.

(** The arguments of the [client] sub-command, as [argparse] delivers them. *)
Record client_args := {
  arg_pps : Z;
  arg_duration : Z;
  arg_csv : option string;
  arg_codec : string;
  arg_burstR : float;
  arg_warmup : Z;
  arg_report_every : Z
}.

(** The call of [run_client] in [main] (lines 241-247). *)
Definition main_config (a : client_args) : config :=
  {| cfg_pps := arg_pps a;
     cfg_duration := if 0 <? arg_duration a then Some (arg_duration a) else None;
     cfg_csv_path := arg_csv a;
     cfg_codec := arg_codec a;
     cfg_burstR := arg_burstR a;
     cfg_warmup := arg_warmup a;
     cfg_report_every := arg_report_every a |}.

(** ** Further notions used in the statements *)

(** The profile [emodel_mos] looks up for a codec name. *)
Definition codec_profile (codec : string) : float * float :=
  dict_get CODEC_PARAMS (lower codec) (dict_get CODEC_PARAMS "g711" (f0, f0)).

(** A float that is neither a NaN nor an infinity. *)
Definition is_finite (x : float) : bool :=
  match x with S754_zero _ | S754_finite _ _ _ => true | _ => false end.

(** A positive float in canonical form (any positive Python float). *)
Definition positive_float (x : float) : Prop :=
  flt f0 x = true /\ valid_binary prec emax x = true.

Definition mos_ok (x : float) : Prop :=
  fle f1 x = true /\ fle x (dec 45 10) = true.

(** A summary line is sane: no more received than sent, both loss
    percentages are percentages, the MOS is on its scale. *)
Definition line_sane (l : line) : Prop :=
  match l with
  | LineStats sent recv loss_total loss_win _ _ _ mos =>
      0 <= recv <= sent /\ in_range 0 100 loss_total
      /\ in_range 0 100 loss_win /\ mos_ok mos
  | LineSendError _ => True
  end.

(** A data row of the CSV: ten fields, a 32-bit sequence number, a window
    loss that is a percentage, and a MOS that is blank or on its scale. *)
Definition row_sane (row : list cell) : Prop :=
  exists stamp r_seq rtt oneway J loss mos R Id Ie_eff,
    row = [ CellStr stamp; CellInt r_seq; CellRound rtt 3; CellRound oneway 3;
            CellRound J 3; CellRound loss 3; mos; R; Id; Ie_eff ]
    /\ 0 <= r_seq < 2 ^ 32
    /\ in_range 0 100 loss
    /\ (mos = CellStr "" \/ exists x, mos = CellRound x 3 /\ mos_ok x).

(** What a later state has that an earlier one had: nothing leaves the
    received set or the pending map, the counters do not decrease, and the
    samples, the CSV rows and the printed lines are only appended to. *)
Definition grows (st st' : client) : Prop :=
  received st ⊆ received st'
  /\ dom (sent_times st) ⊆ dom (sent_times st')
  /\ total_sent st <= total_sent st'
  /\ total_recv st <= total_recv st'
  /\ rtt_samples st `prefix_of` rtt_samples st'
  /\ oneway_samples st `prefix_of` oneway_samples st'
  /\ csv_rows st `prefix_of` csv_rows st'
  /\ console st `prefix_of` console st'.

(** The shape of the client state that the loop keeps. *)
Record wf (cfg : config) (st : client) : Prop := {
  wf_rtt : Z.of_nat (length (rtt_samples st)) = total_recv st;
  wf_oneway : Z.of_nat (length (oneway_samples st)) = total_recv st;
  wf_maxlen : window_maxlen st = Z.max (cfg_pps cfg * 10) 100;
  wf_window_len : Z.of_nat (length (window st)) <= window_maxlen st;
  wf_window_exact :
    Z.of_nat (length (window st)) = Z.min (total_sent st) (window_maxlen st);
  wf_window_sent : Z.of_nat (length (window st)) <= total_sent st;
  wf_window_nonempty : 0 < total_sent st -> window st <> [];
  wf_window_pending : forall k, k ∈ window st -> k ∈ dom (sent_times st);
  wf_received_u32 : forall k, k ∈ received st -> 0 <= k < 2 ^ 32;
  wf_sent_u32 : forall k, k ∈ dom (sent_times st) -> 0 <= k < 2 ^ 32;
  wf_csv :
    if csv_enabled cfg then
      exists rows,
        csv_rows st = csv_header :: rows
        /\ Z.of_nat (length rows) = total_recv st
        /\ Forall row_sane rows
    else csv_rows st = [];
  wf_console : Forall line_sane (console st)
}.

(** ** The value of a float, and what rounding does to it

    The statements that bound rounding errors speak of the rational number
    a float stands for. *)

Definition pow2 (e : Z) : Q := Qpower 2 e.

(** The rational a finite float stands for (0 for the zeros; the
    statements use it for finite floats only). *)
Definition F2Q (x : float) : Q :=
  match x with
  | S754_finite s m e =>
      (inject_Z (if s then Z.neg m else Z.pos m) * pow2 e)%Q
  | _ => 0%Q
  end.

(** A zero or a finite float in canonical form. *)
Definition finite_valid (x : float) : Prop :=
  is_finite x = true /\ valid_binary prec emax x = true.

(** The unit roundoff of binary64, [2^-52]. *)
Definition u52 : Q := 1 # 4503599627370496.

(** [r] is what an operation whose exact result is [q] returns: a finite
    float within a relative error of [2^-52] (plus [2^-1074] for the
    subnormals) and on the same side of 0, or an infinity when [q] is
    beyond [2^1023]. *)
Definition rounded (q : Q) (r : float) : Prop :=
  (finite_valid r
   /\ (q - (Qabs q * pow2 (-52) + pow2 (-1074)) <= F2Q r)%Q
   /\ (F2Q r <= q + (Qabs q * pow2 (-52) + pow2 (-1074)))%Q
   /\ ((0 <= q)%Q -> (0 <= F2Q r)%Q)
   /\ ((q <= 0)%Q -> (F2Q r <= 0)%Q))
  \/ ((pow2 1023 <= q)%Q /\ r = S754_infinity false)
  \/ ((q <= - pow2 1023)%Q /\ r = S754_infinity true).

(** A float that is [+inf] or finite and at least [c]; one that is [-inf]
    or finite and at most [c]. *)
Definition at_least (c : Q) (x : float) : Prop :=
  x = S754_infinity false \/ (finite_valid x /\ (c <= F2Q x)%Q).

Definition at_most (c : Q) (x : float) : Prop :=
  x = S754_infinity true \/ (finite_valid x /\ (F2Q x <= c)%Q).

(** The two steps of [emodel_mos] when the loss percent is 0: the delay
    impairment [Id] (line 49) and the rating [R] (line 56, with
    [Ie_eff = Ie]). *)
Definition delay_term (d : float) : float :=
  fadd (fmul (dec 24 1000) d)
       (fmul (fmul (dec 11 100) (fsub d (dec 1773 10)))
             (hstep (fsub d (dec 1773 10)))).

Definition rating (d Ie : float) : float :=
  fsub (fsub (dec 942 10) (delay_term d)) Ie.

(** The rationals that the float literals of [emodel_mos] stand for. *)
Definition q24 : Q := Eval vm_compute in F2Q (dec 24 1000).
Definition q11 : Q := Eval vm_compute in F2Q (dec 11 100).
Definition q1773 : Q := Eval vm_compute in F2Q (dec 1773 10).
Definition q942 : Q := Eval vm_compute in F2Q (dec 942 10).
Definition q35 : Q := Eval vm_compute in F2Q (dec 35 1000).
Definition q7 : Q := Eval vm_compute in F2Q (dec 7 1000000).
Definition q45 : Q := Eval vm_compute in F2Q (dec 45 10).
Definition q60 : Q := Eval vm_compute in F2Q (of_Z 60).
Definition q100 : Q := Eval vm_compute in F2Q (of_Z 100).
Definition q1 : Q := Eval vm_compute in F2Q f1.

(** Bounds on the rounding error of the rating (3e-13) and of the cubic
    (2e-14), for delays up to 1024 ms, and the tolerance of the
    monotonicity statement (1e-13). *)
Definition eta : Q := 3 # 10000000000000.
Definition delta_c : Q := 2 # 100000000000000.
Definition mos_tolerance : Q := 1 # 10000000000000.

(** * Properties *)

(** ** Rounding to binary64

    Facts about the rounding function of [SpecFloat] that the statements
    on floats rest on. *)

Lemma digits2_pos_bounds (p : positive) :
  2 ^ (Z.pos (digits2_pos p) - 1) <= Z.pos p < 2 ^ Z.pos (digits2_pos p).
Proof.
  induction p as [p IH | p IH |]; cbn [digits2_pos].
  - rewrite Pos2Z.inj_succ. replace (Z.succ (Z.pos (digits2_pos p)) - 1)
      with (Z.succ (Z.pos (digits2_pos p) - 1)) by lia.
    rewrite !Z.pow_succ_r by lia. lia.
  - rewrite Pos2Z.inj_succ. replace (Z.succ (Z.pos (digits2_pos p)) - 1)
      with (Z.succ (Z.pos (digits2_pos p) - 1)) by lia.
    rewrite !Z.pow_succ_r by lia. lia.
  - cbn. lia.
Qed.

Lemma Zdigits2_bounds (m : Z) :
  0 < m -> 2 ^ (Zdigits2 m - 1) <= m < 2 ^ Zdigits2 m.
Proof.
  destruct m as [| p | p]; try lia. intros _. apply digits2_pos_bounds.
Qed.

Lemma Zdigits2_nonneg (m : Z) : 0 <= Zdigits2 m.
Proof. destruct m; cbn; lia. Qed.

(** comparing two powers through a number between them *)
Lemma pow2_lt_exp (a b : Z) : 0 <= b -> 2 ^ a < 2 ^ b -> a < b.
Proof.
  intros Hb H. destruct (Z.lt_ge_cases a b) as [|Hge]; [assumption|].
  apply (Z.pow_le_mono_r 2) in Hge; lia.
Qed.

Lemma iter_pos_iter {A} (f : A -> A) (p : positive) (x : A) :
  SpecFloat.iter_pos f p x = Pos.iter f x p.
Proof.
  revert x. induction p as [p IH | p IH |]; intros x; cbn [SpecFloat.iter_pos Pos.iter].
  - rewrite !IH, !Pos.iter_swap. reflexivity.
  - rewrite !IH. reflexivity.
  - reflexivity.
Qed.

Lemma shr_1_m (mrs : shr_record) :
  0 <= shr_m mrs -> shr_m (shr_1 mrs) = shr_m mrs / 2.
Proof.
  destruct mrs as [m r s]; cbn [shr_m]. intros Hm.
  rewrite <- Z.div2_div.
  destruct m as [| [p | p |] | p]; cbn [shr_1 shr_m]; try reflexivity; lia.
Qed.

Lemma shr_1_inexact (mrs : shr_record) :
  0 <= shr_m mrs ->
  inexact (shr_1 mrs) = inexact mrs || Z.odd (shr_m mrs).
Proof.
  destruct mrs as [m r s]; unfold inexact; cbn [shr_m shr_r shr_s]. intros Hm.
  destruct m as [| [p | p |] | p]; cbn [shr_1 shr_r shr_s]; try lia;
    destruct r, s; reflexivity.
Qed.

Lemma iter_shr_1 (p : positive) (mrs : shr_record) :
  0 <= shr_m mrs ->
  shr_m (Pos.iter shr_1 mrs p) = shr_m mrs / 2 ^ Z.pos p /\
  inexact (Pos.iter shr_1 mrs p)
    = inexact mrs || negb (shr_m mrs mod 2 ^ Z.pos p =? 0).
Proof.
  intros Hm. induction p as [| p [IHm IHi]] using Pos.peano_ind.
  - cbn [Pos.iter]. rewrite shr_1_m, shr_1_inexact by assumption.
    change (2 ^ 1) with 2. split; [reflexivity|]. f_equal.
    rewrite Zodd_mod. destruct (Z.eqb_spec (shr_m mrs mod 2) 1);
      destruct (Z.eqb_spec (shr_m mrs mod 2) 0); try reflexivity; try lia.
    pose proof (Z.mod_pos_bound (shr_m mrs) 2); lia.
  - rewrite Pos.iter_succ.
    assert (H0 : 0 <= shr_m (Pos.iter shr_1 mrs p)).
    { rewrite IHm. apply Z.div_pos; [assumption|]. apply Z.pow_pos_nonneg; lia. }
    rewrite shr_1_m, shr_1_inexact by assumption.
    rewrite IHm, IHi. rewrite Pos2Z.inj_succ, Z.pow_succ_r by lia.
    assert (Hp : 0 < 2 ^ Z.pos p) by (apply Z.pow_pos_nonneg; lia).
    split.
    + rewrite Z.div_div by lia. f_equal. lia.
    + rewrite <- orb_assoc. f_equal.
      rewrite (Z.mul_comm 2), Z.rem_mul_r by lia.
      rewrite Zodd_mod.
      pose proof (Z.mod_pos_bound (shr_m mrs) (2 ^ Z.pos p) Hp).
      pose proof (Z.mod_pos_bound (shr_m mrs / 2 ^ Z.pos p) 2).
      destruct (Z.eqb_spec (shr_m mrs mod 2 ^ Z.pos p) 0);
        destruct (Z.eqb_spec ((shr_m mrs / 2 ^ Z.pos p) mod 2) 1);
        destruct (Z.eqb_spec (shr_m mrs mod 2 ^ Z.pos p
                              + 2 ^ Z.pos p * ((shr_m mrs / 2 ^ Z.pos p) mod 2)) 0);
        cbn; try reflexivity; try nia.
Qed.

(** [shr] divides by [2 ^ n], keeps track of exactness, and moves the
    exponent. *)
Lemma shr_spec (mrs : shr_record) (e n : Z) :
  0 <= shr_m mrs ->
  let k := Z.max n 0 in
  shr_m (fst (shr mrs e n)) = shr_m mrs / 2 ^ k /\
  inexact (fst (shr mrs e n)) = inexact mrs || negb (shr_m mrs mod 2 ^ k =? 0) /\
  snd (shr mrs e n) = e + k.
Proof.
  intros Hm k. unfold shr. destruct n as [| p | p]; subst k; cbn [fst snd Z.max].
  - cbn. rewrite Z.div_1_r, Z.mod_1_r, orb_false_r. repeat split; lia.
  - rewrite iter_pos_iter. destruct (iter_shr_1 p mrs Hm) as [-> ->].
    replace (Z.max (Z.pos p) 0) with (Z.pos p) by lia. repeat split.
  - cbn. rewrite Z.div_1_r, Z.mod_1_r, orb_false_r. repeat split; lia.
Qed.


Lemma shr_record_of_loc_m (m : Z) (l : location) :
  shr_m (shr_record_of_loc m l) = m.
Proof. destruct l as [| []]; reflexivity. Qed.

Lemma shr_record_of_loc_inexact (m : Z) (l : location) :
  inexact (shr_record_of_loc m l) = loc_inexact l.
Proof. destruct l as [| []]; reflexivity. Qed.

Lemma round_nearest_even_bounds (mrs : shr_record) :
  let m' := round_nearest_even (shr_m mrs) (loc_of_shr_record mrs) in
  shr_m mrs <= m' <= shr_m mrs + 1 /\ (inexact mrs = false -> m' = shr_m mrs).
Proof.
  destruct mrs as [m r s]; unfold inexact; cbn [shr_m shr_r shr_s].
  destruct r, s; cbn [loc_of_shr_record round_nearest_even orb];
    try destruct (Z.even m); split; try lia; intros; try reflexivity;
    discriminate.
Qed.

Lemma shr_fexp_spec (m e : Z) (l : location) :
  0 <= m ->
  let k := Z.max (fexp prec emax (Zdigits2 m + e) - e) 0 in
  shr_m (fst (shr_fexp prec emax m e l)) = m / 2 ^ k /\
  inexact (fst (shr_fexp prec emax m e l))
    = loc_inexact l || negb (m mod 2 ^ k =? 0) /\
  snd (shr_fexp prec emax m e l) = e + k.
Proof.
  intros Hm k. unfold shr_fexp.
  pose proof (shr_spec (shr_record_of_loc m l) e
                (fexp prec emax (Zdigits2 m + e) - e)) as H.
  rewrite shr_record_of_loc_m, shr_record_of_loc_inexact in H.
  apply H, Hm.
Qed.

(** What [binary_round_aux] computes on a non-negative mantissa: a shift
    to the target exponent, a rounding step that adds at most one, and a
    second shift for the case where rounding produced one more digit. *)
Lemma binary_round_aux_spec (sx : bool) (mx ex : Z) (lx : location) :
  0 <= mx ->
  let k1 := Z.max (fexp prec emax (Zdigits2 mx + ex) - ex) 0 in
  exists m2 : Z,
    mx / 2 ^ k1 <= m2 <= mx / 2 ^ k1 + 1 /\
    (loc_inexact lx = false -> mx mod 2 ^ k1 = 0 -> m2 = mx / 2 ^ k1) /\
    let k2 := Z.max (fexp prec emax (Zdigits2 m2 + (ex + k1)) - (ex + k1)) 0 in
    binary_round_aux prec emax sx mx ex lx =
      match m2 / 2 ^ k2 with
      | Z0 => S754_zero sx
      | Zpos m =>
          if ex + k1 + k2 <=? emax - prec
          then S754_finite sx m (ex + k1 + k2) else S754_infinity sx
      | Zneg _ => S754_nan
      end.
Proof.
  intros Hm k1. unfold binary_round_aux.
  destruct (shr_fexp_spec mx ex lx Hm) as (H1m & H1i & H1e).
  destruct (shr_fexp prec emax mx ex lx) as [mrs' e'].
  cbn [fst snd] in H1m, H1i, H1e. fold k1 in H1m, H1i, H1e.
  destruct (round_nearest_even_bounds mrs') as [Hb Hex].
  set (m2 := round_nearest_even (shr_m mrs') (loc_of_shr_record mrs')) in *.
  exists m2. rewrite H1m in Hb, Hex.
  split; [exact Hb|]. split.
  { intros Hl Hmod. apply Hex. rewrite H1i, Hl, Hmod. reflexivity. }
  assert (Hm2 : 0 <= m2).
  { assert (0 <= mx / 2 ^ k1); [|lia].
    apply Z.div_pos; [assumption|]. apply Z.pow_pos_nonneg; lia. }
  destruct (shr_fexp_spec m2 e' loc_Exact Hm2) as (H2m & _ & H2e).
  destruct (shr_fexp prec emax m2 e' loc_Exact) as [mrs'' e''].
  cbn [fst snd] in H2m, H2e. subst e' e''. cbv zeta.
  rewrite H2m. rewrite !Z.add_assoc. reflexivity.
Qed.


Lemma pow2_pos (k : Z) : 0 <= k -> 0 < 2 ^ k.
Proof. intros. apply Z.pow_pos_nonneg; lia. Qed.

Lemma div_pow2_lower (m d k : Z) :
  0 <= k <= d - 1 -> 2 ^ (d - 1) <= m -> 2 ^ (d - 1 - k) <= m / 2 ^ k.
Proof.
  intros Hk Hm. apply Z.div_le_lower_bound; [apply pow2_pos; lia|].
  rewrite <- Z.pow_add_r by lia. replace (k + (d - 1 - k)) with (d - 1) by lia.
  assumption.
Qed.

(** A value of at least the smallest subnormal is not rounded to zero. *)
Lemma binary_round_aux_nonzero (sx : bool) (mx ex : Z) (lx : location) :
  0 < mx -> emin prec emax < Zdigits2 mx + ex ->
  is_zero (binary_round_aux prec emax sx mx ex lx) = false.
Proof.
  intros Hm Hd.
  destruct (binary_round_aux_spec sx mx ex lx) as (m2 & Hb & _ & ->); [lia|].
  pose proof (Zdigits2_bounds mx Hm) as [Hlo _].
  pose proof (Zdigits2_nonneg mx) as Hd0.
  set (d := Zdigits2 mx) in *.
  set (k1 := Z.max (fexp prec emax (d + ex) - ex) 0) in *.
  assert (Hd1 : 1 <= d) by (subst d; destruct mx; cbn; lia).
  assert (Hk1 : 0 <= k1 <= d - 1).
  { subst k1. unfold fexp, emin, prec, emax in *. lia. }
  pose proof (div_pow2_lower mx d k1 Hk1 Hlo) as Hm1.
  assert (H1 : 1 <= 2 ^ (d - 1 - k1)) by (pose proof (pow2_pos (d - 1 - k1)); lia).
  assert (Hm2 : 0 < m2) by lia.
  pose proof (Zdigits2_bounds m2 Hm2) as [Hlo2 Hhi2].
  pose proof (Zdigits2_nonneg m2) as Hd20.
  set (d2 := Zdigits2 m2) in *.
  assert (Hd2 : d - 1 - k1 < d2).
  { apply pow2_lt_exp; [assumption|]. lia. }
  cbv zeta.
  set (k2 := Z.max (fexp prec emax (d2 + (ex + k1)) - (ex + k1)) 0).
  assert (Hk2 : 0 <= k2 <= d2 - 1).
  { subst k2. unfold fexp, emin, prec, emax in *. lia. }
  pose proof (div_pow2_lower m2 d2 k2 Hk2 Hlo2) as Hm3.
  assert (H3 : 1 <= 2 ^ (d2 - 1 - k2)) by (pose proof (pow2_pos (d2 - 1 - k2)); lia).
  destruct (m2 / 2 ^ k2) as [| m | m]; try lia.
  destruct (ex + k1 + k2 <=? emax - prec); reflexivity.
Qed.

Lemma fexp_le_of_bound (m e : Z) (bm : positive) (be : Z) :
  0 <= m -> canonical_mantissa prec emax bm be = true -> e <= be ->
  m <= Z.pos bm * 2 ^ (be - e) ->
  fexp prec emax (Zdigits2 m + e) <= be.
Proof.
  intros Hm Hc He Hle. unfold canonical_mantissa in Hc.
  apply Z.eqb_eq in Hc.
  destruct (Z.eq_dec m 0) as [-> | Hne].
  { cbn [Zdigits2]. unfold fexp, emin, prec, emax in *. lia. }
  assert (Hm' : 0 < m) by lia.
  pose proof (Zdigits2_bounds m Hm') as [Hlo _].
  pose proof (digits2_pos_bounds bm) as [_ Hhi].
  pose proof (Zdigits2_nonneg m).
  assert (Hlt : 2 ^ (Zdigits2 m - 1) < 2 ^ (Z.pos (digits2_pos bm) + (be - e))).
  { rewrite Z.pow_add_r by lia. pose proof (pow2_pos (be - e)). nia. }
  apply pow2_lt_exp in Hlt; [|lia].
  unfold fexp, emin, prec, emax in *. lia.
Qed.

Lemma div_pow2_upper (m b e k : Z) :
  0 <= k -> 0 <= e -> m <= b * 2 ^ (e + k) -> m / 2 ^ k <= b * 2 ^ e.
Proof.
  intros Hk He Hle. apply Z.div_le_upper_bound; [apply pow2_pos; lia|].
  rewrite Z.pow_add_r in Hle by lia. lia.
Qed.

(** Rounding does not cross a representable number: a value that is at
    most the float [bm * 2 ^ be] is rounded to a float that is at most
    [bm * 2 ^ be]. *)
Lemma binary_round_aux_le (mx ex : Z) (lx : location) (bm : positive) (be : Z) :
  0 <= mx ->
  canonical_mantissa prec emax bm be = true -> be <= emax - prec ->
  ex <= be ->
  mx < Z.pos bm * 2 ^ (be - ex)
    \/ (mx = Z.pos bm * 2 ^ (be - ex) /\ lx = loc_Exact) ->
  SFleb (binary_round_aux prec emax false mx ex lx) (S754_finite false bm be)
    = true.
Proof.
  intros Hm Hc Hbe He Hle.
  destruct (binary_round_aux_spec false mx ex lx Hm) as (m2 & Hb & Hex & ->).
  set (k1 := Z.max (fexp prec emax (Zdigits2 mx + ex) - ex) 0) in *.
  assert (Hk1 : 0 <= k1) by (subst k1; lia).
  assert (He1 : ex + k1 <= be).
  { pose proof (fexp_le_of_bound mx ex bm be Hm Hc He). subst k1. lia. }
  assert (HK : Z.pos bm * 2 ^ (be - ex)
               = Z.pos bm * 2 ^ (be - (ex + k1)) * 2 ^ k1).
  { rewrite <- Z.mul_assoc, <- Z.pow_add_r by lia. do 2 f_equal. lia. }
  assert (Hp1 : 0 < 2 ^ k1) by (apply pow2_pos; lia).
  assert (Hm1 : mx / 2 ^ k1 <= Z.pos bm * 2 ^ (be - (ex + k1))).
  { apply div_pow2_upper; try lia.
    replace (be - (ex + k1) + k1) with (be - ex) by lia. lia. }
  assert (Hm1' : 0 <= mx / 2 ^ k1) by (apply Z.div_pos; lia).
  assert (Hm2 : m2 <= Z.pos bm * 2 ^ (be - (ex + k1))).
  { destruct (Z.eq_dec (mx / 2 ^ k1) (Z.pos bm * 2 ^ (be - (ex + k1))))
      as [E|]; [|lia].
    assert (Hge : Z.pos bm * 2 ^ (be - ex) <= mx).
    { rewrite HK, <- E. rewrite Z.mul_comm. apply Z.mul_div_le. lia. }
    destruct Hle as [|[Hmx ->]]; [lia|].
    rewrite Hex; [lia|reflexivity|].
    rewrite Hmx, HK. apply Z.mod_mul. lia. }
  assert (Hm2' : 0 <= m2) by lia.
  cbv zeta.
  set (k2 := Z.max (fexp prec emax (Zdigits2 m2 + (ex + k1)) - (ex + k1)) 0).
  assert (Hk2 : 0 <= k2) by (subst k2; lia).
  assert (He3 : ex + k1 + k2 <= be).
  { pose proof (fexp_le_of_bound m2 (ex + k1) bm be Hm2' Hc He1 Hm2).
    subst k2. lia. }
  assert (Hm3 : m2 / 2 ^ k2 <= Z.pos bm * 2 ^ (be - (ex + k1 + k2))).
  { apply div_pow2_upper; try lia.
    replace (be - (ex + k1 + k2) + k2) with (be - (ex + k1)) by lia. lia. }
  assert (Hm3' : 0 <= m2 / 2 ^ k2) by (apply Z.div_pos; [lia|apply pow2_pos; lia]).
  destruct (m2 / 2 ^ k2) as [| m | m]; [reflexivity| |lia].
  destruct (Z.leb_spec (ex + k1 + k2) (emax - prec)); [|lia].
  unfold SFleb, SFcompare.
  destruct (Z.compare_spec (ex + k1 + k2) be) as [E | |]; [| reflexivity | lia].
  rewrite E, Z.sub_diag, Z.mul_1_r in Hm3.
  change (Pos.compare_cont Eq m bm) with (Pos.compare m bm).
  destruct (Pos.compare_spec m bm); try reflexivity. lia.
Qed.

Lemma digits2_pos_shift (m d : positive) :
  digits2_pos (Pos.iter xO m d) = (digits2_pos m + d)%positive.
Proof.
  induction d as [| d IH] using Pos.peano_ind.
  - cbn [Pos.iter digits2_pos]. lia.
  - rewrite Pos.iter_succ. cbn [digits2_pos]. rewrite IH. lia.
Qed.

(** [shl_align] keeps the position of the leading bit. *)
Lemma shl_align_digits (m : positive) (e e' : Z) :
  Z.pos (digits2_pos (fst (shl_align m e e'))) + snd (shl_align m e e')
  = Z.pos (digits2_pos m) + e.
Proof.
  unfold shl_align. destruct (e' - e) as [| d | d] eqn:E; cbn [fst snd];
    try reflexivity.
  rewrite digits2_pos_shift. lia.
Qed.

Lemma binary_round_nonzero (sx : bool) (m : positive) (e : Z) :
  emin prec emax < Z.pos (digits2_pos m) + e ->
  is_zero (binary_round prec emax sx m e) = false.
Proof.
  intros Hd. unfold binary_round.
  pose proof (shl_align_digits m e (fexp prec emax (Z.pos (digits2_pos m) + e)))
    as Hs.
  destruct (shl_align m e (fexp prec emax (Z.pos (digits2_pos m) + e)))
    as [mz ez]. cbn [fst snd] in Hs.
  apply binary_round_aux_nonzero; [lia|]. cbn [Zdigits2]. lia.
Qed.

(** The sign of a rounded number is the sign that was asked for. *)
Lemma binary_round_aux_sign (sx : bool) (mx ex : Z) (lx : location) :
  match binary_round_aux prec emax sx mx ex lx with
  | S754_zero s | S754_infinity s | S754_finite s _ _ => s = sx
  | S754_nan => True
  end.
Proof.
  unfold binary_round_aux.
  destruct (shr_fexp prec emax mx ex lx) as [mrs' e'].
  destruct (shr_fexp prec emax _ e' loc_Exact) as [mrs'' e''].
  destruct (shr_m mrs''); try exact I; try reflexivity.
  destruct (e'' <=? emax - prec); reflexivity.
Qed.

(** [float(n)] is not zero for a positive [int] [n]. *)
Lemma of_Z_nonzero (n : Z) : 0 < n -> is_zero (of_Z n) = false.
Proof.
  destruct n as [| p | p]; try lia. intros _.
  unfold of_Z, binary_normalize. apply binary_round_nonzero.
  unfold emin, prec, emax. lia.
Qed.

Lemma shl_align_exp (m : positive) (e e' : Z) :
  snd (shl_align m e e') = Z.min e e'.
Proof.
  unfold shl_align. destruct (e' - e) as [| d | d] eqn:E; cbn [snd]; lia.
Qed.

(** [x + 1.0] is not zero unless [x] is negative. *)
Lemma fadd_f1_nonzero (x : float) :
  (forall m e, x <> S754_finite true m e) -> is_zero (fadd x f1) = false.
Proof.
  intros Hx.
  change f1 with (S754_finite false 4503599627370496 (-52)).
  destruct x as [s | s | | [] m e]; try reflexivity.
  { exfalso. eapply Hx. reflexivity. }
  unfold fadd, SFadd. cbn [cond_Zopp].
  set (ez := Z.min e (-52)).
  pose proof (shl_align_digits 4503599627370496 (-52) ez) as Hd.
  rewrite shl_align_exp in Hd.
  change (Z.pos (digits2_pos 4503599627370496)) with 53 in Hd.
  set (a := fst (shl_align m e ez)).
  set (b := fst (shl_align 4503599627370496 (-52) ez)) in *.
  change (Z.pos a + Z.pos b) with (Z.pos (a + b)).
  cbn [binary_normalize]. apply binary_round_nonzero.
  pose proof (digits2_pos_bounds b) as [Hlo _].
  pose proof (digits2_pos_bounds (a + b)) as [_ Hhi].
  assert (Hlt : Z.pos (digits2_pos b) - 1 < Z.pos (digits2_pos (a + b))).
  { apply pow2_lt_exp; lia. }
  unfold emin, prec, emax. lia.
Qed.

Lemma new_location_zero (n : Z) : new_location n 0 = loc_Exact.
Proof. unfold new_location. destruct (Z.even n); reflexivity. Qed.

(** The quotient of two [int]s that is at most 100 is rounded to a float
    between 0.0 and 100.0. *)
Lemma int_truediv_percent (a b : Z) :
  0 <= a -> 0 < b -> a <= 100 * b ->
  exists x, int_truediv a b = Some x /\ in_range 0 100 x.
Proof.
  intros Ha Hb Hab. unfold int_truediv, in_range.
  destruct (Z.eqb_spec b 0) as [|_]; [lia|].
  destruct (Z.ltb_spec b 0) as [|_]; [lia|].
  destruct (Z.eqb_spec a 0) as [|Hne].
  { eexists. split; [reflexivity|]. split; reflexivity. }
  destruct (Z.ltb_spec a 0) as [|_]; [lia|].
  rewrite (Z.abs_eq a), (Z.abs_eq b) by lia. cbn [xorb].
  unfold SFdiv_core_binary.
  assert (Ha' : 0 < a) by lia.
  pose proof (Zdigits2_bounds a Ha') as [Hlo _].
  pose proof (Zdigits2_bounds b Hb) as [_ Hhi].
  pose proof (Zdigits2_nonneg b) as Hd2.
  assert (Hd : Zdigits2 a - 1 < Zdigits2 b + 7).
  { apply pow2_lt_exp; [lia|]. rewrite Z.pow_add_r by lia.
    change (2 ^ 7) with 128. lia. }
  set (e' := Z.min (fexp prec emax (Zdigits2 a + 0 - (Zdigits2 b + 0))) (0 - 0)).
  assert (He' : e' <= -46).
  { subst e'. unfold fexp, emin, prec, emax. lia. }
  destruct (0 - 0 - e') as [| s | s] eqn:Es; try lia.
  rewrite Z.shiftl_mul_pow2 by lia.
  pose proof (Z_div_mod (a * 2 ^ Z.pos s) b ltac:(lia)) as Hdiv.
  destruct (Z.div_eucl (a * 2 ^ Z.pos s) b) as [q r]. destruct Hdiv as [Hq Hr].
  assert (Hp : 0 < 2 ^ Z.pos s) by (apply pow2_pos; lia).
  assert (HK : Z.pos 7036874417766400 * 2 ^ (-46 - e') = 100 * 2 ^ Z.pos s).
  { change (Z.pos 7036874417766400) with (100 * 2 ^ 46).
    rewrite <- Z.mul_assoc, <- Z.pow_add_r by lia. do 2 f_equal. lia. }
  assert (Hle : SFleb (binary_round_aux prec emax false q e' (new_location b r))
                  (S754_finite false 7036874417766400 (-46)) = true).
  { apply binary_round_aux_le;
      [nia | reflexivity | unfold emax, prec; lia | lia |].
    rewrite HK.
    destruct (Z.eq_dec q (100 * 2 ^ Z.pos s)) as [E | Hneq].
    - right. split; [exact E|].
      assert (r = 0) by nia. subst r. apply new_location_zero.
    - left. nia. }
  eexists. split; [reflexivity|].
  change (of_Z 100) with (S754_finite false 7036874417766400 (-46)).
  change (of_Z 0) with (S754_zero false).
  split; [|exact Hle].
  pose proof (binary_round_aux_sign false q e' (new_location b r)) as Hs.
  destruct (binary_round_aux prec emax false q e' (new_location b r))
    as [s0 | s0 | | s0 m0 e0]; try subst s0; try reflexivity.
  discriminate Hle.
Qed.


(** ** The MOS estimator *)

Lemma flt_fle (x y : float) : flt x y = true -> fle x y = true.
Proof.
  unfold flt, fle, SFltb, SFleb. destruct (SFcompare x y) as [[]|]; congruence.
Qed.

(** Whatever the rating, the MOS is in [1.0, 4.5]. *)
Lemma mos_of_R_range (R : float) :
  fle f1 (mos_of_R R) = true /\ fle (mos_of_R R) (dec 45 10) = true.
Proof.
  unfold mos_of_R.
  destruct (fle R f0); [split; reflexivity|].
  destruct (fle (of_Z 100) R); [split; reflexivity|].
  cbv zeta. generalize (cubic_mos R) as x. intros x. unfold py_max, py_min.
  destruct (flt x (dec 45 10)) eqn:E1.
  - destruct (flt f1 x) eqn:E2.
    + split; apply flt_fle; assumption.
    + split; reflexivity.
  - change (flt f1 (dec 45 10)) with true. cbv iota. split; reflexivity.
Qed.

(** Every codec name selects one of the three profiles. *)
Lemma codec_profile_cases (codec : string) :
  let p := dict_get CODEC_PARAMS (lower codec)
             (dict_get CODEC_PARAMS "g711" (f0, f0)) in
  p = (of_Z 0, of_Z 25) \/ p = (of_Z 11, of_Z 19) \/ p = (of_Z 5, of_Z 14).
Proof.
  unfold CODEC_PARAMS. cbn [dict_get].
  change (String.eqb "g711" "g711") with true. cbv iota.
  destruct (String.eqb "g711" (lower codec)); [auto|].
  destruct (String.eqb "g729" (lower codec)); [auto|].
  destruct (String.eqb "opus" (lower codec)); auto.
Qed.

Lemma flt_f0_shape (x : float) :
  flt f0 x = true ->
  x = S754_infinity false \/ exists m e, x = S754_finite false m e.
Proof.
  destruct x as [s | [] | | [] m e]; cbn; try discriminate; eauto.
Qed.

(** A positive float divided by a positive finite float is not negative. *)
Lemma fdiv_pos_not_neg (x : float) (mB : positive) (eB : Z) :
  flt f0 x = true ->
  forall m e, fdiv x (S754_finite false mB eB) <> S754_finite true m e.
Proof.
  intros Hx m e. destruct (flt_f0_shape x Hx) as [-> | (mx & ex & ->)].
  - discriminate.
  - unfold fdiv, SFdiv.
    destruct (SFdiv_core_binary prec emax (Z.pos mx) ex (Z.pos mB) eB)
      as [[mz ez] lz]. cbn [xorb].
    pose proof (binary_round_aux_sign false mz ez lz) as Hs.
    intros E. rewrite E in Hs. discriminate Hs.
Qed.

(** The loss term of [Ie_eff] is computed without a division by zero when
    the burst factor is 1.0. *)
Lemma loss_term_total (Ie Ppl : float) (mB : positive) (eB : Z) :
  flt f0 Ppl = true ->
  exists v,
    (q ← py_div Ppl (S754_finite false mB eB);
     t ← py_div (fmul (fsub (of_Z 95) Ie) Ppl) (fadd q f1);
     Some (fadd Ie t)) = Some v.
Proof.
  intros HP. unfold py_div.
  change (is_zero (S754_finite false mB eB)) with false. cbv iota.
  unfold mbind, option_bind.
  rewrite (fadd_f1_nonzero _ (fdiv_pos_not_neg Ppl mB eB HP)). eauto.
Qed.

(** C1: for every delay and loss percent (in particular every non-negative
    one), every codec name and burst factor 1.0, [emodel_mos] returns, and
    the MOS it returns lies in the closed interval [1.0, 4.5]. *)
Theorem emodel_mos_in_range (d p : float) (codec : string) :
  exists mos R Id Ie_eff,
    emodel_mos d p codec f1 = Some (mos, R, Id, Ie_eff)
    /\ fle f1 mos = true /\ fle mos (dec 45 10) = true.
Proof.
  unfold emodel_mos.
  assert (Hc : exists Ie mB eB,
             dict_get CODEC_PARAMS (lower codec)
               (dict_get CODEC_PARAMS "g711" (f0, f0))
             = (Ie, S754_finite false mB eB)).
  { destruct (codec_profile_cases codec) as [E | [E | E]]; rewrite E;
      eexists _, _, _; reflexivity. }
  destruct Hc as (Ie & mB & eB & ->).
  set (Ppl := py_max f0 p). set (Id := fadd _ _).
  destruct (flt f0 Ppl) eqn:HP.
  - destruct (loss_term_total Ie Ppl mB eB HP) as [v ->].
    unfold mbind, option_bind. eexists _, _, _, _. split; [reflexivity|].
    apply mos_of_R_range.
  - unfold mbind, option_bind. eexists _, _, _, _. split; [reflexivity|].
    apply mos_of_R_range.
Qed.

Module ExactFacts.
Import Exact.
Local Open Scope Q_scope.

Lemma qlt_spec (x y : Q) : reflect (x < y) (qlt x y).
Proof.
  unfold qlt. destruct (Qle_bool y x) eqn:E; constructor.
  - apply Qle_bool_iff in E. lra.
  - assert (~ y <= x) by (intro H'; apply Qle_bool_iff in H'; congruence). lra.
Qed.

Lemma qle_spec (x y : Q) : reflect (x <= y) (Qle_bool x y).
Proof.
  destruct (Qle_bool x y) eqn:E; constructor.
  - apply Qle_bool_iff, E.
  - intro H'; apply Qle_bool_iff in H'; congruence.
Qed.

Ltac case_qlt :=
  repeat match goal with
         | |- context [qlt ?a ?b] => destruct (qlt_spec a b)
         end.

Lemma clamp_bounds (x : Q) : 1 <= clamp x <= 45 # 10.
Proof.
  unfold clamp, py_max, py_min. destruct (qlt_spec x (45 # 10)); case_qlt; lra.
Qed.

Lemma clamp_mono (x y : Q) : x <= y -> clamp x <= clamp y.
Proof.
  intros H. unfold clamp, py_max, py_min.
  destruct (qlt_spec x (45 # 10)); destruct (qlt_spec y (45 # 10));
    case_qlt; lra.
Qed.

Lemma clamp_low (x : Q) : x <= 1 -> clamp x == 1.
Proof.
  intros H. unfold clamp, py_max, py_min.
  destruct (qlt_spec x (45 # 10)); case_qlt; lra.
Qed.

(** Between 0 and 100 the cubic either grows with [R] or is below 1, where
    the clamp hides it. *)
Lemma cubic_mono (R R' : Q) :
  0 < R -> R <= R' -> R' < 100 -> cubic R <= cubic R' \/ cubic R <= 1.
Proof.
  intros H0 Hle H100. unfold cubic.
  destruct (Qlt_le_dec 0 (- R * R + 160 * R - 1000)) as [HP | HP].
  - left.
    assert (Hend : 0 <= 5000 + 60 * R - R * R) by nra.
    assert (Hdiag : 0 <= - 3 * R * R + 320 * R - 1000) by nra.
    assert (E : (100 - R)
                * (- 1000 + 160 * (R + R') - (R * R + R * R' + R' * R'))
                == (R' - R) * (5000 + 60 * R - R * R)
                   + (100 - R') * (- 3 * R * R + 320 * R - 1000)
                   + (R' - R) * (100 - R') * (100 - R)) by ring.
    assert (Hq : 0 <= (100 - R)
                     * (- 1000 + 160 * (R + R') - (R * R + R * R' + R' * R'))).
    { rewrite E.
      assert (0 <= (R' - R) * (5000 + 60 * R - R * R))
        by (apply Qmult_le_0_compat; lra).
      assert (0 <= (100 - R') * (- 3 * R * R + 320 * R - 1000))
        by (apply Qmult_le_0_compat; lra).
      assert (0 <= (R' - R) * (100 - R') * (100 - R))
        by (repeat apply Qmult_le_0_compat; lra).
      lra. }
    assert (Hq' : 0 <= - 1000 + 160 * (R + R') - (R * R + R * R' + R' * R'))
      by nra.
    assert (E' : 1 + (35 # 1000) * R' + R' * (R' - 60) * (100 - R') * (7 # 1000000)
                 == 1 + (35 # 1000) * R + R * (R - 60) * (100 - R) * (7 # 1000000)
                    + (7 # 1000000)
                      * ((R' - R)
                         * (- 1000 + 160 * (R + R')
                            - (R * R + R * R' + R' * R')))) by ring.
    rewrite E'.
    assert (0 <= (R' - R)
               * (- 1000 + 160 * (R + R') - (R * R + R * R' + R' * R')))
      by (apply Qmult_le_0_compat; lra).
    lra.
  - right.
    assert (E : 1 + (35 # 1000) * R + R * (R - 60) * (100 - R) * (7 # 1000000)
                == 1 + (7 # 1000000) * (R * (- R * R + 160 * R - 1000))) by ring.
    rewrite E.
    assert (0 <= R * (- (- R * R + 160 * R - 1000)))
      by (apply Qmult_le_0_compat; lra).
    lra.
Qed.

Lemma mos_of_R_bounds (R : Q) : 1 <= mos_of_R R <= 45 # 10.
Proof.
  unfold mos_of_R. destruct (Qle_bool R 0); [lra|].
  destruct (Qle_bool 100 R); [lra|]. apply clamp_bounds.
Qed.

Lemma mos_of_R_mono (R R' : Q) : R <= R' -> mos_of_R R <= mos_of_R R'.
Proof.
  intros Hle. pose proof (mos_of_R_bounds R) as HB.
  pose proof (mos_of_R_bounds R') as HB'. revert HB HB'.
  unfold mos_of_R.
  destruct (qle_spec R 0); [lra|].
  destruct (qle_spec R' 0); [lra|].
  destruct (qle_spec 100 R'); [lra|].
  destruct (qle_spec 100 R); [lra|]. intros _ _.
  destruct (cubic_mono R R') as [H | H]; try lra.
  - apply clamp_mono, H.
  - rewrite (clamp_low _ H). apply clamp_bounds.
Qed.

Lemma delay_impairment_mono (x y : Q) :
  0 <= x -> x <= y ->
  delay_impairment (py_max 0 x) <= delay_impairment (py_max 0 y).
Proof.
  intros Hx Hxy. unfold delay_impairment, hstep, py_max.
  destruct (qlt_spec 0 x); destruct (qlt_spec 0 y); case_qlt; lra.
Qed.

End ExactFacts.

(** ** Rounding errors of the MOS estimator

    Every operation of [emodel_mos] rounds its exact result to the nearest
    float.  The lemmas below bound these errors, first for one operation,
    then along the computation of the rating and of the cubic. *)

Lemma pow2_gt0 (e : Z) : (0 < pow2 e)%Q.
Proof. unfold pow2. apply Qpower_0_lt. reflexivity. Qed.

Lemma pow2_add (a b : Z) : (pow2 (a + b) == pow2 a * pow2 b)%Q.
Proof. unfold pow2. apply Qpower_plus. discriminate. Qed.

Lemma pow2_of_Z (k : Z) : 0 <= k -> (inject_Z (2 ^ k) == pow2 k)%Q.
Proof. intros H. unfold pow2. rewrite Zpower_Qpower by exact H. reflexivity. Qed.

Lemma pow2_le (a b : Z) : a <= b -> (pow2 a <= pow2 b)%Q.
Proof.
  intros H. unfold pow2. apply Qpower_le_compat_l; [exact H|].
  unfold Qle. simpl. lia.
Qed.

Lemma pow2_lt_inv (a b : Z) : (pow2 a < pow2 b)%Q -> a < b.
Proof.
  intros H. apply (Qpower_lt_compat_l_inv 2); [exact H|]. reflexivity.
Qed.

Lemma pow2_split (a b : Z) : (pow2 a == pow2 (a - b) * pow2 b)%Q.
Proof. rewrite <- pow2_add. replace (a - b + b) with a by lia. reflexivity. Qed.

(** The number of binary digits, from bounds on the number. *)
Lemma Zdigits2_le_of_lt (m k : Z) : 0 <= k -> 0 <= m < 2 ^ k -> Zdigits2 m <= k.
Proof.
  intros Hk [H0 H1]. destruct (Z.eq_dec m 0) as [-> | Hne]; [simpl; lia|].
  pose proof (Zdigits2_bounds m ltac:(lia)) as [Hl _].
  assert (2 ^ (Zdigits2 m - 1) < 2 ^ k) by lia.
  apply pow2_lt_exp in H; lia.
Qed.

Lemma Zdigits2_gt_of_le (m k : Z) : 0 <= k -> 2 ^ k <= m -> k < Zdigits2 m.
Proof.
  intros Hk H. assert (0 < 2 ^ k) by (apply Z.pow_pos_nonneg; lia).
  pose proof (Zdigits2_bounds m ltac:(lia)) as [_ Hu].
  apply pow2_lt_exp; [apply Zdigits2_nonneg | lia].
Qed.

Lemma fexp_eq (e : Z) : fexp prec emax e = Z.max (e - 53) (-1074).
Proof. reflexivity. Qed.

(** Rounding a mantissa that needs no shift to the left: the result is
    canonical, its exponent is the target exponent [F] or one more, and its
    mantissa is within one unit of the exact one at exponent [F]. *)
Lemma round_aux_Z (s : bool) (mx ex : Z) (lx : location) :
  0 < mx -> ex <= fexp prec emax (Zdigits2 mx + ex) ->
  let F := fexp prec emax (Zdigits2 mx + ex) in
  exists m3 e3 : Z,
    binary_round_aux prec emax s mx ex lx =
      match m3 with
      | Z0 => S754_zero s
      | Zpos m => if e3 <=? 971 then S754_finite s m e3 else S754_infinity s
      | Zneg _ => S754_nan
      end
    /\ 0 <= m3
    /\ (m3 <> 0 -> fexp prec emax (Zdigits2 m3 + e3) = e3)
    /\ F <= e3 <= F + 1
    /\ mx - 2 ^ (F - ex) <= m3 * 2 ^ (e3 - ex) <= mx + 2 ^ (F - ex).
Proof.
  intros Hm Hs F.
  destruct (binary_round_aux_spec s mx ex lx ltac:(lia)) as (m2 & Hm2 & _ & E).
  cbv zeta in E. fold F in Hm2, E.
  rewrite (Z.max_l (F - ex) 0) in Hm2, E by lia.
  replace (ex + (F - ex)) with F in E by lia.
  set (k1 := F - ex) in *.
  set (d := Zdigits2 mx) in *.
  assert (Hk1 : 0 <= k1) by (unfold k1; lia).
  assert (HF : F = Z.max (d + ex - 53) (-1074)) by reflexivity.
  pose proof (Zdigits2_bounds mx Hm) as [Hdl Hdu]. fold d in Hdl, Hdu.
  assert (Hd0 : 0 < d).
  { destruct (Z.le_gt_cases d 0) as [Hd|]; [|assumption].
    exfalso. pose proof (Zdigits2_nonneg mx). fold d in H.
    assert (d = 0) by lia. rewrite H0 in Hdu. simpl in Hdu. lia. }
  assert (Hp : 0 < 2 ^ k1) by (apply Z.pow_pos_nonneg; lia).
  (* m1 < 2^53 *)
  assert (Hm1 : mx / 2 ^ k1 < 2 ^ 53).
  { apply Z.div_lt_upper_bound; [exact Hp|].
    rewrite <- Z.pow_add_r by lia.
    apply Z.lt_le_trans with (2 ^ d); [exact Hdu|].
    apply Z.pow_le_mono_r; lia. }
  assert (Hm1' : 0 <= mx / 2 ^ k1) by (apply Z.div_pos; lia).
  (* value of m2 * 2^k1 *)
  assert (Hval : mx - 2 ^ k1 <= m2 * 2 ^ k1 <= mx + 2 ^ k1).
  { pose proof (Z.div_mod mx (2 ^ k1) ltac:(lia)) as Hdm.
    pose proof (Z.mod_pos_bound mx (2 ^ k1) Hp) as Hmod.
    nia. }
  destruct (Z.eq_dec m2 (2 ^ 53)) as [E53 | N53].
  - (* the mantissa was rounded up to 2^53 *)
    assert (Hd2 : Zdigits2 m2 = 54) by (rewrite E53; reflexivity).
    rewrite Hd2 in E.
    assert (HF1 : fexp prec emax (54 + F) = F + 1).
    { rewrite fexp_eq. lia. }
    rewrite HF1 in E. replace (F + 1 - F) with 1 in E by lia.
    change (Z.max 1 0) with 1 in E.
    exists (2 ^ 52), (F + 1).
    split.
    { rewrite E. rewrite E53. change (2 ^ 53 / 2 ^ 1) with (2 ^ 52).
      reflexivity. }
    split; [lia|]. split.
    { intros _. change (Zdigits2 (2 ^ 52)) with 53. rewrite fexp_eq. lia. }
    split; [lia|].
    replace (F + 1 - ex) with (k1 + 1) by (unfold k1; lia).
    rewrite Z.pow_add_r by lia.
    replace (2 ^ 52 * (2 ^ k1 * 2 ^ 1)) with (m2 * 2 ^ k1)
      by (rewrite E53; change (2 ^ 53) with (2 ^ 52 * 2 ^ 1); ring).
    exact Hval.
  - assert (Hm2' : 0 <= m2 < 2 ^ 53) by lia.
    assert (Hd2 : Zdigits2 m2 <= 53) by (apply Zdigits2_le_of_lt; lia).
    assert (Hk2 : Z.max (fexp prec emax (Zdigits2 m2 + F) - F) 0 = 0).
    { rewrite fexp_eq. lia. }
    rewrite Hk2 in E. rewrite Z.div_1_r, Z.add_0_r in E.
    exists m2, F. split; [exact E|]. split; [lia|]. split.
    { intros Hne. rewrite fexp_eq.
      destruct (Z.eq_dec F (-1074)) as [EF | NF]; [lia|].
      assert (Ek1 : k1 = d - 53) by (unfold k1; lia).
      assert (2 ^ (d - 1 - k1) <= mx / 2 ^ k1).
      { apply div_pow2_lower; [lia | exact Hdl]. }
      replace (d - 1 - k1) with 52 in H by lia.
      assert (52 < Zdigits2 m2) by (apply Zdigits2_gt_of_le; lia).
      lia. }
    split; [lia|]. fold k1. exact Hval.
Qed.

(** A number is at least the power of two of its leading bit. *)
Lemma value_lower (mx ex : Z) :
  0 < mx -> (pow2 (Zdigits2 mx - 1 + ex) <= inject_Z mx * pow2 ex)%Q.
Proof.
  intros Hm. pose proof (Zdigits2_bounds mx Hm) as [Hl _].
  assert (Hd : 0 <= Zdigits2 mx - 1).
  { pose proof (Zdigits2_nonneg mx).
    destruct (Z.eq_dec (Zdigits2 mx) 0) as [E|]; [|lia].
    pose proof (Zdigits2_bounds mx Hm) as [_ Hu]. rewrite E in Hu.
    simpl in Hu. lia. }
  rewrite pow2_add. apply Qmult_le_compat_r; [|apply Qlt_le_weak, pow2_gt0].
  rewrite <- pow2_of_Z by exact Hd. rewrite <- Zle_Qle. exact Hl.
Qed.

(** The same in terms of values: the result is within [2^-52] of the exact
    value, relatively, up to [2^-1074]; it is an infinity only beyond
    [2^1023]. *)
Lemma round_aux_Q (s : bool) (mx ex : Z) :
  0 < mx -> ex <= fexp prec emax (Zdigits2 mx + ex) ->
  let x := (inject_Z mx * pow2 ex)%Q in
  let r := binary_round_aux prec emax s mx ex loc_Exact in
  exists M : Q,
    (0 <= M)%Q
    /\ (x - (x * pow2 (-52) + pow2 (-1074)) <= M)%Q
    /\ (M <= x + (x * pow2 (-52) + pow2 (-1074)))%Q
    /\ ((finite_valid r /\ F2Q r == (if s then - M else M))%Q
        \/ (r = S754_infinity s /\ (pow2 1023 <= x)%Q)).
Proof.
  intros Hm Hs x r.
  destruct (round_aux_Z s mx ex loc_Exact Hm Hs)
    as (m3 & e3 & E & H0 & Hcan & He3 & Hval).
  cbv zeta in He3, Hval.
  set (F := fexp prec emax (Zdigits2 mx + ex)) in *.
  assert (HF : F = Z.max (Zdigits2 mx + ex - 53) (-1074)) by reflexivity.
  pose proof (pow2_gt0 ex) as Pex.
  pose proof (pow2_gt0 (-52)) as P52.
  pose proof (pow2_gt0 (-1074)) as Pt.
  assert (Hx : (0 < x)%Q).
  { unfold x. apply Qmult_lt_0_compat; [|exact Pex].
    change 0%Q with (inject_Z 0). rewrite <- Zlt_Qlt. exact Hm. }
  assert (HpF : (pow2 F <= x * pow2 (-52) + pow2 (-1074))%Q).
  { destruct (Z.eq_dec F (-1074)) as [EF | NF].
    - rewrite EF.
      assert (0 <= x * pow2 (-52))%Q
        by (apply Qmult_le_0_compat; apply Qlt_le_weak; assumption).
      lra.
    - replace F with ((Zdigits2 mx - 1 + ex) + (-52)) by lia.
      rewrite pow2_add.
      pose proof (value_lower mx ex Hm) as Hl. fold x in Hl.
      assert (pow2 (Zdigits2 mx - 1 + ex) * pow2 (-52) <= x * pow2 (-52))%Q
        by (apply Qmult_le_compat_r; [exact Hl | apply Qlt_le_weak, P52]).
      lra. }
  set (M := (inject_Z m3 * pow2 e3)%Q).
  assert (HM : (M == inject_Z (m3 * 2 ^ (e3 - ex)) * pow2 ex)%Q).
  { unfold M. rewrite inject_Z_mult, pow2_of_Z by lia.
    rewrite (pow2_split e3 ex). ring. }
  assert (HFx : (pow2 F == inject_Z (2 ^ (F - ex)) * pow2 ex)%Q).
  { rewrite pow2_of_Z by lia. apply pow2_split. }
  assert (Hxe : (x == inject_Z mx * pow2 ex)%Q) by reflexivity.
  destruct Hval as [Hv1 Hv2].
  assert (HMl : (x - pow2 F <= M)%Q).
  { rewrite HM, HFx, Hxe.
    assert (inject_Z (mx - 2 ^ (F - ex)) <= inject_Z (m3 * 2 ^ (e3 - ex)))%Q
      by (rewrite <- Zle_Qle; exact Hv1).
    unfold Z.sub in H at 1. rewrite inject_Z_plus, inject_Z_opp in H.
    apply (Qmult_le_compat_r _ _ (pow2 ex)) in H;
      [|apply Qlt_le_weak, Pex].
    lra. }
  assert (HMu : (M <= x + pow2 F)%Q).
  { rewrite HM, HFx, Hxe.
    assert (inject_Z (m3 * 2 ^ (e3 - ex)) <= inject_Z (mx + 2 ^ (F - ex)))%Q
      by (rewrite <- Zle_Qle; exact Hv2).
    rewrite inject_Z_plus in H.
    apply (Qmult_le_compat_r _ _ (pow2 ex)) in H;
      [|apply Qlt_le_weak, Pex].
    lra. }
  assert (HM0 : (0 <= M)%Q).
  { unfold M. apply Qmult_le_0_compat; [|apply Qlt_le_weak, pow2_gt0].
    change 0%Q with (inject_Z 0). rewrite <- Zle_Qle. exact H0. }
  exists M. split; [exact HM0|]. split; [lra|]. split; [lra|].
  fold r in E. destruct m3 as [| m | m]; [| |lia].
  - left. rewrite E. split; [split; reflexivity|].
    unfold M. simpl F2Q. destruct s; ring.
  - destruct (Z.leb_spec e3 971) as [Hle | Hgt].
    + left. rewrite E. split.
      * split; [reflexivity|]. simpl. unfold bounded, canonical_mantissa.
        rewrite andb_true_iff. split.
        -- apply Z.eqb_eq. apply Hcan. discriminate.
        -- apply Z.leb_le. unfold emax, prec. lia.
      * unfold M, F2Q. destruct s; [|reflexivity].
        change (Z.neg m) with (- Z.pos m). rewrite inject_Z_opp. ring.
    + right. split; [exact E|].
      apply Qle_trans with (pow2 (Zdigits2 mx - 1 + ex));
        [apply pow2_le; lia | apply value_lower; exact Hm].
Qed.

Lemma rounded_round_aux (s : bool) (mx ex : Z) (q : Q) :
  0 < mx -> ex <= fexp prec emax (Zdigits2 mx + ex) ->
  (q == (if s then - (inject_Z mx * pow2 ex) else inject_Z mx * pow2 ex))%Q ->
  rounded q (binary_round_aux prec emax s mx ex loc_Exact).
Proof.
  intros Hm Hs Hq.
  destruct (round_aux_Q s mx ex Hm Hs) as (M & HM0 & HMl & HMu & H).
  set (x := (inject_Z mx * pow2 ex)%Q) in *.
  assert (Hx : (0 < x)%Q).
  { unfold x. apply Qmult_lt_0_compat; [|apply pow2_gt0].
    change 0%Q with (inject_Z 0). rewrite <- Zlt_Qlt. exact Hm. }
  assert (Ha : (Qabs q == x)%Q).
  { rewrite Hq. destruct s.
    - rewrite Qabs_opp. apply Qabs_pos. lra.
    - apply Qabs_pos. lra. }
  unfold rounded. rewrite Ha.
  destruct H as [[Hfv Hv] | [Hinf Hbig]].
  - left. split; [exact Hfv|]. rewrite Hv. destruct s; repeat split; lra.
  - right. destruct s; [right | left]; (split; [lra | exact Hinf]).
Qed.

(** [shl_align] keeps the value. *)
Lemma pos_iter_xO (m d : positive) :
  Z.pos (Pos.iter xO m d) = Z.pos m * 2 ^ Z.pos d.
Proof.
  induction d as [| d IH] using Pos.peano_ind.
  - cbn [Pos.iter]. lia.
  - rewrite Pos.iter_succ. rewrite Pos2Z.inj_succ, Z.pow_succ_r by lia.
    rewrite Pos2Z.inj_xO, IH. ring.
Qed.

Lemma shl_align_value (m : positive) (e e' : Z) :
  (inject_Z (Z.pos (fst (shl_align m e e'))) * pow2 (snd (shl_align m e e'))
   == inject_Z (Z.pos m) * pow2 e)%Q.
Proof.
  unfold shl_align. destruct (e' - e) as [| d | d] eqn:E; cbn [fst snd];
    try reflexivity.
  rewrite pos_iter_xO, inject_Z_mult, pow2_of_Z by lia.
  rewrite (pow2_split e e'). replace (e - e') with (Z.pos d) by lia. ring.
Qed.

Lemma shl_align_int (m : positive) (e e' : Z) :
  e' <= e ->
  Z.pos (fst (shl_align m e e')) = Z.pos m * 2 ^ (e - e')
  /\ snd (shl_align m e e') = e'.
Proof.
  intros H. unfold shl_align. destruct (e' - e) as [| d | d] eqn:E; cbn [fst snd].
  - replace (e - e') with 0 by lia. split; lia.
  - lia.
  - rewrite pos_iter_xO. replace (e - e') with (Z.pos d) by lia. split; lia.
Qed.

Lemma rounded_binary_round (s : bool) (m : positive) (e : Z) (q : Q) :
  (q == (if s then - (inject_Z (Z.pos m) * pow2 e)
         else inject_Z (Z.pos m) * pow2 e))%Q ->
  rounded q (binary_round prec emax s m e).
Proof.
  intros Hq. unfold binary_round.
  pose proof (shl_align_digits m e (fexp prec emax (Z.pos (digits2_pos m) + e)))
    as Hd.
  pose proof (shl_align_exp m e (fexp prec emax (Z.pos (digits2_pos m) + e)))
    as He.
  pose proof (shl_align_value m e (fexp prec emax (Z.pos (digits2_pos m) + e)))
    as Hv.
  destruct (shl_align m e (fexp prec emax (Z.pos (digits2_pos m) + e)))
    as [mz ez]. cbn [fst snd] in Hd, He, Hv.
  apply rounded_round_aux; [lia | |].
  - cbn [Zdigits2]. rewrite Hd. lia.
  - destruct s; rewrite Hv; exact Hq.
Qed.

Lemma rounded_binary_normalize (z e : Z) (q : Q) :
  z <> 0 -> (q == inject_Z z * pow2 e)%Q ->
  rounded q (binary_normalize prec emax z e false).
Proof.
  intros Hz Hq. destruct z as [| p | p]; [contradiction | |]; cbn [binary_normalize].
  - apply rounded_binary_round. exact Hq.
  - apply rounded_binary_round. rewrite Hq.
    change (Z.neg p) with (- Z.pos p). rewrite inject_Z_opp. ring.
Qed.

(** An exact result is a rounded one. *)
Lemma rounded_exact (q : Q) (r : float) :
  finite_valid r -> (F2Q r == q)%Q -> rounded q r.
Proof.
  intros Hfv Hq. left. split; [exact Hfv|].
  pose proof (pow2_gt0 (-52)). pose proof (pow2_gt0 (-1074)).
  pose proof (Qabs_nonneg q).
  assert (0 <= Qabs q * pow2 (-52))%Q by (apply Qmult_le_0_compat; lra).
  repeat split; lra.
Qed.

(** A canonical mantissa has at most 53 bits, and exactly 53 unless the
    exponent is the smallest one. *)
Lemma canonical_digits (m : positive) (e : Z) :
  canonical_mantissa prec emax m e = true ->
  Z.pos (digits2_pos m) <= 53 /\ -1074 <= e
  /\ (Z.pos (digits2_pos m) = 53 \/ e = -1074).
Proof.
  unfold canonical_mantissa. intros H. apply Z.eqb_eq in H.
  rewrite fexp_eq in H. lia.
Qed.

Lemma finite_valid_finite (s : bool) (m : positive) (e : Z) :
  finite_valid (S754_finite s m e) ->
  canonical_mantissa prec emax m e = true /\ e <= 971.
Proof.
  intros [_ H]. cbn in H. unfold bounded in H. apply andb_true_iff in H.
  destruct H as [H1 H2]. split; [exact H1|]. apply Z.leb_le in H2.
  unfold emax, prec in H2. lia.
Qed.

Lemma digits2_mul (a b : positive) :
  Z.pos (digits2_pos a) + Z.pos (digits2_pos b) - 1
  <= Z.pos (digits2_pos (a * b)).
Proof.
  pose proof (digits2_pos_bounds a) as [Ha _].
  pose proof (digits2_pos_bounds b) as [Hb _].
  pose proof (digits2_pos_bounds (a * b)) as [_ Hab].
  assert (2 ^ (Z.pos (digits2_pos a) - 1 + (Z.pos (digits2_pos b) - 1))
          < 2 ^ Z.pos (digits2_pos (a * b))).
  { rewrite Z.pow_add_r by lia. rewrite Pos2Z.inj_mul in Hab.
    assert (0 < 2 ^ (Z.pos (digits2_pos a) - 1)) by (apply Z.pow_pos_nonneg; lia).
    assert (0 < 2 ^ (Z.pos (digits2_pos b) - 1)) by (apply Z.pow_pos_nonneg; lia).
    nia. }
  apply pow2_lt_exp in H; lia.
Qed.

Lemma F2Q_finite (s : bool) (m : positive) (e : Z) :
  (F2Q (S754_finite s m e)
   == (if s then - (inject_Z (Z.pos m) * pow2 e) else inject_Z (Z.pos m) * pow2 e))%Q.
Proof.
  unfold F2Q. destruct s; [|reflexivity].
  change (Z.neg m) with (- Z.pos m). rewrite inject_Z_opp. ring.
Qed.

(** Products, sums and differences of finite floats are correctly rounded. *)
Lemma fmul_rounded (x y : float) :
  finite_valid x -> finite_valid y ->
  rounded (F2Q x * F2Q y) (fmul x y).
Proof.
  intros Hx Hy.
  destruct x as [sx | sx | | sx mx ex]; try (destruct Hx; discriminate);
  destruct y as [sy | sy | | sy my ey]; try (destruct Hy; discriminate);
    try (apply rounded_exact; [split; reflexivity | cbn [F2Q fmul SFmul]; ring]).
  apply finite_valid_finite in Hx as [Hcx _].
  apply finite_valid_finite in Hy as [Hcy _].
  apply canonical_digits in Hcx as (Hx1 & Hx2 & Hx3).
  apply canonical_digits in Hcy as (Hy1 & Hy2 & Hy3).
  unfold fmul, SFmul. apply rounded_round_aux; [lia | |].
  - cbn [Zdigits2]. rewrite fexp_eq. pose proof (digits2_mul mx my). lia.
  - destruct sx, sy; cbn [xorb];
      rewrite !F2Q_finite, Pos2Z.inj_mul, inject_Z_mult, pow2_add; ring.
Qed.

Lemma F2Q_cond (s : bool) (m : positive) (e ez : Z) :
  ez <= e ->
  (F2Q (S754_finite s m e)
   == inject_Z (cond_Zopp s (Z.pos (fst (shl_align m e ez)))) * pow2 ez)%Q.
Proof.
  intros H. destruct (shl_align_int m e ez H) as [E1 E2].
  pose proof (shl_align_value m e ez) as Hv. rewrite E2 in Hv.
  rewrite F2Q_finite. destruct s; cbn [cond_Zopp].
  - rewrite inject_Z_opp. rewrite <- Hv. ring.
  - rewrite <- Hv. reflexivity.
Qed.

Lemma fadd_rounded (x y : float) :
  finite_valid x -> finite_valid y ->
  rounded (F2Q x + F2Q y) (fadd x y).
Proof.
  intros Hx Hy.
  destruct x as [sx | sx | | sx mx ex]; try (destruct Hx; discriminate);
  destruct y as [sy | sy | | sy my ey]; try (destruct Hy; discriminate).
  - apply rounded_exact; [destruct sx, sy; split; reflexivity|].
    destruct sx, sy; cbn; ring.
  - apply rounded_exact; [exact Hy|]. cbn [fadd SFadd]. cbn [F2Q]. ring.
  - apply rounded_exact; [exact Hx|]. cbn [fadd SFadd]. cbn [F2Q]. ring.
  - unfold fadd, SFadd. cbv zeta.
    set (ez := Z.min ex ey).
    pose proof (F2Q_cond sx mx ex ez ltac:(lia)) as Ex.
    pose proof (F2Q_cond sy my ey ez ltac:(lia)) as Ey.
    set (a := cond_Zopp sx (Z.pos (fst (shl_align mx ex ez)))) in *.
    set (b := cond_Zopp sy (Z.pos (fst (shl_align my ey ez)))) in *.
    destruct (Z.eq_dec (a + b) 0) as [E0 | N0].
    + rewrite E0. cbn [binary_normalize]. apply rounded_exact;
        [split; reflexivity|].
      rewrite Ex, Ey. cbn [F2Q].
      assert (inject_Z (a + b) == 0)%Q by (rewrite E0; reflexivity).
      rewrite inject_Z_plus in H. nra.
    + apply rounded_binary_normalize; [exact N0|].
      rewrite Ex, Ey, inject_Z_plus. ring.
Qed.

Lemma fsub_rounded (x y : float) :
  finite_valid x -> finite_valid y ->
  rounded (F2Q x - F2Q y) (fsub x y).
Proof.
  intros Hx Hy.
  destruct x as [sx | sx | | sx mx ex]; try (destruct Hx; discriminate);
  destruct y as [sy | sy | | sy my ey]; try (destruct Hy; discriminate).
  - apply rounded_exact; [destruct sx, sy; split; reflexivity|].
    destruct sx, sy; cbn; ring.
  - apply rounded_exact.
    + destruct Hy as [_ Hy]. split; [reflexivity | exact Hy].
    + cbn [fsub SFsub]. rewrite !F2Q_finite. cbn [F2Q].
      destruct sy; cbn [negb]; ring.
  - apply rounded_exact; [exact Hx|]. cbn [fsub SFsub]. cbn [F2Q]. ring.
  - unfold fsub, SFsub. cbv zeta.
    set (ez := Z.min ex ey).
    pose proof (F2Q_cond sx mx ex ez ltac:(lia)) as Ex.
    pose proof (F2Q_cond sy my ey ez ltac:(lia)) as Ey.
    set (a := cond_Zopp sx (Z.pos (fst (shl_align mx ex ez)))) in *.
    set (b := cond_Zopp sy (Z.pos (fst (shl_align my ey ez)))) in *.
    destruct (Z.eq_dec (a - b) 0) as [E0 | N0].
    + rewrite E0. cbn [binary_normalize]. apply rounded_exact;
        [split; reflexivity|].
      rewrite Ex, Ey. cbn [F2Q].
      assert (inject_Z (a - b) == 0)%Q by (rewrite E0; reflexivity).
      unfold Z.sub in H. rewrite inject_Z_plus, inject_Z_opp in H. nra.
    + apply rounded_binary_normalize; [exact N0|].
      rewrite Ex, Ey. unfold Z.sub. rewrite inject_Z_plus, inject_Z_opp. ring.
Qed.

Lemma pow2_m52 : (pow2 (-52) == u52)%Q.
Proof. vm_compute. reflexivity. Qed.

Lemma pow2_tiny : (pow2 (-1074) <= u52)%Q.
Proof. rewrite <- pow2_m52. apply pow2_le. lia. Qed.

Lemma pow2_big : (1000000000000 < pow2 1023)%Q.
Proof.
  apply Qlt_le_trans with (pow2 40); [vm_compute; reflexivity|].
  apply pow2_le. lia.
Qed.

(** A result of magnitude at most [B] is finite, and within
    [(B + 1) * 2^-52] of the exact value. *)
Lemma rounded_small (q : Q) (r : float) (B : Q) :
  rounded q r -> (- B <= q)%Q -> (q <= B)%Q -> (B <= 1000000000000)%Q ->
  finite_valid r
  /\ (q - (B + 1) * u52 <= F2Q r)%Q /\ (F2Q r <= q + (B + 1) * u52)%Q.
Proof.
  intros H Hl Hu HB. pose proof pow2_big as Hbig.
  destruct H as [(Hfv & H1 & H2 & _) | [[H _] | [H _]]]; [|lra|lra].
  split; [exact Hfv|].
  assert (Ha : (Qabs q <= B)%Q) by (apply Qabs_Qle_condition; split; lra).
  pose proof (Qabs_nonneg q) as Ha0.
  pose proof pow2_tiny as Ht. pose proof pow2_m52 as Hu52.
  assert (Qabs q * pow2 (-52) <= B * u52)%Q.
  { rewrite Hu52. apply Qmult_le_compat_r; [exact Ha|]. discriminate. }
  split; lra.
Qed.

(** A result beyond 1 keeps at least 99% of its value, or is an infinity
    of the same sign. *)
Lemma rounded_pos (q : Q) (r : float) :
  rounded q r -> (1 <= q)%Q ->
  r = S754_infinity false \/ (finite_valid r /\ (q * (99 # 100) <= F2Q r)%Q).
Proof.
  intros H Hq. pose proof (pow2_gt0 1023).
  destruct H as [(Hfv & H1 & _) | [[_ H] | [H _]]]; [|left; exact H|lra].
  right. split; [exact Hfv|].
  pose proof pow2_tiny as Ht. pose proof pow2_m52 as Hu52.
  rewrite Qabs_pos in H1 by lra. rewrite Hu52 in H1. unfold u52 in *. lra.
Qed.

Lemma rounded_neg (q : Q) (r : float) :
  rounded q r -> (q <= - 1)%Q ->
  r = S754_infinity true \/ (finite_valid r /\ (F2Q r <= q * (99 # 100))%Q).
Proof.
  intros H Hq. pose proof (pow2_gt0 1023).
  destruct H as [(Hfv & _ & H2 & _) | [[H _] | [_ H]]]; [|lra|left; exact H].
  right. split; [exact Hfv|].
  pose proof pow2_tiny as Ht. pose proof pow2_m52 as Hu52.
  rewrite Qabs_neg in H2 by lra. rewrite Hu52 in H2. unfold u52 in *. lra.
Qed.

(** Comparison of canonical floats is comparison of their values. *)
Lemma mag_pos (m : positive) (e : Z) : (0 < inject_Z (Z.pos m) * pow2 e)%Q.
Proof.
  apply Qmult_lt_0_compat; [|apply pow2_gt0]. reflexivity.
Qed.

Lemma mag_lt_of_exp (m1 m2 : positive) (e1 e2 : Z) :
  canonical_mantissa prec emax m1 e1 = true ->
  canonical_mantissa prec emax m2 e2 = true ->
  e1 < e2 ->
  (inject_Z (Z.pos m1) * pow2 e1 < inject_Z (Z.pos m2) * pow2 e2)%Q.
Proof.
  intros H1 H2 Hlt.
  apply canonical_digits in H1 as (Ha & Hb & _).
  apply canonical_digits in H2 as (Hc & Hd & [He | He]); [|lia].
  pose proof (digits2_pos_bounds m1) as [_ Hu].
  pose proof (digits2_pos_bounds m2) as [Hl _]. rewrite He in Hl.
  assert (Z.pos m1 < 2 ^ 53).
  { apply Z.lt_le_trans with (2 ^ Z.pos (digits2_pos m1)); [exact Hu|].
    apply Z.pow_le_mono_r; lia. }
  rewrite (pow2_split e2 e1). rewrite <- (pow2_of_Z (e2 - e1)) by lia.
  assert (2 ^ 1 <= 2 ^ (e2 - e1)) by (apply Z.pow_le_mono_r; lia).
  assert (Hz : Z.pos m1 < Z.pos m2 * 2 ^ (e2 - e1)).
  { change (53 - 1) with 52 in Hl. change (2 ^ 1) with 2 in H0.
    change (2 ^ 53) with (2 ^ 52 * 2) in H. nia. }
  rewrite Qmult_assoc. apply Qmult_lt_compat_r; [apply pow2_gt0|].
  rewrite <- inject_Z_mult. rewrite <- Zlt_Qlt. exact Hz.
Qed.

Lemma mag_compare (m1 m2 : positive) (e1 e2 : Z) :
  canonical_mantissa prec emax m1 e1 = true ->
  canonical_mantissa prec emax m2 e2 = true ->
  let c := match e1 ?= e2 with
           | Lt => Lt | Gt => Gt | Eq => Pos.compare_cont Eq m1 m2
           end in
  let v1 := (inject_Z (Z.pos m1) * pow2 e1)%Q in
  let v2 := (inject_Z (Z.pos m2) * pow2 e2)%Q in
  (c = Lt /\ (v1 < v2)%Q) \/ (c = Eq /\ (v1 == v2)%Q) \/ (c = Gt /\ (v2 < v1)%Q).
Proof.
  intros H1 H2 c v1 v2. unfold c.
  destruct (Z.compare_spec e1 e2) as [E | L | G].
  - subst e2. change (Pos.compare_cont Eq m1 m2) with (Pos.compare m1 m2).
    destruct (Pos.compare_spec m1 m2) as [E | L | G].
    + right. left. split; [reflexivity|]. subst. reflexivity.
    + left. split; [reflexivity|]. unfold v1, v2.
      apply Qmult_lt_compat_r; [apply pow2_gt0|]. rewrite <- Zlt_Qlt. lia.
    + right. right. split; [reflexivity|]. unfold v1, v2.
      apply Qmult_lt_compat_r; [apply pow2_gt0|]. rewrite <- Zlt_Qlt. lia.
  - left. split; [reflexivity|]. apply mag_lt_of_exp; assumption.
  - right. right. split; [reflexivity|]. apply mag_lt_of_exp; assumption || lia.
Qed.

Lemma compare_value (x y : float) :
  finite_valid x -> finite_valid y ->
  (SFcompare x y = Some Lt /\ (F2Q x < F2Q y)%Q)
  \/ (SFcompare x y = Some Eq /\ (F2Q x == F2Q y)%Q)
  \/ (SFcompare x y = Some Gt /\ (F2Q y < F2Q x)%Q).
Proof.
  intros Hx Hy.
  destruct x as [sx | sx | | sx mx ex]; try (destruct Hx; discriminate);
  destruct y as [sy | sy | | sy my ey]; try (destruct Hy; discriminate).
  - right. left. split; reflexivity.
  - pose proof (mag_pos my ey). rewrite F2Q_finite. cbn [SFcompare F2Q].
    destruct sy; [right; right | left]; (split; [reflexivity | lra]).
  - pose proof (mag_pos mx ex). rewrite F2Q_finite. cbn [SFcompare F2Q].
    destruct sx; [left | right; right]; (split; [reflexivity | lra]).
  - apply finite_valid_finite in Hx as [Hcx _].
    apply finite_valid_finite in Hy as [Hcy _].
    pose proof (mag_pos mx ex). pose proof (mag_pos my ey).
    pose proof (mag_compare mx my ex ey Hcx Hcy) as Hc. cbv zeta in Hc.
    rewrite !F2Q_finite. cbn [SFcompare].
    destruct sx, sy.
    + replace (match ex ?= ey with
               | Eq => CompOpp (Pos.compare_cont Eq mx my)
               | Lt => Gt
               | Gt => Lt
               end)
        with (CompOpp match ex ?= ey with
                      | Eq => Pos.compare_cont Eq mx my
                      | Lt => Lt
                      | Gt => Gt
                      end) by (destruct (ex ?= ey); reflexivity).
      destruct Hc as [[-> Hc] | [[-> Hc] | [-> Hc]]]; cbn [CompOpp].
      * right. right. split; [reflexivity | lra].
      * right. left. split; [reflexivity | lra].
      * left. split; [reflexivity | lra].
    + left. split; [reflexivity | lra].
    + right. right. split; [reflexivity | lra].
    + destruct Hc as [[-> Hc] | [[-> Hc] | [-> Hc]]].
      * left. split; [reflexivity | lra].
      * right. left. split; [reflexivity | lra].
      * right. right. split; [reflexivity | lra].
Qed.

Lemma fle_iff (x y : float) :
  finite_valid x -> finite_valid y ->
  (fle x y = true <-> (F2Q x <= F2Q y)%Q).
Proof.
  intros Hx Hy. unfold fle, SFleb.
  destruct (compare_value x y Hx Hy) as [[-> H] | [[-> H] | [-> H]]];
    split; intros; try reflexivity; try lra; try discriminate.
Qed.

Lemma flt_iff (x y : float) :
  finite_valid x -> finite_valid y ->
  (flt x y = true <-> (F2Q x < F2Q y)%Q).
Proof.
  intros Hx Hy. unfold flt, SFltb.
  destruct (compare_value x y Hx Hy) as [[-> H] | [[-> H] | [-> H]]];
    split; intros; try reflexivity; try lra; try discriminate.
Qed.

Lemma fle_false (x y : float) :
  finite_valid x -> finite_valid y -> (F2Q y < F2Q x)%Q -> fle x y = false.
Proof.
  intros Hx Hy H. destruct (fle x y) eqn:E; [|reflexivity].
  apply fle_iff in E; [lra | assumption | assumption].
Qed.

Lemma flt_false (x y : float) :
  finite_valid x -> finite_valid y -> (F2Q y <= F2Q x)%Q -> flt x y = false.
Proof.
  intros Hx Hy H. destruct (flt x y) eqn:E; [|reflexivity].
  apply flt_iff in E; [lra | assumption | assumption].
Qed.

Section ErrorAnalysis.
Local Open Scope Q_scope.

(** With no loss the MOS is the MOS of [rating]. *)
Lemma emodel_mos_no_loss (d : float) (codec : string) :
  mos_value (emodel_mos d f0 codec f1)
  = Some (mos_of_R (rating (py_max f0 d) (fst (codec_profile codec)))).
Proof.
  unfold emodel_mos, codec_profile, rating, delay_term.
  destruct (dict_get CODEC_PARAMS _ _) as [Ie Bpl].
  change (py_max f0 f0) with f0. change (flt f0 f0) with false.
  reflexivity.
Qed.

(** The literals are finite floats, with the values [q24], ... *)
Lemma fv_consts :
  finite_valid (dec 24 1000) /\ finite_valid (dec 11 100)
  /\ finite_valid (dec 1773 10) /\ finite_valid (dec 942 10)
  /\ finite_valid (dec 35 1000) /\ finite_valid (dec 7 1000000)
  /\ finite_valid (dec 45 10) /\ finite_valid (of_Z 60)
  /\ finite_valid (of_Z 100) /\ finite_valid f1 /\ finite_valid f0
  /\ finite_valid (of_Z 0) /\ finite_valid (of_Z 11) /\ finite_valid (of_Z 5).
Proof. unfold finite_valid. vm_compute. tauto. Qed.

Lemma val_24 : F2Q (dec 24 1000) = q24.
Proof. vm_compute. reflexivity. Qed.
Lemma val_11 : F2Q (dec 11 100) = q11.
Proof. vm_compute. reflexivity. Qed.
Lemma val_1773 : F2Q (dec 1773 10) = q1773.
Proof. vm_compute. reflexivity. Qed.
Lemma val_942 : F2Q (dec 942 10) = q942.
Proof. vm_compute. reflexivity. Qed.
Lemma val_35 : F2Q (dec 35 1000) = q35.
Proof. vm_compute. reflexivity. Qed.
Lemma val_7 : F2Q (dec 7 1000000) = q7.
Proof. vm_compute. reflexivity. Qed.
Lemma val_45 : F2Q (dec 45 10) = q45.
Proof. vm_compute. reflexivity. Qed.
Lemma val_60 : F2Q (of_Z 60) = q60.
Proof. vm_compute. reflexivity. Qed.
Lemma val_100 : F2Q (of_Z 100) = q100.
Proof. vm_compute. reflexivity. Qed.
Lemma val_1 : F2Q f1 = q1.
Proof. vm_compute. reflexivity. Qed.

Lemma flt_f0_pos (x : float) :
  finite_valid x -> (flt f0 x = true <-> 0 < F2Q x).
Proof.
  intros Hx. apply (flt_iff f0 x); [split; reflexivity | exact Hx].
Qed.

Lemma flt_f0_cases (x : float) :
  finite_valid x ->
  (flt f0 x = true /\ 0 < F2Q x) \/ (flt f0 x = false /\ F2Q x <= 0).
Proof.
  intros Hx. destruct (flt f0 x) eqn:E.
  - left. split; [reflexivity|]. apply flt_f0_pos; assumption.
  - right. split; [reflexivity|].
    destruct (Qlt_le_dec 0 (F2Q x)) as [H | H]; [|exact H].
    apply flt_f0_pos in H; [congruence | exact Hx].
Qed.

Ltac qlra := unfold u52 in *; lra.

Ltac small H bound :=
  apply rounded_small with (B := bound) in H;
  [ destruct H as (? & ? & ?) | qlra | qlra | qlra ].

(** For a delay up to 1024 ms the rating is within [eta] of the exact
    [94.2 - Id - Ie]. *)
Lemma rating_small (d Ie : float) (IeQ : Q) :
  finite_valid d -> 0 <= F2Q d -> F2Q d <= 1024 ->
  finite_valid Ie -> F2Q Ie == IeQ -> 0 <= IeQ -> IeQ <= 11 ->
  finite_valid (rating d Ie)
  /\ - eta <= F2Q (rating d Ie)
              - ((942 # 10) - Exact.delay_impairment (F2Q d) - IeQ)
  /\ F2Q (rating d Ie)
       - ((942 # 10) - Exact.delay_impairment (F2Q d) - IeQ) <= eta.
Proof.
  intros Hd Hd0 Hd1 HIe HIeQ HI0 HI1.
  destruct fv_consts as (F24 & F11 & F1773 & F942 & _ & _ & _ & _ & _ & Ff1 & _).
  unfold rating, delay_term.
  set (dv := F2Q d) in *.
  (* 0.024*d *)
  pose proof (fmul_rounded _ _ F24 Hd) as HA. fold dv in HA.
  rewrite val_24 in HA. unfold q24 in HA. small HA 25.
  set (A := fmul (dec 24 1000) d) in *.
  (* d - 177.3 *)
  pose proof (fsub_rounded _ _ Hd F1773) as Hx. fold dv in Hx.
  rewrite val_1773 in Hx. unfold q1773 in Hx. small Hx 1024.
  set (x := fsub d (dec 1773 10)) in *.
  (* 0.11*(d - 177.3) *)
  pose proof (fmul_rounded _ x F11 ltac:(assumption)) as Ht.
  rewrite val_11 in Ht. unfold q11 in Ht. unfold u52 in *. small Ht 120.
  set (t := fmul (dec 11 100) x) in *.
  (* ... * hstep(d - 177.3) *)
  assert (HB : exists B, fmul t (hstep x) = B /\ finite_valid B
                 /\ ((0 < F2Q x /\ - (122 # 1) * u52 <= F2Q B - F2Q t <= 122 * u52)
                     \/ (F2Q x <= 0 /\ - u52 <= F2Q B <= u52))).
  { eexists. split; [reflexivity|]. unfold hstep.
    destruct (flt_f0_cases x ltac:(assumption)) as [[-> Hp] | [-> Hp]].
    - pose proof (fmul_rounded t f1 ltac:(assumption) Ff1) as HB.
      rewrite val_1 in HB. unfold q1 in HB. unfold u52 in *. small HB 121.
      split; [assumption|]. left. unfold u52. split; [exact Hp|]. qlra.
    - pose proof (fmul_rounded t f0 ltac:(assumption) ltac:(split; reflexivity))
        as HB.
      change (F2Q f0) with 0 in HB. small HB 0.
      split; [assumption|]. right. unfold u52. split; [exact Hp|]. qlra. }
  destruct HB as (B & -> & FB & HB).
  (* Id *)
  pose proof (fadd_rounded A B ltac:(assumption) FB) as HId.
  unfold u52 in *.
  assert (HBb : - 125 <= F2Q B <= 125) by (destruct HB as [[_ HB] | [_ HB]]; qlra).
  small HId 150.
  set (Id := fadd A B) in *.
  (* 94.2 - Id *)
  pose proof (fsub_rounded _ Id F942 ltac:(assumption)) as HR0.
  rewrite val_942 in HR0. unfold q942 in HR0. unfold u52 in *. small HR0 250.
  set (R0 := fsub (dec 942 10) Id) in *.
  (* - Ie *)
  pose proof (fsub_rounded R0 Ie ltac:(assumption) HIe) as HR.
  unfold u52 in *. small HR 270.
  split; [assumption|].
  unfold Exact.delay_impairment, Exact.hstep, eta. unfold u52 in *.
  destruct (ExactFacts.qlt_spec 0 (dv - (1773 # 10)));
    destruct HB as [[Hp HB] | [Hp HB]]; split; lra.
Qed.

(** Bounds on a product, and on the error of a product of two
    approximations. *)
Lemma mul_bound (x y BX BY : Q) :
  - BX <= x -> x <= BX -> - BY <= y -> y <= BY ->
  - (BX * BY) <= x * y /\ x * y <= BX * BY.
Proof. intros. split; nra. Qed.

Lemma mul_err (x y X Y ex ey BX By : Q) :
  X - ex <= x -> x <= X + ex -> Y - ey <= y -> y <= Y + ey ->
  - BX <= X -> X <= BX -> - By <= y -> y <= By ->
  X * Y - (By * ex + BX * ey) <= x * y
  /\ x * y <= X * Y + (By * ex + BX * ey).
Proof.
  intros.
  assert (E : x * y == X * Y + (y * (x - X) + X * (y - Y))) by ring.
  destruct (mul_bound y (x - X) By ex) as [A1 A2]; [lra | lra | lra | lra |].
  destruct (mul_bound X (y - Y) BX ey) as [B1 B2]; [lra | lra | lra | lra |].
  split; lra.
Qed.

(** For a rating between 0 and 95 the cubic is within [delta_c] of the
    exact polynomial. *)
Lemma cubic_small (R : float) :
  finite_valid R -> 0 <= F2Q R -> F2Q R <= 95 ->
  finite_valid (cubic_mos R)
  /\ - delta_c <= F2Q (cubic_mos R) - Exact.cubic (F2Q R)
  /\ F2Q (cubic_mos R) - Exact.cubic (F2Q R) <= delta_c.
Proof.
  intros HR Hr0 Hr95.
  destruct fv_consts as (_ & _ & _ & _ & F35 & F7 & _ & F60 & F100 & Ff1 & _).
  unfold cubic_mos. set (r := F2Q R) in *.
  (* 0.035*R *)
  pose proof (fmul_rounded _ _ F35 HR) as Hw1. fold r in Hw1.
  rewrite val_35 in Hw1. unfold q35 in Hw1. small Hw1 4.
  set (w1 := fmul (dec 35 1000) R) in *.
  (* 1 + 0.035*R *)
  pose proof (fadd_rounded _ w1 Ff1 ltac:(assumption)) as Hw2.
  rewrite val_1 in Hw2. unfold q1 in Hw2. small Hw2 6.
  set (w2 := fadd f1 w1) in *.
  (* R - 60 *)
  pose proof (fsub_rounded _ _ HR F60) as Hw3. fold r in Hw3.
  rewrite val_60 in Hw3. unfold q60 in Hw3. small Hw3 60.
  set (w3 := fsub R (of_Z 60)) in *.
  (* R*(R-60) *)
  pose proof (fmul_rounded _ w3 HR ltac:(assumption)) as Hw4. fold r in Hw4.
  destruct (mul_bound r (F2Q w3) 95 61 ltac:(qlra) ltac:(qlra) ltac:(qlra) ltac:(qlra)) as [M4a M4b].
  small Hw4 5800.
  set (w4 := fmul R w3) in *.
  destruct (mul_err r (F2Q w3) r (r - 60) 0 (61 * u52) 95 61 ltac:(qlra) ltac:(qlra) ltac:(qlra) ltac:(qlra) ltac:(qlra) ltac:(qlra) ltac:(qlra) ltac:(qlra)) as [E4a E4b].
  (* 100 - R *)
  pose proof (fsub_rounded _ _ F100 HR) as Hw5. fold r in Hw5.
  rewrite val_100 in Hw5. unfold q100 in Hw5. small Hw5 100.
  set (w5 := fsub (of_Z 100) R) in *.
  (* (R*(R-60))*(100-R) *)
  pose proof (fmul_rounded w4 w5 ltac:(assumption) ltac:(assumption)) as Hw6.
  destruct (mul_bound (F2Q w4) (F2Q w5) 5801 101 ltac:(qlra) ltac:(qlra) ltac:(qlra) ltac:(qlra)) as [M6a M6b].
  small Hw6 600000.
  set (w6 := fmul w4 w5) in *.
  destruct (mul_bound r (r - 60) 95 60 ltac:(qlra) ltac:(qlra) ltac:(qlra) ltac:(qlra)) as [P4a P4b].
  destruct (mul_err (F2Q w4) (F2Q w5) (r * (r - 60)) (100 - r)
              (12000 * u52) (101 * u52) 5700 101 ltac:(qlra) ltac:(qlra) ltac:(qlra) ltac:(qlra) ltac:(qlra) ltac:(qlra) ltac:(qlra) ltac:(qlra)) as [E6a E6b].
  destruct (mul_bound (r * (r - 60)) (100 - r) 5700 100 ltac:(qlra) ltac:(qlra) ltac:(qlra) ltac:(qlra)) as [P6a P6b].
  (* ... * 7e-6 *)
  pose proof (fmul_rounded w6 _ ltac:(assumption) F7) as Hw7.
  rewrite val_7 in Hw7. unfold q7 in Hw7. small Hw7 5.
  set (w7 := fmul w6 (dec 7 1000000)) in *.
  (* sum *)
  pose proof (fadd_rounded w2 w7 ltac:(assumption) ltac:(assumption)) as Hw8.
  small Hw8 12.
  split; [assumption|].
  unfold Exact.cubic, delta_c. split; qlra.
Qed.

Lemma flt_cases (x y : float) :
  finite_valid x -> finite_valid y ->
  (flt x y = true /\ F2Q x < F2Q y) \/ (flt x y = false /\ F2Q y <= F2Q x).
Proof.
  intros Hx Hy. destruct (flt x y) eqn:E.
  - left. split; [reflexivity|]. apply flt_iff; assumption.
  - right. split; [reflexivity|].
    destruct (Qlt_le_dec (F2Q x) (F2Q y)) as [H | H]; [|exact H].
    apply flt_iff in H; [congruence | assumption | assumption].
Qed.

Lemma fle_cases (x y : float) :
  finite_valid x -> finite_valid y ->
  (fle x y = true /\ F2Q x <= F2Q y) \/ (fle x y = false /\ F2Q y < F2Q x).
Proof.
  intros Hx Hy. destruct (fle x y) eqn:E.
  - left. split; [reflexivity|]. apply fle_iff; assumption.
  - right. split; [reflexivity|].
    destruct (Qlt_le_dec (F2Q y) (F2Q x)) as [H | H]; [exact H|].
    apply fle_iff in H; [congruence | assumption | assumption].
Qed.

(** The MOS of a rating up to 95 is within [delta_c] of the exact MOS
    of the same rating. *)
Lemma mos_of_R_small (R : float) :
  finite_valid R -> F2Q R <= 95 ->
  finite_valid (mos_of_R R)
  /\ - delta_c <= F2Q (mos_of_R R) - Exact.mos_of_R (F2Q R)
  /\ F2Q (mos_of_R R) - Exact.mos_of_R (F2Q R) <= delta_c.
Proof.
  intros HR H95.
  destruct fv_consts as (_ & _ & _ & _ & _ & _ & F45 & _ & F100 & Ff1 & Ff0 & _).
  unfold mos_of_R, Exact.mos_of_R.
  destruct (fle_cases R f0 HR Ff0) as [[-> H0] | [-> H0]];
    change (F2Q f0) with 0 in H0.
  - destruct (ExactFacts.qle_spec (F2Q R) 0); [|lra].
    split; [exact Ff1|]. rewrite val_1. unfold q1, delta_c. split; lra.
  - destruct (fle_cases (of_Z 100) R F100 HR) as [[_ H1] | [-> H1]];
      rewrite val_100 in H1; unfold q100 in H1; [lra|].
    destruct (ExactFacts.qle_spec (F2Q R) 0); [lra|].
    destruct (ExactFacts.qle_spec 100 (F2Q R)); [lra|].
    cbv zeta.
    destruct (cubic_small R HR ltac:(lra) H95) as (Fc & Hc1 & Hc2).
    set (c := cubic_mos R) in *. set (cq := Exact.cubic (F2Q R)) in *.
    unfold py_max, py_min, Exact.clamp, Exact.py_max, Exact.py_min.
    destruct (flt_cases c (dec 45 10) Fc F45) as [[-> Ha] | [-> Ha]];
      rewrite val_45 in Ha; unfold q45 in Ha.
    + destruct (flt_cases f1 c Ff1 Fc) as [[-> Hb] | [-> Hb]];
        rewrite val_1 in Hb; unfold q1 in Hb.
      * split; [exact Fc|]. unfold delta_c in *.
        destruct (ExactFacts.qlt_spec cq (45 # 10));
          ExactFacts.case_qlt; split; lra.
      * split; [exact Ff1|]. rewrite val_1. unfold q1, delta_c in *.
        destruct (ExactFacts.qlt_spec cq (45 # 10));
          ExactFacts.case_qlt; split; lra.
    + destruct (flt_cases f1 (dec 45 10) Ff1 F45) as [[-> Hb] | [-> Hb]];
        rewrite val_1, val_45 in Hb; unfold q1, q45 in Hb; [|lra].
      split; [exact F45|]. rewrite val_45. unfold q45, delta_c in *.
      destruct (ExactFacts.qlt_spec cq (45 # 10));
        ExactFacts.case_qlt; split; lra.
Qed.

(** The exact MOS grows by at most 0.06 per unit of rating. *)
Lemma clamp_step (x y e : Q) :
  0 <= e -> y <= x + e -> Exact.clamp y <= Exact.clamp x + e.
Proof.
  intros He H. unfold Exact.clamp, Exact.py_max, Exact.py_min.
  destruct (ExactFacts.qlt_spec x (45 # 10));
    destruct (ExactFacts.qlt_spec y (45 # 10)); ExactFacts.case_qlt; lra.
Qed.

Lemma sq_nonneg (x : Q) : 0 <= x * x.
Proof.
  destruct (Qlt_le_dec x 0) as [H | H].
  - assert (E : x * x == (- x) * (- x)) by ring. rewrite E.
    apply Qmult_le_0_compat; lra.
  - apply Qmult_le_0_compat; lra.
Qed.

Lemma cubic_slope (a e : Q) :
  0 <= e -> Exact.cubic (a + e) <= Exact.cubic a + (6 # 100) * e.
Proof.
  intros He. unfold Exact.cubic.
  set (b := a + e).
  assert (E : 1 + (35 # 1000) * b + b * (b - 60) * (100 - b) * (7 # 1000000)
              == 1 + (35 # 1000) * a + a * (a - 60) * (100 - a) * (7 # 1000000)
                 + (6 # 100) * e
                 - (7 # 1000000) * e
                   * ((3 # 4) * ((a + b - (320 # 3)) * (a + b - (320 # 3)))
                      + (1 # 4) * ((a - b) * (a - b))
                      + (21800 # 21))).
  { unfold b. ring. }
  rewrite E.
  pose proof (sq_nonneg (a + b - (320 # 3))).
  pose proof (sq_nonneg (a - b)).
  assert (0 <= e * ((3 # 4) * ((a + b - (320 # 3)) * (a + b - (320 # 3)))
                    + (1 # 4) * ((a - b) * (a - b)) + (21800 # 21)))
    by (apply Qmult_le_0_compat; lra).
  lra.
Qed.

Lemma mos_of_R_lipschitz (R e : Q) :
  0 <= e -> R + e <= 95 ->
  Exact.mos_of_R (R + e) <= Exact.mos_of_R R + (6 # 100) * e.
Proof.
  intros He H95. unfold Exact.mos_of_R.
  destruct (ExactFacts.qle_spec (R + e) 0).
  - destruct (ExactFacts.qle_spec R 0); [lra|lra].
  - destruct (ExactFacts.qle_spec 100 (R + e)); [lra|].
    destruct (ExactFacts.qle_spec R 0).
    + (* the rating crosses 0 *)
      assert (Hc : Exact.cubic (R + e) <= 1 + (6 # 100) * e).
      { pose proof (cubic_slope 0 (R + e) ltac:(lra)) as Hs.
        assert (E0 : Exact.cubic 0 == 1) by (unfold Exact.cubic; ring).
        assert (E1 : 0 + (R + e) == R + e) by ring.
        unfold Exact.cubic in *. lra. }
      pose proof (clamp_step 1 (Exact.cubic (R + e)) ((6 # 100) * e)
                    ltac:(lra) ltac:(lra)) as Hk.
      assert (Exact.clamp 1 == 1) by (apply ExactFacts.clamp_low; lra).
      lra.
    + destruct (ExactFacts.qle_spec 100 R); [lra|].
      apply clamp_step; [lra|]. apply cubic_slope. exact He.
Qed.

(** From 1024 ms on every step of the rating is away from 0 or infinite,
    and the rating is negative or [-inf]. *)
Lemma finite_valid_shape (x : float) :
  finite_valid x ->
  (exists s, x = S754_zero s) \/ (exists s m e, x = S754_finite s m e).
Proof.
  intros [H _]. destruct x; try discriminate; eauto.
Qed.

Lemma fsub_large (d : float) :
  finite_valid d -> 1024 <= F2Q d ->
  at_least 830 (fsub d (dec 1773 10)).
Proof.
  intros Hd Hv.
  destruct fv_consts as (_ & _ & F1773 & _).
  pose proof (fsub_rounded _ _ Hd F1773) as H.
  rewrite val_1773 in H. unfold q1773 in H.
  apply rounded_pos in H; [|lra].
  destruct H as [H | [H1 H2]]; [left; exact H | right].
  split; [exact H1 | lra].
Qed.

Lemma hstep_large (x : float) : at_least 830 x -> hstep x = f1.
Proof.
  intros [-> | [H1 H2]]; [reflexivity|].
  unfold hstep. rewrite (proj2 (flt_f0_pos x H1)) by lra. reflexivity.
Qed.

Lemma fmul_11_large (x : float) :
  at_least 830 x -> at_least 90 (fmul (dec 11 100) x).
Proof.
  destruct fv_consts as (_ & F11 & _).
  intros [-> | [H1 H2]]; [left; reflexivity|].
  pose proof (fmul_rounded _ _ F11 H1) as H.
  rewrite val_11 in H. unfold q11 in H.
  apply rounded_pos in H; [|lra].
  destruct H as [H | [Ha Hb]]; [left; exact H | right].
  split; [exact Ha | lra].
Qed.

Lemma fmul_1_large (t : float) :
  at_least 90 t -> at_least 89 (fmul t f1).
Proof.
  destruct fv_consts as (_ & _ & _ & _ & _ & _ & _ & _ & _ & Ff1 & _).
  intros [-> | [H1 H2]]; [left; reflexivity|].
  pose proof (fmul_rounded _ _ H1 Ff1) as H.
  rewrite val_1 in H. unfold q1 in H.
  apply rounded_pos in H; [|lra].
  destruct H as [H | [Ha Hb]]; [left; exact H | right].
  split; [exact Ha | lra].
Qed.

Lemma fmul_24_large (d : float) :
  finite_valid d -> 1024 <= F2Q d ->
  at_least 24 (fmul (dec 24 1000) d).
Proof.
  intros Hd Hv.
  destruct fv_consts as (F24 & _).
  pose proof (fmul_rounded _ _ F24 Hd) as H.
  rewrite val_24 in H. unfold q24 in H.
  apply rounded_pos in H; [|lra].
  destruct H as [H | [Ha Hb]]; [left; exact H | right].
  split; [exact Ha | lra].
Qed.

Lemma fadd_large (A B : float) :
  at_least 24 A -> at_least 89 B -> at_least 111 (fadd A B).
Proof.
  intros [-> | [A1 A2]] [-> | [B1 B2]].
  - left. reflexivity.
  - left. destruct (finite_valid_shape B B1) as [[s ->] | (s & m & e & ->)];
      reflexivity.
  - left. destruct (finite_valid_shape A A1) as [[s ->] | (s & m & e & ->)];
      reflexivity.
  - pose proof (fadd_rounded _ _ A1 B1) as H.
    apply rounded_pos in H; [|lra].
    destruct H as [H | [Ha Hb]]; [left; exact H | right].
    split; [exact Ha | lra].
Qed.

Lemma fsub_942_large (Id : float) :
  at_least 111 Id -> at_most (-16) (fsub (dec 942 10) Id).
Proof.
  destruct fv_consts as (_ & _ & _ & F942 & _).
  intros [-> | [H1 H2]]; [left; reflexivity|].
  pose proof (fsub_rounded _ _ F942 H1) as H.
  rewrite val_942 in H. unfold q942 in H.
  apply rounded_neg in H; [|lra].
  destruct H as [H | [Ha Hb]]; [left; exact H | right].
  split; [exact Ha | lra].
Qed.

Lemma fsub_Ie_large (R0 Ie : float) :
  at_most (-16) R0 -> finite_valid Ie -> 0 <= F2Q Ie ->
  at_most (-15) (fsub R0 Ie).
Proof.
  intros [-> | [H1 H2]] HIe Hv.
  - left. destruct (finite_valid_shape Ie HIe) as [[s ->] | (s & m & e & ->)];
      reflexivity.
  - pose proof (fsub_rounded _ _ H1 HIe) as H.
    apply rounded_neg in H; [|lra].
    destruct H as [H | [Ha Hb]]; [left; exact H | right].
    split; [exact Ha | lra].
Qed.

Lemma at_most_fle (R : float) : at_most (-15) R -> fle R f0 = true.
Proof.
  intros [-> | [H1 H2]]; [reflexivity|].
  apply fle_iff; [exact H1 | split; reflexivity |].
  change (F2Q f0) with 0. lra.
Qed.

Lemma rating_large (d Ie : float) :
  finite_valid d -> 1024 <= F2Q d -> finite_valid Ie -> 0 <= F2Q Ie ->
  mos_of_R (rating d Ie) = f1.
Proof.
  intros Hd Hv HIe HI.
  assert (H : fle (rating d Ie) f0 = true).
  { apply at_most_fle. unfold rating, delay_term.
    apply fsub_Ie_large; [|exact HIe|exact HI].
    apply fsub_942_large. apply fadd_large.
    - apply fmul_24_large; assumption.
    - rewrite (hstep_large _ (fsub_large d Hd Hv)).
      apply fmul_1_large, fmul_11_large, fsub_large; assumption. }
  unfold mos_of_R. rewrite H. reflexivity.
Qed.

(** The equipment impairment of a codec is 0, 5 or 11; for an infinite
    delay the MOS is 1. *)
Lemma codec_Ie (codec : string) :
  let Ie := fst (codec_profile codec) in
  finite_valid Ie /\ 0 <= F2Q Ie /\ F2Q Ie <= 11
  /\ mos_of_R (rating (S754_infinity false) Ie) = f1.
Proof.
  cbv zeta. unfold codec_profile.
  destruct (codec_profile_cases codec) as [E | [E | E]]; cbv zeta in E;
    rewrite E; cbn [fst].
  - split; [split; reflexivity|]. split; [vm_compute; discriminate|].
    split; [vm_compute; discriminate|]. vm_compute. reflexivity.
  - split; [split; reflexivity|]. split; [vm_compute; discriminate|].
    split; [vm_compute; discriminate|]. vm_compute. reflexivity.
  - split; [split; reflexivity|]. split; [vm_compute; discriminate|].
    split; [vm_compute; discriminate|]. vm_compute. reflexivity.
Qed.

Lemma delay_impairment_nonneg (x : Q) :
  0 <= x -> 0 <= Exact.delay_impairment x.
Proof.
  intros H. unfold Exact.delay_impairment, Exact.hstep.
  ExactFacts.case_qlt; lra.
Qed.

Lemma delay_impairment_incr (x y : Q) :
  0 <= x -> x <= y -> Exact.delay_impairment x <= Exact.delay_impairment y.
Proof.
  intros H0 H. unfold Exact.delay_impairment, Exact.hstep.
  ExactFacts.case_qlt; lra.
Qed.

Lemma py_max_f0_value (d : float) :
  finite_valid d -> 0 <= F2Q d ->
  finite_valid (py_max f0 d) /\ F2Q (py_max f0 d) = F2Q d.
Proof.
  intros Hd Hv. unfold py_max.
  destruct (flt f0 d) eqn:E; [split; [exact Hd | reflexivity]|].
  split; [split; reflexivity|].
  destruct (finite_valid_shape d Hd) as [[s ->] | (s & m & e & ->)];
    [reflexivity|].
  destruct s; [|discriminate E].
  exfalso. rewrite F2Q_finite in Hv. pose proof (mag_pos m e). lra.
Qed.

(** A float that is at least 0 is [+inf], or finite with a value of at
    least 0. *)
Lemma delay_shape (d : float) :
  valid_binary prec emax d = true -> fle f0 d = true ->
  d = S754_infinity false \/ (finite_valid d /\ 0 <= F2Q d).
Proof.
  intros Hv H0. destruct d as [s | [] | | s m e]; try discriminate.
  - right. split; [split; reflexivity | cbn; lra].
  - left. reflexivity.
  - right. assert (Hf : finite_valid (S754_finite s m e)) by (split; [reflexivity | exact Hv]).
    split; [exact Hf|].
    apply (fle_iff f0 _ ltac:(split; reflexivity) Hf) in H0. exact H0.
Qed.

(** The MOS of a delay of 1024 ms or more is exactly 1. *)
Lemma mos_large (d : float) (codec : string) :
  d = S754_infinity false \/ (finite_valid d /\ 1024 <= F2Q d) ->
  mos_value (emodel_mos d f0 codec f1) = Some f1.
Proof.
  intros H. rewrite emodel_mos_no_loss. f_equal.
  destruct (codec_Ie codec) as (HIe & HI0 & _ & Hinf). cbv zeta in *.
  destruct H as [-> | [Hd Hv]].
  - exact Hinf.
  - destruct (py_max_f0_value d Hd ltac:(lra)) as [Hp Ep].
    apply rating_large; [exact Hp | rewrite Ep; exact Hv | exact HIe | exact HI0].
Qed.

(** The MOS of a delay up to 1024 ms, against the exact formula. *)
Lemma mos_small (d : float) (codec : string) :
  finite_valid d -> 0 <= F2Q d -> F2Q d <= 1024 ->
  exists m R,
    mos_value (emodel_mos d f0 codec f1) = Some m
    /\ finite_valid m
    /\ - delta_c <= F2Q m - Exact.mos_of_R R
    /\ F2Q m - Exact.mos_of_R R <= delta_c
    /\ - eta <= R - ((942 # 10) - Exact.delay_impairment (F2Q d)
                     - F2Q (fst (codec_profile codec)))
    /\ R - ((942 # 10) - Exact.delay_impairment (F2Q d)
            - F2Q (fst (codec_profile codec))) <= eta.
Proof.
  intros Hd H0 H1. rewrite emodel_mos_no_loss.
  destruct (codec_Ie codec) as (HIe & HI0 & HI1 & _). cbv zeta in *.
  set (Ie := fst (codec_profile codec)) in *.
  destruct (py_max_f0_value d Hd H0) as [Hp Ep].
  destruct (rating_small (py_max f0 d) Ie (F2Q Ie) Hp
              ltac:(rewrite Ep; exact H0) ltac:(rewrite Ep; exact H1)
              HIe ltac:(reflexivity) HI0 HI1) as (HR & Ha & Hb).
  rewrite Ep in Ha, Hb.
  pose proof (delay_impairment_nonneg (F2Q d) H0) as Hn.
  assert (H95 : F2Q (rating (py_max f0 d) Ie) <= 95) by (unfold eta in *; lra).
  destruct (mos_of_R_small _ HR H95) as (Hm & Hc & Hd').
  eexists _, _. split; [reflexivity|]. split; [exact Hm|].
  split; [exact Hc|]. split; [exact Hd'|]. split; assumption.
Qed.

(** Monotonicity in the delay, up to the rounding tolerance. *)
Lemma mos_delay_monotone_aux (codec : string) (d1 d2 : float) :
  valid_binary prec emax d1 = true -> valid_binary prec emax d2 = true ->
  fle f0 d1 = true -> fle d1 d2 = true ->
  exists m1 m2,
    mos_value (emodel_mos d1 f0 codec f1) = Some m1
    /\ mos_value (emodel_mos d2 f0 codec f1) = Some m2
    /\ is_finite m1 = true /\ is_finite m2 = true
    /\ F2Q m2 <= F2Q m1 + mos_tolerance.
Proof.
  intros V1 V2 H0 H12.
  destruct (delay_shape d1 V1 H0) as [-> | [F1 P1]].
  { (* d1 is infinite, and so is d2 *)
    assert (d2 = S754_infinity false)
      by (destruct d2 as [s | [] | | s m e]; try discriminate; reflexivity).
    subst d2. exists f1, f1.
    rewrite (mos_large _ codec (or_introl eq_refl)).
    repeat split; try reflexivity. vm_compute. discriminate. }
  assert (Hd2 : d2 = S754_infinity false \/ (finite_valid d2 /\ F2Q d1 <= F2Q d2)).
  { destruct d2 as [s | [] | | s m e].
    - right. assert (Hf : finite_valid (S754_zero s)) by (split; reflexivity).
      split; [exact Hf|]. apply (fle_iff _ _ F1 Hf). exact H12.
    - exfalso. destruct (finite_valid_shape d1 F1) as [[s ->] | (s & m & e & ->)];
        discriminate.
    - left. reflexivity.
    - exfalso. destruct (finite_valid_shape d1 F1) as [[s ->] | (s & m & e & ->)];
        discriminate.
    - right.
      assert (Hf : finite_valid (S754_finite s m e))
        by (split; [reflexivity | exact V2]).
      split; [exact Hf|]. apply (fle_iff _ _ F1 Hf). exact H12. }
  assert (Hge : exists m1, mos_value (emodel_mos d1 f0 codec f1) = Some m1
                           /\ finite_valid m1 /\ 1 - delta_c <= F2Q m1).
  { destruct (Qlt_le_dec 1024 (F2Q d1)) as [Hb | Hs].
    - exists f1. rewrite (mos_large d1 codec) by (right; split; [exact F1 | lra]).
      split; [reflexivity|]. split; [split; reflexivity|].
      rewrite val_1. unfold q1, delta_c. lra.
    - destruct (mos_small d1 codec F1 P1 Hs) as (m & R & E & Fm & Ha & _).
      exists m. split; [exact E|]. split; [exact Fm|].
      pose proof (ExactFacts.mos_of_R_bounds R). lra. }
  assert (Hbig : d2 = S754_infinity false \/ (finite_valid d2 /\ 1024 <= F2Q d2)
                 \/ (finite_valid d2 /\ F2Q d1 <= F2Q d2 /\ F2Q d2 <= 1024)).
  { destruct Hd2 as [-> | [F2 H2]]; [left; reflexivity|].
    destruct (Qlt_le_dec 1024 (F2Q d2)) as [Hb | Hs].
    - right. left. split; [exact F2 | lra].
    - right. right. split; [exact F2|]. split; [exact H2 | exact Hs]. }
  destruct Hbig as [Hb | [Hb | (F2 & Hle & Hs)]].
  - destruct Hge as (m1 & E1 & Fm1 & Hm1). exists m1, f1.
    rewrite (mos_large d2 codec (or_introl Hb)).
    split; [exact E1|]. split; [reflexivity|].
    split; [exact (proj1 Fm1)|]. split; [reflexivity|].
    rewrite val_1. unfold q1, delta_c, mos_tolerance in *. lra.
  - destruct Hge as (m1 & E1 & Fm1 & Hm1). exists m1, f1.
    rewrite (mos_large d2 codec (or_intror Hb)).
    split; [exact E1|]. split; [reflexivity|].
    split; [exact (proj1 Fm1)|]. split; [reflexivity|].
    rewrite val_1. unfold q1, delta_c, mos_tolerance in *. lra.
  - clear Hge.
    destruct (mos_small d1 codec F1 P1 ltac:(lra))
      as (m1 & R1 & E1 & Fm1 & Ha1 & Hb1 & Hc1 & Hd1).
    destruct (mos_small d2 codec F2 ltac:(lra) Hs)
      as (m2 & R2 & E2 & Fm2 & Ha2 & Hb2 & Hc2 & Hd2').
    exists m1, m2. split; [exact E1|]. split; [exact E2|].
    split; [exact (proj1 Fm1)|]. split; [exact (proj1 Fm2)|].
    pose proof (delay_impairment_incr (F2Q d1) (F2Q d2) P1 Hle) as Hmono.
    pose proof (delay_impairment_nonneg (F2Q d1) P1) as Hn1.
    destruct (codec_Ie codec) as (_ & HI0 & _). cbv zeta in HI0.
    assert (HR : R2 <= R1 + 2 * eta) by lra.
    pose proof (ExactFacts.mos_of_R_mono R2 (R1 + 2 * eta) HR) as Hm.
    pose proof (mos_of_R_lipschitz R1 (2 * eta) ltac:(unfold eta; lra)
                  ltac:(unfold eta in *; lra)) as Hl.
    unfold eta, delta_c, mos_tolerance in *. lra.
Qed.

End ErrorAnalysis.

(** C2 (as amended): for every codec, loss percent 0 and burst factor 1.0,
    the MOS that [emodel_mos] returns is non-increasing in the delay up to
    rounding: for floats 0 <= d1 <= d2 (d2 may be infinite) both calls
    return a finite MOS, and the MOS at [d2] exceeds the MOS at [d1] by
    at most 1e-13. *)
Theorem mos_delay_monotone (codec : string) (d1 d2 : float) :
  valid_binary prec emax d1 = true -> valid_binary prec emax d2 = true ->
  fle f0 d1 = true -> fle d1 d2 = true ->
  exists m1 m2,
    mos_value (emodel_mos d1 f0 codec f1) = Some m1
    /\ mos_value (emodel_mos d2 f0 codec f1) = Some m2
    /\ is_finite m1 = true /\ is_finite m2 = true
    /\ (F2Q m2 <= F2Q m1 + mos_tolerance)%Q.
Proof. exact (mos_delay_monotone_aux codec d1 d2). Qed.

Lemma mos_delay_monotone_witness :
  exists m1 m2,
    mos_value (emodel_mos (S754_finite false 5629499534213583 (-48))
                 f0 "g711" f1) = Some m1
    /\ mos_value (emodel_mos (S754_finite false 5629499534213584 (-48))
                    f0 "g711" f1) = Some m2
    /\ is_finite m1 = true /\ is_finite m2 = true
    /\ (F2Q m2 <= F2Q m1 + mos_tolerance)%Q.
Proof.
  apply (mos_delay_monotone "g711"
           (S754_finite false 5629499534213583 (-48))
           (S754_finite false 5629499534213584 (-48)));
    vm_compute; reflexivity.
Defined.

(** C2 (as stated) fails in binary64: the delay 20.000000000001648 ms is
    larger than 20.000000000001645 ms, and its MOS, 4.4191240800639999, is
    larger than 4.419124080063999, by one unit in the last place. *)
Lemma mos_delay_not_monotone_binary64 :
  fle f0 (S754_finite false 5629499534213583 (-48)) = true
  /\ fle (S754_finite false 5629499534213583 (-48))
         (S754_finite false 5629499534213584 (-48)) = true
  /\ mos_value (emodel_mos (S754_finite false 5629499534213583 (-48)) f0 "g711" f1)
     = Some (S754_finite false 4975491390070053 (-50))
  /\ mos_value (emodel_mos (S754_finite false 5629499534213584 (-48)) f0 "g711" f1)
     = Some (S754_finite false 4975491390070054 (-50))
  /\ fle (S754_finite false 4975491390070054 (-50))
         (S754_finite false 4975491390070053 (-50)) = false.
Proof. repeat split; vm_compute; reflexivity. Qed.

(** C3 (as amended): the worked examples.  For d = 0, p = 0 and codec g711
    [emodel_mos] returns Id = 0, Ie_eff = 0, R = 94.2 and the MOS 4.43 to
    two decimals (it lies in [4.425, 4.435)), which is the value of the
    cubic: R is neither <= 0 nor >= 100, and neither clamp applies.  For
    d = 50, p = 5, codec g729 and burst factor 1.0 it returns
    Ie_eff = 343.5, a negative R, and the MOS 1.0. *)
Theorem emodel_mos_examples :
  emodel_mos (of_Z 0) (of_Z 0) "g711" f1
    = Some (cubic_mos (dec 942 10), dec 942 10, f0, f0)
  /\ fle (dec 942 10) f0 = false
  /\ fle (of_Z 100) (dec 942 10) = false
  /\ flt f1 (cubic_mos (dec 942 10)) = true
  /\ flt (cubic_mos (dec 942 10)) (dec 45 10) = true
  /\ fle (dec 4425 1000) (cubic_mos (dec 942 10)) = true
  /\ flt (cubic_mos (dec 942 10)) (dec 4435 1000) = true
  /\ emodel_mos (of_Z 50) (of_Z 5) "g729" f1
     = Some (f1, fsub (of_Z 0) (dec 2505 10), dec 12 10, dec 3435 10)
  /\ flt (fsub (of_Z 0) (dec 2505 10)) f0 = true.
Proof. repeat split; vm_compute; reflexivity. Qed.

(** C3 (as stated) fails on its second example: the Ie_eff returned is
    343.5, which is below 343.55 and so is not 343.6 to one decimal. *)
Lemma example3_Ie_eff_not_343_6 :
  emodel_mos (of_Z 50) (of_Z 5) "g729" f1
    = Some (f1, fsub (of_Z 0) (dec 2505 10), dec 12 10, dec 3435 10)
  /\ flt (dec 3435 10) (dec 34355 100) = true
  /\ fle (dec 34355 100) (dec 3435 10) = false.
Proof. repeat split; vm_compute; reflexivity. Qed.

(** ** The jitter filter *)

(** C6 (as amended): from the initial jitter state J = 0, an update with a
    zero transit delta leaves J unchanged, and so does any number of such
    updates. *)
Theorem jitter_zero_delta_from_zero (n : nat) :
  rfc3550_jitter_update f0 f0 = f0
  /\ Nat.iter n (fun J => rfc3550_jitter_update J f0) f0 = f0.
Proof.
  split; [reflexivity|].
  induction n as [| n IH]; [reflexivity|].
  rewrite Nat.iter_succ, IH. reflexivity.
Qed.

(** C6 (as stated) fails for a non-zero J: a zero delta takes J = 16 to
    J1 = 15, and a second one takes 15 to 14.0625, not back to 15. *)
Lemma jitter_zero_delta_decays :
  rfc3550_jitter_update (of_Z 16) f0 = of_Z 15
  /\ rfc3550_jitter_update (of_Z 15) f0 = dec 140625 10000
  /\ rfc3550_jitter_update (rfc3550_jitter_update (of_Z 16) f0) f0
     <> rfc3550_jitter_update (of_Z 16) f0.
Proof.
  split; [vm_compute; reflexivity|]. split; [vm_compute; reflexivity|].
  vm_compute. discriminate.
Qed.

(** ** The measurement loop *)

Lemma bind_Ok_inv {A B} (o : outcome A) (k : A -> outcome B) (b : B) :
  o ≫= k = Ok b -> exists a, o = Ok a /\ k a = Ok b.
Proof. destruct o as [a | e]; [eauto | discriminate]. Qed.

Lemma of_option_Ok {A} (e : exn) (o : option A) (a : A) :
  of_option e o = Ok a -> o = Some a.
Proof. destruct o; cbn; congruence. Qed.

(** [recv_win] is the number of window entries in the received set. *)
Lemma recv_in_window_count (win : list Z) (rcv : gset Z) :
  recv_in_window win rcv = received_count win rcv.
Proof.
  unfold recv_in_window, received_count.
  assert (H : forall acc,
             fold_left (fun acc w => if decide (w ∈ rcv) then acc + 1 else acc)
               win acc
             = acc + Z.of_nat (length (filter (λ w, w ∈ rcv) win))).
  { induction win as [| w win IH]; intros acc; cbn [fold_left].
    - rewrite filter_nil. cbn. lia.
    - rewrite IH, filter_cons. destruct (decide (w ∈ rcv)); cbn [length]; lia. }
  apply H.
Qed.

Lemma received_count_bounds (win : list Z) (rcv : gset Z) :
  0 <= received_count win rcv <= Z.of_nat (length win).
Proof.
  unfold received_count. pose proof (length_filter (λ w, w ∈ rcv) win). lia.
Qed.

Lemma int_truediv_Some (a b : Z) : b <> 0 -> is_Some (int_truediv a b).
Proof.
  intros Hb. unfold int_truediv. destruct (Z.eqb_spec b 0); [contradiction|].
  destruct (a =? 0); [eauto|].
  destruct (SFdiv_core_binary _ _ _ _ _ _) as [[q e] l]. eauto.
Qed.

(** The window loss percent is always computed, and is a percentage. *)
Lemma window_loss_percent (win : list Z) (rcv : gset Z) :
  exists x, window_loss win rcv = Some x /\ in_range 0 100 x.
Proof.
  unfold window_loss. destruct win as [| w win].
  { exists f0. split; [reflexivity|]. split; reflexivity. }
  rewrite recv_in_window_count.
  pose proof (received_count_bounds (w :: win) rcv) as Hk.
  apply int_truediv_percent; cbn [length] in *; lia.
Qed.

(** The cumulative loss percent is a percentage as long as no more was
    received than was sent. *)
Lemma total_loss_percent (sent recv : Z) :
  0 <= recv <= sent ->
  exists x, total_loss sent recv = Some x /\ in_range 0 100 x.
Proof.
  intros H. unfold total_loss. destruct (Z.eqb_spec sent 0).
  { exists f0. split; [reflexivity|]. split; reflexivity. }
  apply int_truediv_percent; lia.
Qed.

Lemma inv_counts (st : client) : inv st -> 0 <= total_recv st <= total_sent st.
Proof.
  intros (H0 & H1 & H2 & H3). split; [assumption|].
  assert (size (received st ∩ dom (sent_times st))
          ≤ size (dom (sent_times st)))%nat
    by apply subseteq_size, intersection_subseteq_r.
  lia.
Qed.

Lemma inv_init (cfg : config) (t1 t2 t3 : float) (ss : session) (st : client) :
  init cfg t1 t2 t3 = Some (ss, st) -> inv st.
Proof.
  unfold init. destruct (py_div f1 (of_Z (cfg_pps cfg))); [|discriminate].
  cbn. intros [= <- <-]. unfold inv. cbn.
  rewrite dom_empty_L, intersection_empty_r_L, size_empty.
  repeat split; try lia. constructor.
Qed.

Lemma inv_send (ss : session) (st st' : client) (now : float) (send_ns : Z)
    (res : send_result) :
  inv st -> send_phase ss st now send_ns res = Ok st' -> inv st'.
Proof.
  intros Hinv. unfold send_phase.
  destruct (fle (next_send st) now); [|intros [= <-]; exact Hinv].
  destruct Hinv as (H0 & H1 & H2 & H3 & H4).
  destruct (pack (seq st) send_ns MAGIC); cbn; [|discriminate].
  intros [= <-].
  assert (Hseq : 0 <= Z.land (seq st + 1) 0xffffffff < 2 ^ 32).
  { change 0xffffffff with (Z.ones 32). rewrite Z.land_ones by lia.
    apply Z.mod_pos_bound. lia. }
  destruct res as [| err]; unfold inv; cbn.
  - rewrite dom_insert_L.
    assert (Ha : (size (received st ∩ dom (sent_times st))
                  ≤ size (received st ∩ ({[seq st]} ∪ dom (sent_times st))))%nat)
      by (apply subseteq_size, intersection_mono_l, union_subseteq_r).
    assert (Hb : (size ({[seq st]} ∪ dom (sent_times st))
                  ≤ 1 + size (dom (sent_times st)))%nat).
    { rewrite size_union_alt, size_singleton.
      assert (size (dom (sent_times st) ∖ {[seq st]})
              ≤ size (dom (sent_times st)))%nat
        by apply subseteq_size, subseteq_difference_l, reflexivity.
      lia. }
    repeat split; try lia; assumption.
  - repeat split; try lia; try assumption.
    apply Forall_app. split; [assumption|]. repeat constructor.
Qed.

(** What the receive block does with a well-formed datagram whose sequence
    number is new and was sent. *)
Lemma recv_phase_accepted (cfg : config) (ss : session) (st : client)
    (data : list Byte.byte) (recv_ns : Z) (clock : float) (stamp : string)
    (r_seq s_ns t0 : Z) :
  PKT_SIZE <= Z.of_nat (length data) ->
  unpack (take (Z.to_nat PKT_SIZE) data) = (r_seq, s_ns, MAGIC) ->
  r_seq ∉ received st ->
  sent_times st !! r_seq = Some t0 ->
  let rcv := {[r_seq]} ∪ received st in
  let rtt_ms := fdiv (of_Z (recv_ns - t0)) (of_Z 1000000) in
  let oneway_ms := fdiv rtt_ms (of_Z 2) in
  let transit_ms := fdiv (of_Z (recv_ns - s_ns)) (of_Z 1000000) in
  let J :=
    match last_transit_ms st with
    | Some last => rfc3550_jitter_update (J_ms st) (fsub transit_ms last)
    | None => J_ms st
    end in
  recv_phase cfg ss st (RecvData data recv_ns clock stamp)
  = (loss_pct ← of_option ZeroDivisionError (window_loss (window st) rcv);
     m ← sample_mos cfg ss (oneway_samples st ++ [oneway_ms]) loss_pct clock;
     Ok (mkClient (sent_times st) rcv (rtt_samples st ++ [rtt_ms])
           (oneway_samples st ++ [oneway_ms]) (window st)
           (window_maxlen st) (Some transit_ms) J
           (total_sent st) (total_recv st + 1) (seq st)
           (next_send st) (next_report st)
           (if csv_enabled cfg then
              csv_rows st
                ++ [csv_row stamp r_seq rtt_ms oneway_ms J loss_pct m]
            else csv_rows st)
           (console st), Next)).
Proof.
  intros Hlen Hun Hnew Hsent. cbv zeta. unfold recv_phase.
  destruct (Z.leb_spec PKT_SIZE (Z.of_nat (length data))); [|lia].
  rewrite Hun, Z.eqb_refl. cbn [negb].
  destruct (decide (r_seq ∈ received st)); [contradiction|].
  rewrite Hsent. reflexivity.
Qed.

Lemma inv_recv (cfg : config) (ss : session) (st st' : client)
    (r : recv_result) (fl : flow) :
  inv st -> recv_phase cfg ss st r = Ok (st', fl) -> inv st'.
Proof.
  intros Hinv. unfold recv_phase.
  destruct r as [| | data recv_ns clock stamp];
    [intros [= <- _]; exact Hinv | discriminate |].
  destruct (PKT_SIZE <=? Z.of_nat (length data));
    [|intros [= <- _]; exact Hinv].
  destruct (unpack _) as [[r_seq s_ns] magic].
  destruct (negb (magic =? MAGIC)); [intros [= <- _]; exact Hinv|].
  destruct (decide (r_seq ∈ received st)) as [|Hnew];
    [intros [= <- _]; exact Hinv|].
  destruct Hinv as (H0 & H1 & H2 & H3 & H4).
  destruct (sent_times st !! r_seq) as [t0|] eqn:Hsent.
  - intros H. apply bind_Ok_inv in H as (loss & _ & H).
    apply bind_Ok_inv in H as (m & _ & H). injection H as <- _.
    unfold inv; cbn.
    assert (Hin : r_seq ∈ dom (sent_times st)) by (apply elem_of_dom; eauto).
    assert (E : ({[r_seq]} ∪ received st) ∩ dom (sent_times st)
                = {[r_seq]} ∪ received st ∩ dom (sent_times st))
      by (apply set_eq; intros x;
          rewrite !elem_of_intersection, !elem_of_union, elem_of_intersection,
            elem_of_singleton; intuition congruence).
    rewrite E, size_union, size_singleton.
    + repeat split; try lia; assumption.
    + apply disjoint_singleton_l. rewrite elem_of_intersection. tauto.
  - intros [= <- _]. unfold inv; cbn.
    assert ((size (received st ∩ dom (sent_times st))
             ≤ size (({[r_seq]} ∪ received st) ∩ dom (sent_times st)))%nat)
      by apply subseteq_size, intersection_mono_r, union_subseteq_r.
    repeat split; try lia; assumption.
Qed.

Lemma inv_report (cfg : config) (st st' : client) (now : float) :
  inv st -> report_phase cfg st now = Ok st' -> inv st'.
Proof.
  intros Hinv. unfold report_phase.
  destruct (fle (next_report st) now); [|intros [= <-]; exact Hinv].
  intros H.
  apply bind_Ok_inv in H as (avg_rtt & _ & H).
  apply bind_Ok_inv in H as (avg_oneway & _ & H).
  apply bind_Ok_inv in H as (loss_total & Hl & H).
  apply bind_Ok_inv in H as (loss_win & _ & H).
  apply bind_Ok_inv in H as ([[[mos R] Id] Ie_eff] & _ & H).
  injection H as <-. apply of_option_Ok in Hl.
  destruct (total_loss_percent (total_sent st) (total_recv st)
              (inv_counts st Hinv)) as (x & Hx & Hr).
  rewrite Hx in Hl. injection Hl as <-.
  destruct Hinv as (H0 & H1 & H2 & H3 & H4).
  unfold inv; cbn. repeat split; try lia; try assumption.
  apply Forall_app. split; [assumption|]. constructor; [exact Hr|constructor].
Qed.

Lemma inv_iteration (cfg : config) (ss : session) (st st' : client)
    (ev : event) :
  inv st -> iteration cfg ss st ev = Running st' -> inv st'.
Proof.
  intros Hinv. unfold iteration.
  destruct (expired cfg ss (ev_now ev)); [discriminate|].
  destruct (send_phase ss st _ _ _) as [st1|] eqn:Hs; [|discriminate].
  apply inv_send in Hs; [|exact Hinv].
  destruct (recv_phase cfg ss st1 _) as [[st2 []]|] eqn:Hr; [| |discriminate];
    apply inv_recv in Hr; try exact Hs.
  - destruct (report_phase cfg st2 _) as [st3|] eqn:Hp; [|discriminate].
    intros [= <-]. eapply inv_report; eassumption.
  - intros [= <-]. exact Hr.
Qed.

Lemma reachable_inv (cfg : config) (ss : session) (st : client) :
  reachable cfg ss st -> inv st.
Proof.
  induction 1 as [t1 t2 t3 st Hi | st ev st' _ IH Hit].
  - eapply inv_init, Hi.
  - eapply inv_iteration; eassumption.
Qed.

Lemma run_reachable (cfg : config) (ss : session) (evs : list event)
    (st st' : client) :
  reachable cfg ss st -> run cfg ss st evs = Running st' ->
  reachable cfg ss st'.
Proof.
  revert st. induction evs as [| ev evs IH]; intros st Hr; cbn [run].
  - intros [= <-]. exact Hr.
  - destruct (iteration cfg ss st ev) as [st1 | |] eqn:Hit; try discriminate.
    apply IH. eapply reachable_step; eassumption.
Qed.

Lemma at_receive_inv (cfg : config) (ss : session) (st : client) :
  at_receive cfg ss st -> inv st.
Proof.
  intros (st0 & now & send_ns & res & Hr & _ & Hs).
  eapply inv_send; [|exact Hs]. apply reachable_inv with cfg ss, Hr.
Qed.

Lemma reachable_st0A : reachable cfgA ssA st0A.
Proof.
  apply reachable_init with (of_Z 1000) (of_Z 1000) (of_Z 1000).
  vm_compute. reflexivity.
Defined.

Lemma reachable_stB : reachable cfgA ssA stB.
Proof.
  apply run_reachable with [echoA 0; lostA 1] st0A; [exact reachable_st0A|].
  vm_compute. reflexivity.
Defined.

Lemma at_receive_stB_sent : at_receive cfgA ssA stB_sent.
Proof.
  exists stB, (dec 100004 100), 1000040000000, SendOk.
  split; [exact reachable_stB|]. split; vm_compute; reflexivity.
Defined.

(** C8: a datagram shorter than the 16 bytes of a probe, or whose magic
    field is not [MAGIC], is rejected silently: the receive block raises
    nothing and leaves the whole client state as it was. *)
Theorem malformed_datagram_rejected (cfg : config) (ss : session)
    (st : client) (data : list Byte.byte) (recv_ns : Z) (clock : float)
    (stamp : string) :
  Z.of_nat (length data) < PKT_SIZE
    \/ snd (unpack (take (Z.to_nat PKT_SIZE) data)) <> MAGIC ->
  exists fl,
    recv_phase cfg ss st (RecvData data recv_ns clock stamp) = Ok (st, fl).
Proof.
  intros H. unfold recv_phase.
  destruct (Z.leb_spec PKT_SIZE (Z.of_nat (length data))) as [Hlen|];
    [|eauto].
  destruct H as [|Hm]; [lia|].
  destruct (unpack _) as [[r_seq s_ns] magic]. cbn [snd] in Hm.
  destruct (Z.eqb_spec magic MAGIC); [contradiction|]. cbn [negb]. eauto.
Qed.

Lemma malformed_datagram_rejected_witness :
  exists fl,
    recv_phase cfgA ssA stB_sent
      (RecvData (take 7 (packetA 0)) 1000060000000 (of_Z 1001) "t")
    = Ok (stB_sent, fl).
Proof.
  apply malformed_datagram_rejected. left. vm_compute. reflexivity.
Defined.

(** C7: when a well-formed datagram arrives whose sequence number is
    already in the received set, the receive block drops it: the whole
    client state (received counter, RTT and one-way samples, jitter, and
    everything else) is unchanged and the loop continues.  The received
    counter never exceeds the number of distinct sequence numbers received,
    so none is credited twice. *)
Theorem duplicate_datagram_dropped (cfg : config) (ss : session)
    (st : client) (data : list Byte.byte) (recv_ns : Z) (clock : float)
    (stamp : string) (r_seq s_ns : Z) :
  at_receive cfg ss st ->
  PKT_SIZE <= Z.of_nat (length data) ->
  unpack (take (Z.to_nat PKT_SIZE) data) = (r_seq, s_ns, MAGIC) ->
  r_seq ∈ received st ->
  recv_phase cfg ss st (RecvData data recv_ns clock stamp) = Ok (st, Continue)
  /\ total_recv st <= Z.of_nat (size (received st)).
Proof.
  intros Hat Hlen Hun Hin. split.
  - unfold recv_phase.
    destruct (Z.leb_spec PKT_SIZE (Z.of_nat (length data))); [|lia].
    rewrite Hun, Z.eqb_refl. cbn [negb].
    destruct (decide (r_seq ∈ received st)); [reflexivity|contradiction].
  - destruct (at_receive_inv cfg ss st Hat) as (_ & H1 & _).
    assert (size (received st ∩ dom (sent_times st)) ≤ size (received st))%nat
      by apply subseteq_size, intersection_subseteq_l.
    lia.
Qed.

Lemma duplicate_datagram_dropped_witness :
  recv_phase cfgA ssA stB_sent
    (RecvData (packetA 0) 1000060000000 (dec 100006 100) "t")
  = Ok (stB_sent, Continue)
  /\ total_recv stB_sent <= Z.of_nat (size (received stB_sent)).
Proof.
  apply (duplicate_datagram_dropped cfgA ssA stB_sent (packetA 0)
           1000060000000 (dec 100006 100) "t" 0 1000000000000).
  - exact at_receive_stB_sent.
  - vm_compute. discriminate.
  - vm_compute. reflexivity.
  - apply (bool_decide_unpack _). vm_compute. exact I.
Defined.

(** C9: on every send attempt the sequence counter advances by exactly 1
    modulo 2^32, so it wraps from 2^32 - 1 to 0; when the transport send
    fails the error is printed, nothing is recorded in [sent_times], the
    window or [total_sent], and the iteration goes on. *)
Theorem send_advances_seq (cfg : config) (ss : session) (st : client)
    (now : float) (send_ns : Z) (res : send_result) :
  reachable cfg ss st ->
  fle (next_send st) now = true ->
  0 <= send_ns < 2 ^ 64 ->
  exists st',
    send_phase ss st now send_ns res = Ok st'
    /\ seq st' = (seq st + 1) mod 2 ^ 32
    /\ (seq st = 2 ^ 32 - 1 -> seq st' = 0)
    /\ (forall err, res = SendErr err ->
          sent_times st' = sent_times st /\ window st' = window st
          /\ total_sent st' = total_sent st
          /\ console st' = console st ++ [LineSendError err]).
Proof.
  intros Hr Hnow Hns.
  destruct (reachable_inv cfg ss st Hr) as (_ & _ & _ & Hseq & _).
  assert (Hp : exists b, pack (seq st) send_ns MAGIC = Some b).
  { unfold pack.
    destruct (Z.leb_spec 0 (seq st)); [|lia].
    destruct (Z.ltb_spec (seq st) (2 ^ 32)); [|lia].
    destruct (Z.leb_spec 0 send_ns); [|lia].
    destruct (Z.ltb_spec send_ns (2 ^ 64)); [|lia].
    cbn. eauto. }
  destruct Hp as [b Hp]. unfold send_phase. rewrite Hnow, Hp. cbn.
  eexists. split; [reflexivity|].
  assert (E : Z.land (seq st + 1) 0xffffffff = (seq st + 1) mod 2 ^ 32).
  { change 0xffffffff with (Z.ones 32). apply Z.land_ones. lia. }
  destruct res as [| err0]; cbn; rewrite E; (split; [reflexivity|]); split.
  - intros ->. reflexivity.
  - intros err [=].
  - intros ->. reflexivity.
  - intros err [= <-]. repeat split.
Qed.

Lemma send_advances_seq_witness :
  exists st',
    send_phase ssA stB (dec 100004 100) 1000040000000 (SendErr "unreachable")
    = Ok st'
    /\ seq st' = (seq stB + 1) mod 2 ^ 32
    /\ (seq stB = 2 ^ 32 - 1 -> seq st' = 0)
    /\ (forall err, SendErr "unreachable" = SendErr err ->
          sent_times st' = sent_times stB /\ window st' = window stB
          /\ total_sent st' = total_sent stB
          /\ console st' = console stB ++ [LineSendError err]).
Proof.
  apply (send_advances_seq cfgA ssA stB (dec 100004 100) 1000040000000
           (SendErr "unreachable")).
  - exact reachable_stB.
  - vm_compute. reflexivity.
  - lia.
Defined.

(** C10: in every state of the loop the received counter is at most the
    sent counter, so the cumulative loss percent is computed and lies in
    [0, 100], and so does the one of every summary line printed so far; on
    an empty window the window loss percent is 0.0. *)
Theorem recv_never_exceeds_sent (cfg : config) (ss : session) (st : client) :
  reachable cfg ss st ->
  0 <= total_recv st <= total_sent st
  /\ (exists x, total_loss (total_sent st) (total_recv st) = Some x
                /\ in_range 0 100 x)
  /\ Forall line_ok (console st)
  /\ forall rcv, window_loss [] rcv = Some f0.
Proof.
  intros Hr. pose proof (reachable_inv cfg ss st Hr) as Hinv.
  pose proof (inv_counts st Hinv) as Hc.
  split; [exact Hc|]. split; [apply total_loss_percent, Hc|].
  split; [apply Hinv|]. reflexivity.
Qed.

Lemma reachable_stC : reachable cfgA ssA stC.
Proof.
  apply run_reachable with eventsC st0A; [exact reachable_st0A|].
  vm_compute. reflexivity.
Defined.

Lemma recv_never_exceeds_sent_witness :
  0 <= total_recv stC <= total_sent stC
  /\ (exists x, total_loss (total_sent stC) (total_recv stC) = Some x
                /\ in_range 0 100 x)
  /\ Forall line_ok (console stC)
  /\ forall rcv, window_loss [] rcv = Some f0.
Proof. exact (recv_never_exceeds_sent cfgA ssA stC reachable_stC). Defined.

(** The summary line of the small session: four probes sent, two echoes
    received, a cumulative loss of 50 percent. *)
Example stC_console :
  exists loss_win avg_rtt avg_oneway jitter mos,
    console stC
    = [LineStats 4 2 (of_Z 50) loss_win avg_rtt avg_oneway jitter mos].
Proof. vm_compute. eexists _, _, _, _, _. reflexivity. Qed.

(** C4: on an accepted sample, with a non-empty window of [W] sent sequence
    numbers of which [k] are in the received set (the new one included),
    the window loss percent is [100*(W-k)/W] exactly as Python divides two
    [int]s; it is the value written to the row of the sample. *)
Theorem window_loss_exact (cfg : config) (ss : session) (st : client)
    (data : list Byte.byte) (recv_ns : Z) (clock : float) (stamp : string)
    (r_seq s_ns t0 W k : Z) :
  PKT_SIZE <= Z.of_nat (length data) ->
  unpack (take (Z.to_nat PKT_SIZE) data) = (r_seq, s_ns, MAGIC) ->
  r_seq ∉ received st ->
  sent_times st !! r_seq = Some t0 ->
  window st <> [] ->
  W = Z.of_nat (length (window st)) ->
  k = received_count (window st) ({[r_seq]} ∪ received st) ->
  exists x,
    int_truediv (100 * (W - k)) W = Some x
    /\ window_loss (window st) ({[r_seq]} ∪ received st) = Some x
    /\ forall st' fl,
         recv_phase cfg ss st (RecvData data recv_ns clock stamp)
           = Ok (st', fl) ->
         csv_enabled cfg = true ->
         exists row,
           csv_rows st' = csv_rows st ++ [row]
           /\ row !! 5%nat = Some (CellRound x 3).
Proof.
  intros Hlen Hun Hnew Hsent Hwin -> ->.
  destruct (int_truediv_Some
              (100 * (Z.of_nat (length (window st))
                      - received_count (window st) ({[r_seq]} ∪ received st)))
              (Z.of_nat (length (window st)))) as [x Hx].
  { destruct (window st); [contradiction|]. cbn [length]. lia. }
  assert (Hw : window_loss (window st) ({[r_seq]} ∪ received st) = Some x).
  { unfold window_loss. rewrite recv_in_window_count.
    destruct (window st); [contradiction|]. exact Hx. }
  exists x. split; [exact Hx|]. split; [exact Hw|].
  intros st' fl Hrecv Hcsv.
  rewrite (recv_phase_accepted cfg ss st data recv_ns clock stamp r_seq s_ns t0)
    in Hrecv by assumption.
  rewrite Hw in Hrecv. cbn [of_option] in Hrecv.
  apply bind_Ok_inv in Hrecv as (x' & [= <-] & Hrecv).
  apply bind_Ok_inv in Hrecv as ([[[mos R] Id] Ie_eff] & _ & Hrecv).
  injection Hrecv as <- _. cbn [csv_rows]. rewrite Hcsv.
  eexists. split; reflexivity.
Qed.

Lemma window_loss_exact_witness :
  exists x,
    int_truediv (100 * (3 - 2)) 3 = Some x
    /\ window_loss (window stB_sent) ({[2]} ∪ received stB_sent) = Some x
    /\ forall st' fl,
         recv_phase cfgA ssA stB_sent
           (RecvData (packetA 2) 1000060000000 (dec 100005 100) "t")
           = Ok (st', fl) ->
         csv_enabled cfgA = true ->
         exists row,
           csv_rows st' = csv_rows stB_sent ++ [row]
           /\ row !! 5%nat = Some (CellRound x 3).
Proof.
  apply (window_loss_exact cfgA ssA stB_sent (packetA 2) 1000060000000
           (dec 100005 100) "t" 2 1000040000000 1000040000000 3 2).
  - vm_compute. discriminate.
  - vm_compute. reflexivity.
  - apply (bool_decide_unpack _). vm_compute. exact I.
  - vm_compute. reflexivity.
  - vm_compute. discriminate.
  - vm_compute. reflexivity.
  - vm_compute. reflexivity.
Defined.

(** The window loss of that sample: one of three probes unanswered,
    33.333333333333336 percent. *)
Example stB_sent_window_loss :
  window stB_sent = [0; 1; 2]
  /\ window_loss (window stB_sent) ({[2]} ∪ received stB_sent)
     = Some (dec 100 3).
Proof. split; vm_compute; reflexivity. Qed.

(** C5 (the code departs from it): with codec g711 and no loss, the third
    sample of the small session is past the warm-up and has three one-way
    samples, so its MOS-family values are not withheld: they are 4.4234...,
    93.96, 0.24 and 0.0.  The row written for it has the first three, and
    an empty string for Ie_eff. *)
Theorem csv_blank_for_zero_Ie_eff :
  run cfgA ssA st0A [echoA 0; echoA 1; echoA 2] = Running st3A
  /\ sample_mos cfgA ssA (oneway_samples st3A) f0 (dec 100005 100)
     = Ok (Some (S754_finite false 4980430030648015 (-50)),
           Some (fsub (dec 942 10) (dec 24 100)), Some (dec 24 100), Some f0)
  /\ last (csv_rows st3A)
     = Some [ CellStr "t"; CellInt 2;
              CellRound (of_Z 20) 3; CellRound (of_Z 10) 3;
              CellRound f0 3; CellRound f0 3;
              CellRound (S754_finite false 4980430030648015 (-50)) 3;
              CellRound (fsub (dec 942 10) (dec 24 100)) 1;
              CellRound (dec 24 100) 3;
              CellStr "" ].
Proof.
  split; [vm_compute; reflexivity|]. split; vm_compute; reflexivity.
Qed.

(** * Further properties of the code *)

(** ** The wire format *)

Lemma be_encode_length (n : nat) (z : Z) : length (be_encode n z) = n.
Proof.
  revert z. induction n as [| n IH]; intros z; cbn [be_encode]; [reflexivity|].
  rewrite length_app, IH. cbn. lia.
Qed.

Lemma byte_of_to_N (k : Z) :
  0 <= k < 256 ->
  Z.of_N (Byte.to_N (default Byte.x00 (Byte.of_N (Z.to_N k)))) = k.
Proof.
  intros Hk. destruct (Byte.of_N (Z.to_N k)) as [b|] eqn:E;
    unfold default; cbn [from_option id].
  - apply Strings.Byte.to_of_N in E. rewrite E. lia.
  - apply Strings.Byte.of_N_None_iff in E. lia.
Qed.

Lemma be_decode_snoc (bs : list Byte.byte) (b : Byte.byte) :
  be_decode (bs ++ [b]) = be_decode bs * 256 + Z.of_N (Byte.to_N b).
Proof. unfold be_decode. rewrite fold_left_app. reflexivity. Qed.

Lemma be_decode_encode (n : nat) (z : Z) :
  0 <= z < 256 ^ Z.of_nat n -> be_decode (be_encode n z) = z.
Proof.
  revert z. induction n as [| n IH]; intros z Hz.
  - cbn in *. lia.
  - cbn [be_encode]. rewrite be_decode_snoc.
    rewrite Nat2Z.inj_succ, Z.pow_succ_r in Hz by lia.
    rewrite IH, byte_of_to_N.
    + pose proof (Z.div_mod z 256). lia.
    + apply Z.mod_pos_bound. lia.
    + split; [apply Z.div_pos; lia|]. apply Z.div_lt_upper_bound; lia.
Qed.

Lemma be_decode_bound (bs : list Byte.byte) :
  0 <= be_decode bs < 256 ^ Z.of_nat (length bs).
Proof.
  induction bs as [| b bs IH] using rev_ind.
  - cbn. lia.
  - rewrite be_decode_snoc, length_app. cbn [length].
    replace (Z.of_nat (length bs + 1)) with (Z.succ (Z.of_nat (length bs)))
      by lia.
    rewrite Z.pow_succ_r by lia.
    pose proof (Strings.Byte.to_N_bounded b). lia.
Qed.

Lemma unpack_of_pack (seq ts magic : Z) :
  0 <= seq < 2 ^ 32 -> 0 <= ts < 2 ^ 64 -> 0 <= magic < 2 ^ 32 ->
  exists bs,
    pack seq ts magic = Some bs
    /\ Z.of_nat (length bs) = PKT_SIZE
    /\ unpack (take (Z.to_nat PKT_SIZE) bs) = (seq, ts, magic).
Proof.
  intros Hs Ht Hm. unfold pack.
  destruct (Z.leb_spec 0 seq); [|lia].
  destruct (Z.ltb_spec seq (2 ^ 32)); [|lia].
  destruct (Z.leb_spec 0 ts); [|lia].
  destruct (Z.ltb_spec ts (2 ^ 64)); [|lia].
  destruct (Z.leb_spec 0 magic); [|lia].
  destruct (Z.ltb_spec magic (2 ^ 32)); [|lia].
  cbn [andb]. eexists. split; [reflexivity|].
  assert (Hlen : length (be_encode 4 seq ++ be_encode 8 ts ++ be_encode 4 magic)
                 = 16%nat) by (rewrite !length_app, !be_encode_length; reflexivity).
  split; [rewrite Hlen; reflexivity|].
  change (Z.to_nat PKT_SIZE) with 16%nat.
  rewrite firstn_all2 by (rewrite Hlen; lia).
  unfold unpack.
  rewrite (take_app_length' (be_encode 4 seq)) by (rewrite be_encode_length; reflexivity).
  rewrite (drop_app_length' (be_encode 4 seq)) by (rewrite be_encode_length; reflexivity).
  rewrite (take_app_length' (be_encode 8 ts)) by (rewrite be_encode_length; reflexivity).
  replace (drop 12 (be_encode 4 seq ++ be_encode 8 ts ++ be_encode 4 magic))
    with (be_encode 4 magic).
  2:{ rewrite app_assoc. symmetry. apply drop_app_length'.
      rewrite length_app, !be_encode_length. reflexivity. }
  rewrite firstn_all2 by (rewrite be_encode_length; lia).
  rewrite !be_decode_encode by (cbn; lia). reflexivity.
Qed.

(** X1: packing is undone by unpacking.  For a sequence number and a magic
    that fit 32 bits and a timestamp that fits 64 bits, [pack] yields a
    datagram of exactly 16 bytes, and [unpack] gives the three fields
    back. *)
Theorem unpack_pack (seq ts magic : Z) :
  0 <= seq < 2 ^ 32 -> 0 <= ts < 2 ^ 64 -> 0 <= magic < 2 ^ 32 ->
  exists bs,
    pack seq ts magic = Some bs
    /\ Z.of_nat (length bs) = PKT_SIZE
    /\ unpack (take (Z.to_nat PKT_SIZE) bs) = (seq, ts, magic).
Proof. exact (unpack_of_pack seq ts magic). Qed.

Lemma unpack_pack_witness :
  exists bs,
    pack 4294967295 1000000000000 MAGIC = Some bs
    /\ Z.of_nat (length bs) = PKT_SIZE
    /\ unpack (take (Z.to_nat PKT_SIZE) bs)
       = (4294967295, 1000000000000, MAGIC).
Proof.
  apply unpack_pack; unfold MAGIC; lia.
Defined.

Lemma unpack_fields_range (data : list Byte.byte) :
  let '(r_seq, s_ns, magic) := unpack (take (Z.to_nat PKT_SIZE) data) in
  0 <= r_seq < 2 ^ 32 /\ 0 <= s_ns < 2 ^ 64 /\ 0 <= magic < 2 ^ 32.
Proof.
  unfold unpack. set (bs := take (Z.to_nat PKT_SIZE) data).
  assert (H : forall (l : list Byte.byte) (n : nat),
             (length l <= n)%nat -> 0 <= be_decode l < 256 ^ Z.of_nat n).
  { intros l n Hl. pose proof (be_decode_bound l) as Hb.
    assert (256 ^ Z.of_nat (length l) <= 256 ^ Z.of_nat n)
      by (apply Z.pow_le_mono_r; lia).
    lia. }
  pose proof (H (take 4 bs) 4%nat ltac:(rewrite length_take; lia)).
  pose proof (H (take 8 (drop 4 bs)) 8%nat ltac:(rewrite length_take; lia)).
  pose proof (H (take 4 (drop 12 bs)) 4%nat ltac:(rewrite length_take; lia)).
  change (256 ^ Z.of_nat 4) with (2 ^ 32) in *.
  change (256 ^ Z.of_nat 8) with (2 ^ 64) in *. auto.
Qed.

(** X2: whatever bytes arrive, the three fields [unpack] reads from the
    first 16 of them are unsigned numbers of 32, 64 and 32 bits. *)
Theorem unpack_range (data : list Byte.byte) :
  let '(r_seq, s_ns, magic) := unpack (take (Z.to_nat PKT_SIZE) data) in
  0 <= r_seq < 2 ^ 32 /\ 0 <= s_ns < 2 ^ 64 /\ 0 <= magic < 2 ^ 32.
Proof. exact (unpack_fields_range data). Qed.

(** ** The MOS estimator: codec names, clamping, errors *)

Lemma lower_ascii_idem (c : ascii) : lower_ascii (lower_ascii c) = lower_ascii c.
Proof. destruct c as [[] [] [] [] [] [] [] []]; reflexivity. Qed.

Lemma lower_idem (s : string) : lower (lower s) = lower s.
Proof.
  induction s as [| c s IH]; cbn [lower]; [reflexivity|].
  rewrite lower_ascii_idem, IH. reflexivity.
Qed.

(** X3: codec names are case-insensitive: a name and its lower-case form
    give the same result, for all delays, losses and burst factors. *)
Theorem emodel_mos_case_insensitive (d p : float) (codec : string) (b : float) :
  emodel_mos d p codec b = emodel_mos d p (lower codec) b.
Proof. unfold emodel_mos. rewrite lower_idem. reflexivity. Qed.

(** X4: a codec name that is none of g711, g729 and opus (in any case) is
    not an error: it gives the result of g711. *)
Theorem emodel_mos_unknown_codec (d p : float) (codec : string) (b : float) :
  lower codec <> "g711"%string -> lower codec <> "g729"%string ->
  lower codec <> "opus"%string ->
  emodel_mos d p codec b = emodel_mos d p "g711" b.
Proof.
  intros H1 H2 H3. unfold emodel_mos.
  replace (dict_get CODEC_PARAMS (lower codec)
             (dict_get CODEC_PARAMS "g711" (f0, f0)))
    with (dict_get CODEC_PARAMS (lower "g711")
            (dict_get CODEC_PARAMS "g711" (f0, f0))); [reflexivity|].
  unfold CODEC_PARAMS. cbn [dict_get].
  destruct (String.eqb_spec "g711" (lower codec)); [congruence|].
  destruct (String.eqb_spec "g729" (lower codec)); [congruence|].
  destruct (String.eqb_spec "opus" (lower codec)); [congruence|].
  reflexivity.
Qed.

Lemma emodel_mos_unknown_codec_witness :
  emodel_mos (of_Z 20) (of_Z 1) "PCMU" f1 = emodel_mos (of_Z 20) (of_Z 1) "g711" f1.
Proof.
  apply emodel_mos_unknown_codec; vm_compute; discriminate.
Defined.

Lemma py_max_f0_clamp (x : float) : flt f0 x = false -> py_max f0 x = f0.
Proof. intros H. unfold py_max. rewrite H. reflexivity. Qed.

Lemma py_max_f0_keep (x : float) : flt f0 x = true -> py_max f0 x = x.
Proof. intros H. unfold py_max. rewrite H. reflexivity. Qed.

(** X5: a delay that is not greater than 0 (negative, a zero, or NaN) is
    taken as 0. *)
Theorem emodel_mos_clamps_delay (d p : float) (codec : string) (b : float) :
  flt f0 d = false -> emodel_mos d p codec b = emodel_mos f0 p codec b.
Proof.
  intros Hd. unfold emodel_mos. cbv zeta.
  rewrite (py_max_f0_clamp d Hd), (py_max_f0_clamp f0) by reflexivity.
  reflexivity.
Qed.

Lemma emodel_mos_clamps_delay_witness :
  emodel_mos (fsub f0 (of_Z 30)) (of_Z 2) "opus" f1
  = emodel_mos f0 (of_Z 2) "opus" f1.
Proof. apply emodel_mos_clamps_delay. vm_compute. reflexivity. Defined.

(** X6: a loss percent that is not greater than 0 (negative, a zero, or
    NaN) is taken as 0: the result is the one for loss 0, Ie_eff is the Ie
    of the codec, the burst factor plays no role, and nothing is raised
    whatever the burst factor is. *)
Theorem emodel_mos_clamps_loss (d p : float) (codec : string) (b b' : float) :
  flt f0 p = false ->
  emodel_mos d p codec b = emodel_mos d f0 codec b'
  /\ exists mos R Id,
       emodel_mos d p codec b = Some (mos, R, Id, fst (codec_profile codec)).
Proof.
  intros Hp. unfold emodel_mos, codec_profile. cbv zeta.
  rewrite (py_max_f0_clamp p Hp), (py_max_f0_clamp f0) by reflexivity.
  destruct (dict_get CODEC_PARAMS _ _) as [Ie Bpl].
  change (flt f0 f0) with false. cbv iota.
  unfold mbind, option_bind. split; [reflexivity|]. eauto.
Qed.

Lemma emodel_mos_clamps_loss_witness :
  emodel_mos (of_Z 80) (fsub f0 (of_Z 3)) "g729" f0
    = emodel_mos (of_Z 80) f0 "g729" f1
  /\ exists mos R Id,
       emodel_mos (of_Z 80) (fsub f0 (of_Z 3)) "g729" f0
       = Some (mos, R, Id, fst (codec_profile "g729")).
Proof. apply emodel_mos_clamps_loss. vm_compute. reflexivity. Defined.

Lemma codec_profile_Bpl_nonzero (codec : string) :
  exists Ie mB eB, codec_profile codec = (Ie, S754_finite false mB eB).
Proof.
  unfold codec_profile.
  destruct (codec_profile_cases codec) as [E | [E | E]]; rewrite E;
    eexists _, _, _; reflexivity.
Qed.

(** X7: [emodel_mos] raises [ZeroDivisionError] in exactly one situation:
    the loss percent is greater than 0 and [p/Bpl + burstR] is a zero (a
    burst factor of [-p/Bpl], or of 0 with a loss so small that [p/Bpl]
    underflows). *)
Theorem emodel_mos_raises_iff (d p : float) (codec : string) (b : float) :
  emodel_mos d p codec b = None
  <-> flt f0 p = true
      /\ is_zero (fadd (fdiv p (snd (codec_profile codec))) b) = true.
Proof.
  unfold emodel_mos. cbv zeta.
  destruct (codec_profile_Bpl_nonzero codec) as (Ie & mB & eB & E).
  unfold codec_profile in *. rewrite E. cbn [snd].
  destruct (flt f0 p) eqn:Hp.
  - rewrite (py_max_f0_keep p Hp), Hp. unfold py_div.
    change (is_zero (S754_finite false mB eB)) with false. cbv iota.
    unfold mbind, option_bind.
    destruct (is_zero (fadd (fdiv p (S754_finite false mB eB)) b));
      split; intros H; try discriminate; auto.
    destruct H; discriminate.
  - rewrite (py_max_f0_clamp p Hp).
    change (flt f0 f0) with false. cbv iota. unfold mbind, option_bind.
    split; [discriminate|]. intros [H _]. discriminate.
Qed.

(** A burst factor of -1 with a loss of 25 percent on g711. *)
Example emodel_mos_raises :
  emodel_mos (of_Z 20) (of_Z 25) "g711" (fsub f0 f1) = None.
Proof. vm_compute. reflexivity. Qed.

(** The sum of a float that is not negative and a positive float is not a
    zero. *)
Lemma fadd_positive_nonzero (x y : float) :
  (forall m e, x <> S754_finite true m e) -> positive_float y ->
  is_zero (fadd x y) = false.
Proof.
  intros Hx [Hy Hv].
  destruct (flt_f0_shape y Hy) as [-> | (my & ey & ->)].
  { destruct x as [s | [] | | s m e]; reflexivity. }
  destruct x as [s | s | | [] m e]; try reflexivity.
  { exfalso. eapply Hx. reflexivity. }
  cbn [valid_binary] in Hv. unfold bounded, canonical_mantissa in Hv.
  apply andb_prop in Hv as [Hc _]. apply Z.eqb_eq in Hc.
  unfold fadd, SFadd. cbn [cond_Zopp].
  set (ez := Z.min e ey).
  pose proof (shl_align_digits my ey ez) as Hd.
  rewrite shl_align_exp in Hd.
  set (a := fst (shl_align m e ez)).
  set (b := fst (shl_align my ey ez)) in *.
  change (Z.pos a + Z.pos b) with (Z.pos (a + b)).
  cbn [binary_normalize]. apply binary_round_nonzero.
  pose proof (digits2_pos_bounds b) as [Hlo _].
  pose proof (digits2_pos_bounds (a + b)) as [_ Hhi].
  assert (Hlt : Z.pos (digits2_pos b) - 1 < Z.pos (digits2_pos (a + b))).
  { apply pow2_lt_exp; lia. }
  unfold fexp, emin, prec, emax in *. lia.
Qed.

Lemma loss_term_returns (Ie Ppl b : float) (mB : positive) (eB : Z) :
  flt f0 Ppl = true -> positive_float b ->
  exists v,
    (q ← py_div Ppl (S754_finite false mB eB);
     t ← py_div (fmul (fsub (of_Z 95) Ie) Ppl) (fadd q b);
     Some (fadd Ie t)) = Some v.
Proof.
  intros HP Hb. unfold py_div.
  change (is_zero (S754_finite false mB eB)) with false. cbv iota.
  unfold mbind, option_bind.
  rewrite (fadd_positive_nonzero _ b (fdiv_pos_not_neg Ppl mB eB HP) Hb).
  eauto.
Qed.

Lemma emodel_mos_returns (d p : float) (codec : string) (b : float) :
  positive_float b ->
  exists mos R Id Ie_eff,
    emodel_mos d p codec b = Some (mos, R, Id, Ie_eff) /\ mos_ok mos.
Proof.
  intros Hb. unfold emodel_mos.
  destruct (codec_profile_Bpl_nonzero codec) as (Ie & mB & eB & E).
  unfold codec_profile in E. rewrite E.
  set (Ppl := py_max f0 p). set (Id := fadd _ _).
  destruct (flt f0 Ppl) eqn:HP.
  - destruct (loss_term_returns Ie Ppl b mB eB HP Hb) as [v ->].
    unfold mbind, option_bind. eexists _, _, _, _. split; [reflexivity|].
    apply mos_of_R_range.
  - unfold mbind, option_bind. eexists _, _, _, _. split; [reflexivity|].
    apply mos_of_R_range.
Qed.

(** X8: for every positive burst factor (not only 1.0), every delay, loss
    percent and codec name, [emodel_mos] returns, and the MOS it returns
    lies in [1.0, 4.5]. *)
Theorem emodel_mos_positive_burst (d p : float) (codec : string) (b : float) :
  positive_float b ->
  exists mos R Id Ie_eff,
    emodel_mos d p codec b = Some (mos, R, Id, Ie_eff) /\ mos_ok mos.
Proof. exact (emodel_mos_returns d p codec b). Qed.

Lemma emodel_mos_positive_burst_witness :
  exists mos R Id Ie_eff,
    emodel_mos (of_Z 120) (of_Z 3) "opus" (dec 25 10)
      = Some (mos, R, Id, Ie_eff) /\ mos_ok mos.
Proof.
  apply emodel_mos_positive_burst. split; vm_compute; reflexivity.
Defined.

(** ** The jitter filter: its fixed points *)

(** X9: a transit delta whose size equals the current jitter leaves the
    jitter exactly as it is, for every finite value: J = |delta| is the
    fixed point of the filter (0 being the case of a zero delta). *)
Theorem jitter_fixed_point (delta : float) :
  is_finite delta = true ->
  rfc3550_jitter_update (py_abs delta) delta = py_abs delta.
Proof.
  destruct delta as [s | s | | s m e]; try discriminate; intros _.
  - destruct s; reflexivity.
  - unfold rfc3550_jitter_update, py_abs. cbn [SFabs].
    unfold fsub, SFsub. cbn [cond_Zopp]. rewrite Z.sub_diag.
    cbn [binary_normalize].
    change (of_Z 16) with (S754_finite false 4503599627370496 (-48)).
    reflexivity.
Qed.

Lemma jitter_fixed_point_witness :
  rfc3550_jitter_update (py_abs (fsub f0 (dec 35 10))) (fsub f0 (dec 35 10))
  = py_abs (fsub f0 (dec 35 10)).
Proof. apply jitter_fixed_point. vm_compute. reflexivity. Defined.

(** ** The measurement loop: exceptions *)

Lemma emodel_mos_shape (d p : float) (codec : string) (b : float) :
  emodel_mos d p codec b = None
  \/ exists R Id Ie_eff,
       emodel_mos d p codec b = Some (mos_of_R R, R, Id, Ie_eff).
Proof.
  unfold emodel_mos. destruct (dict_get CODEC_PARAMS _ _) as [Ie Bpl].
  cbv zeta.
  destruct (if flt f0 (py_max f0 p) then _ else _) as [v|];
    unfold mbind, option_bind; [right|left; reflexivity].
  eexists _, _, _. reflexivity.
Qed.

Lemma emodel_mos_Some_ok (d p : float) (codec : string) (b : float)
    (mos R Id Ie_eff : float) :
  emodel_mos d p codec b = Some (mos, R, Id, Ie_eff) -> mos_ok mos.
Proof.
  intros E. destruct (emodel_mos_shape d p codec b) as [H | (R' & Id' & Ie' & H)];
    rewrite H in E; [discriminate|].
  injection E as <- _ _ _. apply mos_of_R_range.
Qed.

(** The gate of lines 166-167: past the warm-up, with three samples. *)
Lemma sample_mos_inv (cfg : config) (ss : session) (oneway : list float)
    (loss clock : float)
    (m : option float * option float * option float * option float) :
  sample_mos cfg ss oneway loss clock = Ok m ->
  if gt_Z (fsub clock (start ss)) (cfg_warmup cfg)
     && (2 <? Z.of_nat (length oneway))
  then exists mos R Id Ie_eff,
         m = (Some mos, Some R, Some Id, Some Ie_eff) /\ mos_ok mos
  else m = (None, None, None, None).
Proof.
  unfold sample_mos.
  destruct (gt_Z _ _ && _); [|intros [= <-]; reflexivity].
  intros H. apply bind_Ok_inv in H as (avg & _ & H).
  apply bind_Ok_inv in H as ([[[mos R] Id] Ie_eff] & He & H).
  injection H as <-. apply of_option_Ok, emodel_mos_Some_ok in He.
  eexists _, _, _, _. split; [reflexivity|exact He].
Qed.

Lemma sample_mos_returns (cfg : config) (ss : session) (oneway : list float)
    (loss clock : float) :
  positive_float (cfg_burstR cfg) ->
  exists m, sample_mos cfg ss oneway loss clock = Ok m.
Proof.
  intros Hb. unfold sample_mos. destruct (gt_Z _ _ && _); [|eauto].
  unfold py_div. rewrite of_Z_nonzero by lia. cbn [of_option].
  set (avg := fdiv _ _).
  destruct (emodel_mos_returns avg loss (cfg_codec cfg) (cfg_burstR cfg) Hb)
    as (mos & R & Id & Ie_eff & E & _).
  unfold mbind, outcome_bind. cbv beta iota. rewrite E. cbn [of_option]. eauto.
Qed.

Lemma mean_or_zero_returns (xs : list float) : is_Some (mean_or_zero xs).
Proof.
  unfold mean_or_zero. destruct xs as [| x xs]; [eauto|].
  unfold py_div. rewrite of_Z_nonzero by (cbn [length]; lia). eauto.
Qed.

Lemma total_loss_returns (sent recv : Z) : is_Some (total_loss sent recv).
Proof.
  unfold total_loss. destruct (Z.eqb_spec sent 0); [eauto|].
  apply int_truediv_Some. assumption.
Qed.

Lemma report_phase_returns (cfg : config) (st : client) (now : float) :
  positive_float (cfg_burstR cfg) ->
  exists st', report_phase cfg st now = Ok st'.
Proof.
  intros Hb. unfold report_phase. destruct (fle (next_report st) now); [|eauto].
  destruct (mean_or_zero_returns (rtt_samples st)) as [a1 ->].
  destruct (mean_or_zero_returns (oneway_samples st)) as [a2 ->].
  destruct (total_loss_returns (total_sent st) (total_recv st)) as [l1 ->].
  destruct (window_loss_percent (window st) (received st)) as (l2 & -> & _).
  cbn [of_option]. unfold mbind, outcome_bind. cbv beta iota.
  destruct (emodel_mos_returns a2 l2 (cfg_codec cfg) (cfg_burstR cfg) Hb)
    as (mos & R & Id & Ie_eff & -> & _).
  cbn [of_option]. eauto.
Qed.

Lemma recv_phase_returns (cfg : config) (ss : session) (st : client)
    (r : recv_result) :
  positive_float (cfg_burstR cfg) -> r <> RecvFail ->
  exists st' fl, recv_phase cfg ss st r = Ok (st', fl).
Proof.
  intros Hb Hr. unfold recv_phase.
  destruct r as [| | data recv_ns clock stamp]; [eauto | contradiction |].
  destruct (PKT_SIZE <=? Z.of_nat (length data)); [|eauto].
  destruct (unpack _) as [[r_seq s_ns] magic].
  destruct (negb (magic =? MAGIC)); [eauto|].
  destruct (decide (r_seq ∈ received st)); [eauto|].
  destruct (sent_times st !! r_seq) as [t0|]; [|eauto].
  destruct (window_loss_percent (window st) ({[r_seq]} ∪ received st))
    as (loss & -> & _).
  cbn [of_option]. unfold mbind, outcome_bind. cbv beta iota.
  destruct (sample_mos_returns cfg ss
              (oneway_samples st
                 ++ [fdiv (fdiv (of_Z (recv_ns - t0)) (of_Z 1000000)) (of_Z 2)])
              loss clock Hb) as [m ->].
  cbn. eauto.
Qed.

(** What an iteration can raise, given a positive burst factor: the
    error of [PKT_STRUCT.pack] or the one of [recvfrom]; no division of the
    send, receive or report block fails. *)
Lemma iteration_raised_cases (cfg : config) (ss : session) (st : client)
    (ev : event) (e : exn) :
  positive_float (cfg_burstR cfg) ->
  iteration cfg ss st ev = Raised e ->
  (e = StructError /\ pack (seq st) (ev_send_ns ev) MAGIC = None)
  \/ (e = SocketError /\ ev_recv ev = RecvFail).
Proof.
  intros Hb. unfold iteration.
  destruct (expired cfg ss (ev_now ev)); [discriminate|].
  destruct (send_phase ss st _ _ _) as [st1 | e1] eqn:Hs.
  - destruct (ev_recv ev) as [| | data recv_ns clock stamp] eqn:Hr.
    + cbn [recv_phase].
      destruct (report_phase_returns cfg st1 (ev_now ev) Hb) as [st3 ->].
      discriminate.
    + cbn [recv_phase]. intros [= <-]. right. split; reflexivity.
    + destruct (recv_phase_returns cfg ss st1
                  (RecvData data recv_ns clock stamp) Hb ltac:(discriminate))
        as (st2 & fl & ->).
      destruct fl; [|discriminate].
      destruct (report_phase_returns cfg st2 (ev_now ev) Hb) as [st3 ->].
      discriminate.
  - intros [= <-]. left. unfold send_phase in Hs.
    destruct (fle (next_send st) (ev_now ev)); [|discriminate].
    destruct (pack (seq st) (ev_send_ns ev) MAGIC); [discriminate|].
    cbn in Hs. injection Hs as <-. split; reflexivity.
Qed.

(** X10: with a positive burst factor no iteration of the loop fails on a
    division by zero: none of the divisions of lines 151-168 and 189-196,
    nor the one inside [emodel_mos], raises [ZeroDivisionError], whatever
    the state and whatever the clock and the socket deliver. *)
Theorem iteration_no_zero_division (cfg : config) (ss : session)
    (st : client) (ev : event) :
  positive_float (cfg_burstR cfg) ->
  iteration cfg ss st ev <> Raised ZeroDivisionError.
Proof.
  intros Hb H.
  destruct (iteration_raised_cases cfg ss st ev ZeroDivisionError Hb H)
    as [[E _] | [E _]]; discriminate.
Qed.

Lemma iteration_no_zero_division_witness :
  iteration cfgA ssA stB
    {| ev_now := dec 100004 100; ev_send_ns := 1000040000000;
       ev_send := SendOk; ev_recv := RecvTimeout |}
  <> Raised ZeroDivisionError.
Proof.
  apply (iteration_no_zero_division cfgA ssA stB
           {| ev_now := dec 100004 100; ev_send_ns := 1000040000000;
              ev_send := SendOk; ev_recv := RecvTimeout |}).
  split; vm_compute; reflexivity.
Defined.

(** ** The measurement loop: the shape of the state *)

Lemma deque_append_elem (m : Z) (w : list Z) (x k : Z) :
  k ∈ deque_append m w x -> k ∈ w \/ k = x.
Proof.
  unfold deque_append. intros H.
  assert (Hin : k ∈ w ++ [x]).
  { destruct (m <? Z.of_nat (length (w ++ [x]))); [|exact H].
    destruct (w ++ [x]) as [| y l]; [exact H|]. cbn [tail] in H.
    apply elem_of_cons. right. exact H. }
  apply elem_of_app in Hin as [|Hin]; [auto|].
  apply list_elem_of_singleton in Hin. auto.
Qed.

Lemma deque_append_length (m : Z) (w : list Z) (x : Z) :
  1 <= m -> Z.of_nat (length w) <= m ->
  Z.of_nat (length (deque_append m w x))
  = Z.min (Z.of_nat (length w) + 1) m.
Proof.
  intros Hm Hw. unfold deque_append. rewrite length_app. cbn [length].
  destruct (Z.ltb_spec m (Z.of_nat (length w + 1))).
  - destruct w as [| y w]; cbn [length] in *; [lia|].
    cbn [app tail]. rewrite length_app. cbn [length]. lia.
  - rewrite length_app. cbn [length]. lia.
Qed.

Lemma mos_ok_truthy (x : float) : mos_ok x -> truthy x = true.
Proof. intros [H _]. destruct x as [s | | |]; try reflexivity. discriminate H. Qed.

(** The ways in which the receive block ends normally. *)
Lemma recv_phase_inv (cfg : config) (ss : session) (st st' : client)
    (r : recv_result) (fl : flow) :
  recv_phase cfg ss st r = Ok (st', fl) ->
  st' = st
  \/ exists data recv_ns clock stamp r_seq s_ns,
       r = RecvData data recv_ns clock stamp
       /\ unpack (take (Z.to_nat PKT_SIZE) data) = (r_seq, s_ns, MAGIC)
       /\ (r_seq ∉ received st) /\ fl = Next
       /\ ((sent_times st !! r_seq = None
            /\ st' = mkClient (sent_times st) ({[r_seq]} ∪ received st)
                       (rtt_samples st) (oneway_samples st) (window st)
                       (window_maxlen st) (last_transit_ms st) (J_ms st)
                       (total_sent st) (total_recv st) (seq st)
                       (next_send st) (next_report st) (csv_rows st)
                       (console st))
           \/ exists t0 loss m rtt_ms transit J,
                sent_times st !! r_seq = Some t0
                /\ window_loss (window st) ({[r_seq]} ∪ received st) = Some loss
                /\ sample_mos cfg ss (oneway_samples st ++ [fdiv rtt_ms (of_Z 2)])
                     loss clock = Ok m
                /\ rtt_ms = fdiv (of_Z (recv_ns - t0)) (of_Z 1000000)
                /\ st' = mkClient (sent_times st) ({[r_seq]} ∪ received st)
                           (rtt_samples st ++ [rtt_ms])
                           (oneway_samples st ++ [fdiv rtt_ms (of_Z 2)])
                           (window st) (window_maxlen st) (Some transit) J
                           (total_sent st) (total_recv st + 1) (seq st)
                           (next_send st) (next_report st)
                           (if csv_enabled cfg then
                              csv_rows st
                                ++ [csv_row stamp r_seq rtt_ms
                                      (fdiv rtt_ms (of_Z 2)) J loss m]
                            else csv_rows st)
                           (console st)).
Proof.
  unfold recv_phase.
  destruct r as [| | data recv_ns clock stamp];
    [intros [= <- _]; auto | discriminate |].
  destruct (PKT_SIZE <=? Z.of_nat (length data)); [|intros [= <- _]; auto].
  destruct (unpack _) as [[r_seq s_ns] magic] eqn:Hun.
  destruct (Z.eqb_spec magic MAGIC) as [-> |]; cbn [negb];
    [|intros [= <- _]; auto].
  destruct (decide (r_seq ∈ received st)) as [|Hnew]; [intros [= <- _]; auto|].
  intros H. right. exists data, recv_ns, clock, stamp, r_seq, s_ns.
  split; [reflexivity|]. split; [exact Hun|]. split; [exact Hnew|].
  destruct (sent_times st !! r_seq) as [t0|].
  - apply bind_Ok_inv in H as (loss & Hl & H). apply of_option_Ok in Hl.
    apply bind_Ok_inv in H as (m & Hm & H). injection H as <- <-.
    split; [reflexivity|]. right.
    eexists t0, loss, m, _, _, _. repeat (split; [eassumption || reflexivity|]).
    reflexivity.
  - injection H as <- <-. split; [reflexivity|]. left. split; reflexivity.
Qed.

Lemma wf_init (cfg : config) (t1 t2 t3 : float) (ss : session) (st : client) :
  init cfg t1 t2 t3 = Some (ss, st) -> wf cfg st.
Proof.
  unfold init. destruct (py_div f1 (of_Z (cfg_pps cfg))); [|discriminate].
  cbn. intros [= <- <-].
  constructor; cbn; try reflexivity; try lia; try (intros k Hk; set_solver).
  - destruct (csv_enabled cfg); [|reflexivity].
    exists []. repeat split. constructor.
  - constructor.
Qed.

Lemma wf_send (cfg : config) (ss : session) (st st' : client) (now : float)
    (send_ns : Z) (res : send_result) :
  inv st -> wf cfg st -> send_phase ss st now send_ns res = Ok st' ->
  wf cfg st'.
Proof.
  intros Hinv Hwf. unfold send_phase.
  destruct (fle (next_send st) now); [|intros [= <-]; exact Hwf].
  destruct (pack (seq st) send_ns MAGIC); cbn; [|discriminate].
  intros [= <-]. destruct Hinv as (_ & _ & _ & Hseq & _).
  destruct Hwf as [H1 H2 H3 H4 H4' H5 H6 H7 H8 H9 H10 H11].
  destruct res as [| err]; constructor; cbn; try assumption.
  - pose proof (deque_append_length (window_maxlen st) (window st) (seq st)).
    lia.
  - pose proof (deque_append_length (window_maxlen st) (window st) (seq st)).
    lia.
  - pose proof (deque_append_length (window_maxlen st) (window st) (seq st)).
    lia.
  - intros _ E.
    pose proof (deque_append_length (window_maxlen st) (window st) (seq st))
      as Hl.
    rewrite E in Hl. cbn in Hl. lia.
  - intros k Hk. rewrite dom_insert_L.
    apply elem_of_union.
    apply deque_append_elem in Hk as [Hk | ->];
      [right; apply H7, Hk | left; apply elem_of_singleton; reflexivity].
  - intros k Hk. rewrite dom_insert_L in Hk.
    apply elem_of_union in Hk as [Hk | Hk]; [|auto].
    apply elem_of_singleton in Hk. subst k. exact Hseq.
  - apply Forall_app. split; [assumption|]. repeat constructor.
Qed.

Lemma wf_recv (cfg : config) (ss : session) (st st' : client)
    (r : recv_result) (fl : flow) :
  wf cfg st -> recv_phase cfg ss st r = Ok (st', fl) -> wf cfg st'.
Proof.
  intros Hwf H.
  apply recv_phase_inv in H
    as [-> | (data & recv_ns & clock & stamp & r_seq & s_ns & _ & Hun & Hnew
              & _ & H)]; [exact Hwf|].
  pose proof (unpack_fields_range data) as Hr. rewrite Hun in Hr.
  destruct Hr as (Hr & _ & _).
  assert (Hrcv : forall k, k ∈ {[r_seq]} ∪ received st -> 0 <= k < 2 ^ 32).
  { intros k Hk. apply elem_of_union in Hk as [Hk | Hk].
    - apply elem_of_singleton in Hk. subst k. exact Hr.
    - apply (wf_received_u32 cfg st Hwf), Hk. }
  destruct Hwf as [H1 H2 H3 H4 H4' H5 H6 H7 H8 H9 H10 H11].
  destruct H as [[_ ->] | (t0 & loss & m & rtt & transit & J & _ & Hl & Hm & _
                          & ->)];
    constructor; cbn; try assumption.
  - rewrite length_app. cbn [length]. lia.
  - rewrite length_app. cbn [length]. lia.
  - destruct (csv_enabled cfg); [|assumption].
    destruct H10 as (rows & E & Hlen & Hrows). rewrite E.
    eexists. split; [rewrite <- app_comm_cons; reflexivity|].
    split; [rewrite length_app; cbn [length]; lia|].
    apply Forall_app. split; [assumption|]. constructor; [|constructor].
    destruct (window_loss_percent (window st) ({[r_seq]} ∪ received st))
      as (loss' & El & Hrange).
    rewrite Hl in El. injection El as <-.
    apply sample_mos_inv in Hm.
    destruct (gt_Z _ _ && _).
    + destruct Hm as (mos & R & Id & Ie_eff & -> & Hmos).
      unfold row_sane, csv_row. eexists _, _, _, _, _, _, _, _, _, _.
      split; [reflexivity|]. split; [exact Hr|]. split; [exact Hrange|].
      right. exists mos. cbn [opt_cell]. rewrite (mos_ok_truthy mos Hmos).
      split; [reflexivity|exact Hmos].
    + subst m. unfold row_sane, csv_row. eexists _, _, _, _, _, _, _, _, _, _.
      split; [reflexivity|]. split; [exact Hr|]. split; [exact Hrange|].
      left. reflexivity.
Qed.

Lemma wf_report (cfg : config) (st st' : client) (now : float) :
  inv st -> wf cfg st -> report_phase cfg st now = Ok st' -> wf cfg st'.
Proof.
  intros Hinv Hwf. unfold report_phase.
  destruct (fle (next_report st) now); [|intros [= <-]; exact Hwf].
  intros H.
  apply bind_Ok_inv in H as (avg_rtt & _ & H).
  apply bind_Ok_inv in H as (avg_oneway & _ & H).
  apply bind_Ok_inv in H as (loss_total & Hl & H).
  apply bind_Ok_inv in H as (loss_win & Hw & H).
  apply bind_Ok_inv in H as ([[[mos R] Id] Ie_eff] & He & H).
  injection H as <-.
  apply of_option_Ok in Hl, Hw, He.
  destruct (total_loss_percent (total_sent st) (total_recv st)
              (inv_counts st Hinv)) as (x & Hx & Hxr).
  rewrite Hx in Hl. injection Hl as <-.
  destruct (window_loss_percent (window st) (received st)) as (y & Hy & Hyr).
  rewrite Hy in Hw. injection Hw as <-.
  apply emodel_mos_Some_ok in He.
  destruct Hwf as [H1 H2 H3 H4 H4' H5 H6 H7 H8 H9 H10 H11].
  constructor; cbn; try assumption.
  apply Forall_app. split; [assumption|]. constructor; [|constructor].
  cbn. pose proof (inv_counts st Hinv). auto.
Qed.

Lemma reachable_wf (cfg : config) (ss : session) (st : client) :
  reachable cfg ss st -> wf cfg st.
Proof.
  induction 1 as [t1 t2 t3 st Hi | st ev st' Hr IH Hit].
  - eapply wf_init, Hi.
  - pose proof (reachable_inv cfg ss st Hr) as Hinv.
    unfold iteration in Hit.
    destruct (expired cfg ss (ev_now ev)); [discriminate|].
    destruct (send_phase ss st _ _ _) as [st1|] eqn:Hs; [|discriminate].
    pose proof (inv_send _ _ _ _ _ _ Hinv Hs) as Hinv1.
    pose proof (wf_send cfg _ _ _ _ _ _ Hinv IH Hs) as Hwf1.
    destruct (recv_phase cfg ss st1 _) as [[st2 []]|] eqn:Hrv;
      [| |discriminate].
    + pose proof (inv_recv _ _ _ _ _ _ Hinv1 Hrv) as Hinv2.
      pose proof (wf_recv _ _ _ _ _ _ Hwf1 Hrv) as Hwf2.
      destruct (report_phase cfg st2 _) as [st3|] eqn:Hp; [|discriminate].
      injection Hit as <-. eapply wf_report; eassumption.
    + injection Hit as <-. eapply wf_recv; eassumption.
Qed.

(** X11: the sliding window holds exactly the last
    [min(total_sent, maxlen)] successfully sent sequence numbers' worth of
    entries, where [maxlen = max(10 * pps, 100)]: it never exceeds its
    bound, it is empty exactly as long as nothing has been sent, and every
    entry has a send time on record. *)
Theorem window_bounded (cfg : config) (ss : session) (st : client) :
  reachable cfg ss st ->
  window_maxlen st = Z.max (cfg_pps cfg * 10) 100
  /\ Z.of_nat (length (window st)) = Z.min (total_sent st) (window_maxlen st)
  /\ (window st = [] <-> total_sent st = 0)
  /\ forall k, k ∈ window st -> is_Some (sent_times st !! k).
Proof.
  intros Hr. pose proof (reachable_wf cfg ss st Hr) as Hwf.
  pose proof (inv_counts st (reachable_inv cfg ss st Hr)) as Hc.
  destruct Hwf as [H1 H2 H3 H4 H4' H5 H6 H7 H8 H9 H10 H11].
  split; [exact H3|]. split; [exact H4'|]. split.
  - split.
    + intros E. rewrite E in H4'. cbn in H4'. lia.
    + intros E. destruct (window st); [reflexivity|]. cbn [length] in H5. lia.
  - intros k Hk. apply elem_of_dom, H7, Hk.
Qed.

Lemma window_bounded_witness :
  window_maxlen stC = Z.max (cfg_pps cfgA * 10) 100
  /\ Z.of_nat (length (window stC)) = Z.min (total_sent stC) (window_maxlen stC)
  /\ (window stC = [] <-> total_sent stC = 0)
  /\ forall k, k ∈ window stC -> is_Some (sent_times stC !! k).
Proof. exact (window_bounded cfgA ssA stC reachable_stC). Defined.

(** X12: there is one RTT sample, one one-way sample and, when the CSV
    export is on, one row after the header for every sample counted in
    [total_recv]; without the export nothing is written.  Every row has the
    ten fields of the header, a 32-bit sequence number, a window loss in
    [0, 100], and a MOS field that is empty or a value in [1.0, 4.5]. *)
Theorem one_row_per_sample (cfg : config) (ss : session) (st : client) :
  reachable cfg ss st ->
  Z.of_nat (length (rtt_samples st)) = total_recv st
  /\ Z.of_nat (length (oneway_samples st)) = total_recv st
  /\ if csv_enabled cfg then
       exists rows,
         csv_rows st = csv_header :: rows
         /\ Z.of_nat (length rows) = total_recv st
         /\ Forall row_sane rows
     else csv_rows st = [].
Proof.
  intros Hr. destruct (reachable_wf cfg ss st Hr). auto.
Qed.

Lemma one_row_per_sample_witness :
  Z.of_nat (length (rtt_samples stC)) = total_recv stC
  /\ Z.of_nat (length (oneway_samples stC)) = total_recv stC
  /\ if csv_enabled cfgA then
       exists rows,
         csv_rows stC = csv_header :: rows
         /\ Z.of_nat (length rows) = total_recv stC
         /\ Forall row_sane rows
     else csv_rows stC = [].
Proof. exact (one_row_per_sample cfgA ssA stC reachable_stC). Defined.

(** X13: every summary line printed reports no more received than sent, a
    cumulative and a window loss percent in [0, 100], and a MOS in
    [1.0, 4.5]. *)
Theorem summary_lines_sane (cfg : config) (ss : session) (st : client) :
  reachable cfg ss st -> Forall line_sane (console st).
Proof. intros Hr. apply (wf_console cfg st), (reachable_wf cfg ss), Hr. Qed.

Lemma summary_lines_sane_witness : Forall line_sane (console stC).
Proof. exact (summary_lines_sane cfgA ssA stC reachable_stC). Defined.

(** X14: the received set and the pending map only ever hold sequence
    numbers of 32 bits, whatever datagrams arrive. *)
Theorem keys_are_u32 (cfg : config) (ss : session) (st : client) (k : Z) :
  reachable cfg ss st ->
  k ∈ received st \/ is_Some (sent_times st !! k) ->
  0 <= k < 2 ^ 32.
Proof.
  intros Hr [Hk | Hk].
  - apply (wf_received_u32 cfg st (reachable_wf cfg ss st Hr)), Hk.
  - apply (wf_sent_u32 cfg st (reachable_wf cfg ss st Hr)), elem_of_dom, Hk.
Qed.

Lemma keys_are_u32_witness : 2 ∈ received stC /\ 0 <= 2 < 2 ^ 32.
Proof.
  assert (H : 2 ∈ received stC)
    by (apply (bool_decide_unpack _); vm_compute; exact I).
  split; [exact H|].
  apply (keys_are_u32 cfgA ssA stC 2 reachable_stC). left. exact H.
Defined.

(** ** The measurement loop: what an iteration changes *)

Lemma grows_refl (st : client) : grows st st.
Proof. unfold grows. repeat split; reflexivity. Qed.

Lemma grows_trans (st1 st2 st3 : client) :
  grows st1 st2 -> grows st2 st3 -> grows st1 st3.
Proof.
  intros (A1 & A2 & A3 & A4 & A5 & A6 & A7 & A8)
         (B1 & B2 & B3 & B4 & B5 & B6 & B7 & B8).
  unfold grows. repeat split; try lia; etransitivity; eassumption.
Qed.

Lemma send_grows (ss : session) (st st' : client) (now : float) (send_ns : Z)
    (res : send_result) :
  send_phase ss st now send_ns res = Ok st' ->
  grows st st' /\ total_recv st' = total_recv st
  /\ total_sent st' <= total_sent st + 1.
Proof.
  unfold send_phase.
  destruct (fle (next_send st) now);
    [|intros [= <-]; split; [apply grows_refl|lia]].
  destruct (pack (seq st) send_ns MAGIC); cbn; [|discriminate].
  intros [= <-].
  destruct res as [| err]; unfold grows; cbn;
    repeat split; try reflexivity; try lia.
  - rewrite dom_insert_L. apply union_subseteq_r.
  - apply prefix_app_r. reflexivity.
Qed.

Lemma recv_grows (cfg : config) (ss : session) (st st' : client)
    (r : recv_result) (fl : flow) :
  recv_phase cfg ss st r = Ok (st', fl) ->
  grows st st' /\ total_sent st' = total_sent st
  /\ total_recv st' <= total_recv st + 1.
Proof.
  intros H.
  apply recv_phase_inv in H
    as [-> | (data & recv_ns & clock & stamp & r_seq & s_ns & _ & _ & _ & _
              & [[_ ->] | (t0 & loss & m & rtt & transit & J & _ & _ & _ & _
                           & ->)])];
    [split; [apply grows_refl|lia] | |];
    unfold grows; cbn; repeat split; try reflexivity; try lia;
    try apply union_subseteq_r; try (apply prefix_app_r; reflexivity).
  destruct (csv_enabled cfg); [apply prefix_app_r|]; reflexivity.
Qed.

Lemma report_grows (cfg : config) (st st' : client) (now : float) :
  report_phase cfg st now = Ok st' ->
  grows st st' /\ total_sent st' = total_sent st
  /\ total_recv st' = total_recv st.
Proof.
  unfold report_phase.
  destruct (fle (next_report st) now);
    [|intros [= <-]; split; [apply grows_refl|lia]].
  intros H.
  apply bind_Ok_inv in H as (avg_rtt & _ & H).
  apply bind_Ok_inv in H as (avg_oneway & _ & H).
  apply bind_Ok_inv in H as (loss_total & _ & H).
  apply bind_Ok_inv in H as (loss_win & _ & H).
  apply bind_Ok_inv in H as ([[[mos R] Id] Ie_eff] & _ & H).
  injection H as <-. unfold grows; cbn.
  repeat split; try reflexivity. apply prefix_app_r. reflexivity.
Qed.

(** X15: an iteration never takes anything back.  The received set and the
    pending map only gain entries (no pending probe is ever evicted), the
    RTT and one-way samples, the CSV rows and the printed lines are only
    appended to, and each of the two counters grows by at most one. *)
Theorem iteration_grows (cfg : config) (ss : session) (st st' : client)
    (ev : event) :
  iteration cfg ss st ev = Running st' ->
  grows st st'
  /\ total_sent st' <= total_sent st + 1
  /\ total_recv st' <= total_recv st + 1.
Proof.
  unfold iteration.
  destruct (expired cfg ss (ev_now ev)); [discriminate|].
  destruct (send_phase ss st _ _ _) as [st1|] eqn:Hs; [|discriminate].
  apply send_grows in Hs as (G1 & R1 & S1).
  destruct (recv_phase cfg ss st1 _) as [[st2 []]|] eqn:Hr; [| |discriminate];
    apply recv_grows in Hr as (G2 & S2 & R2).
  - destruct (report_phase cfg st2 _) as [st3|] eqn:Hp; [|discriminate].
    apply report_grows in Hp as (G3 & S3 & R3). intros [= <-].
    split; [eauto using grows_trans|]. lia.
  - intros [= <-]. split; [eauto using grows_trans|]. lia.
Qed.

Lemma iteration_grows_witness :
  grows st0A st1A
  /\ total_sent st1A <= total_sent st0A + 1
  /\ total_recv st1A <= total_recv st0A + 1.
Proof.
  apply (iteration_grows cfgA ssA st0A st1A (echoA 0)).
  vm_compute. reflexivity.
Defined.

(** ** The measurement loop: start, averaging, rows, echoes *)

(** X16: the arithmetic on the rate before the loop (lines 88-99), for a
    rate with [10 * |pps| < 2^31], which keeps [float(pps)] and the bound
    of the deque within what every build of CPython accepts: it fails in
    exactly one case, a rate of 0 packets per second, for which
    [1.0 / float(pps)] raises [ZeroDivisionError]; for every other such
    rate (a negative one too) the locals start with empty tables, counters
    at 0 and a window bound of [max(10 * pps, 100)]. *)
Theorem init_fails_iff (cfg : config) (t1 t2 t3 : float) :
  Z.abs (cfg_pps cfg) * 10 < 2 ^ 31 ->
  match init cfg t1 t2 t3 with
  | None => cfg_pps cfg = 0
  | Some (ss, st) =>
      cfg_pps cfg <> 0
      /\ total_sent st = 0 /\ total_recv st = 0 /\ seq st = 0
      /\ received st = ∅ /\ sent_times st = ∅ /\ window st = []
      /\ window_maxlen st = Z.max (cfg_pps cfg * 10) 100
      /\ J_ms st = f0 /\ last_transit_ms st = None /\ start ss = t1
  end.
Proof.
  intros _. unfold init, py_div.
  destruct (Z.eq_dec (cfg_pps cfg) 0) as [E | Hne].
  - rewrite E. cbn. reflexivity.
  - assert (Hz : is_zero (of_Z (cfg_pps cfg)) = false).
    { destruct (cfg_pps cfg) as [| p | p] eqn:E; [contradiction | |].
      - apply of_Z_nonzero. lia.
      - unfold of_Z, binary_normalize. apply binary_round_nonzero.
        unfold emin, prec, emax. lia. }
    rewrite Hz. cbn. repeat split. exact Hne.
Qed.

Lemma init_fails_iff_witness :
  match init cfgA (of_Z 1000) (of_Z 1000) (of_Z 1000) with
  | None => cfg_pps cfgA = 0
  | Some (ss, st) =>
      cfg_pps cfgA <> 0
      /\ total_sent st = 0 /\ total_recv st = 0 /\ seq st = 0
      /\ received st = ∅ /\ sent_times st = ∅ /\ window st = []
      /\ window_maxlen st = Z.max (cfg_pps cfgA * 10) 100
      /\ J_ms st = f0 /\ last_transit_ms st = None
      /\ start ss = of_Z 1000
  end.
Proof.
  apply (init_fails_iff cfgA (of_Z 1000) (of_Z 1000) (of_Z 1000)).
  vm_compute. reflexivity.
Defined.

Lemma slice_from_last_length {A} (xs : list A) (n : Z) :
  1 <= n ->
  Z.of_nat (length (slice_from xs (- n))) = Z.min n (Z.of_nat (length xs)).
Proof.
  intros Hn. unfold slice_from. destruct (Z.ltb_spec (- n) 0); [|lia].
  rewrite length_drop. lia.
Qed.

(** X17: for a rate of at least 1, once the MOS of a sample is no longer
    withheld (the elapsed time is above the warm-up and there are at least
    three one-way samples), the delay handed to [emodel_mos] at line 169
    is the rolling average: the sum of the last [min(pps, n)] of the [n]
    one-way samples, divided by exactly their number. *)
Theorem rolling_average_divisor (cfg : config) (ss : session)
    (oneway : list float) (loss clock : float) :
  1 <= cfg_pps cfg ->
  gt_Z (fsub clock (start ss)) (cfg_warmup cfg) = true ->
  2 < Z.of_nat (length oneway) ->
  exists tail : list float,
    tail `suffix_of` oneway
    /\ Z.of_nat (length tail) = Z.min (cfg_pps cfg) (Z.of_nat (length oneway))
    /\ sample_mos cfg ss oneway loss clock
       = ('(mos, R, Id, Ie_eff) ← of_option ZeroDivisionError
            (emodel_mos (fdiv (py_sum tail) (of_Z (Z.of_nat (length tail))))
               loss (cfg_codec cfg) (cfg_burstR cfg));
          Ok (Some mos, Some R, Some Id, Some Ie_eff)).
Proof.
  intros Hp Hw Hn. exists (slice_from oneway (- cfg_pps cfg)).
  split; [unfold slice_from; apply suffix_drop|].
  split; [apply slice_from_last_length; exact Hp|].
  unfold sample_mos. rewrite Hw.
  destruct (Z.ltb_spec 2 (Z.of_nat (length oneway))) as [_ | Hc]; [|lia].
  cbn [andb]. rewrite slice_from_last_length by exact Hp.
  replace (Z.max 1 (Z.min (Z.of_nat (length oneway)) (cfg_pps cfg)))
    with (Z.min (cfg_pps cfg) (Z.of_nat (length oneway))) by lia.
  unfold py_div. rewrite of_Z_nonzero by lia. reflexivity.
Qed.

Lemma rolling_average_divisor_witness :
  let cfg := {| cfg_pps := 2; cfg_duration := None; cfg_csv_path := None;
                cfg_codec := "g711"; cfg_burstR := f1; cfg_warmup := 0;
                cfg_report_every := 5 |} in
  let oneway := [of_Z 10; of_Z 12; of_Z 11; of_Z 13] in
  exists tail : list float,
    tail `suffix_of` oneway
    /\ Z.of_nat (length tail) = Z.min (cfg_pps cfg) (Z.of_nat (length oneway))
    /\ sample_mos cfg ssA oneway f0 (of_Z 1010)
       = ('(mos, R, Id, Ie_eff) ← of_option ZeroDivisionError
            (emodel_mos (fdiv (py_sum tail) (of_Z (Z.of_nat (length tail))))
               f0 (cfg_codec cfg) (cfg_burstR cfg));
          Ok (Some mos, Some R, Some Id, Some Ie_eff)).
Proof.
  intros cfg oneway.
  apply (rolling_average_divisor cfg ssA oneway f0 (of_Z 1010));
    [vm_compute; discriminate | vm_compute; reflexivity
    | vm_compute; reflexivity].
Defined.

(** X18: the row of an accepted sample, while the MOS is withheld (the
    elapsed time is not above the warm-up, or there are fewer than three
    one-way samples), ends in four empty fields; once it is not withheld,
    the MOS field is a number in [1.0, 4.5]. *)
Theorem mos_fields_gate (cfg : config) (ss : session) (st st' : client)
    (data : list Byte.byte) (recv_ns : Z) (clock : float) (stamp : string)
    (fl : flow) :
  recv_phase cfg ss st (RecvData data recv_ns clock stamp) = Ok (st', fl) ->
  csv_enabled cfg = true ->
  total_recv st' <> total_recv st ->
  exists row,
    csv_rows st' = csv_rows st ++ [row]
    /\ if gt_Z (fsub clock (start ss)) (cfg_warmup cfg)
          && (2 <? Z.of_nat (length (oneway_samples st')))
       then exists x, row !! 6%nat = Some (CellRound x 3) /\ mos_ok x
       else drop 6 row = [CellStr ""; CellStr ""; CellStr ""; CellStr ""].
Proof.
  intros H Hcsv Hne.
  apply recv_phase_inv in H
    as [-> | (data' & recv_ns' & clock' & stamp' & r_seq & s_ns & [= <- <- <- <-]
              & _ & _ & _
              & [[_ ->] | (t0 & loss & m & rtt & transit & J & _ & _ & Hm & _
                           & ->)])];
    [contradiction | cbn in Hne; contradiction |].
  cbn [csv_rows oneway_samples]. rewrite Hcsv.
  eexists. split; [reflexivity|].
  apply sample_mos_inv in Hm.
  destruct (gt_Z _ _ && _).
  - destruct Hm as (mos & R & Id & Ie_eff & -> & Hmos).
    exists mos. cbn [csv_row opt_cell]. rewrite (mos_ok_truthy mos Hmos).
    split; [reflexivity|exact Hmos].
  - subst m. reflexivity.
Qed.

Lemma mos_fields_gate_witness :
  exists row,
    csv_rows stB_recv = csv_rows stB_sent ++ [row]
    /\ if gt_Z (fsub (dec 100005 100) (start ssA)) (cfg_warmup cfgA)
          && (2 <? Z.of_nat (length (oneway_samples stB_recv)))
       then exists x, row !! 6%nat = Some (CellRound x 3) /\ mos_ok x
       else drop 6 row = [CellStr ""; CellStr ""; CellStr ""; CellStr ""].
Proof.
  apply (mos_fields_gate cfgA ssA stB_sent stB_recv (packetA 2) 1000060000000
           (dec 100005 100) "t" Next).
  - vm_compute. reflexivity.
  - vm_compute. reflexivity.
  - vm_compute. discriminate.
Defined.

(** X19: a probe that is sent and echoed by the responder is credited.  In
    every state of the loop with a positive burst factor, when a send is
    due, the clock fits 64 bits and the sequence number has not been
    received before, the reply of [run_server] to the packet passes the
    length, magic and duplicate checks: the received counter grows by one,
    the sequence number joins the received set, and the RTT sample is
    [(recv_ns - send_ns) / 1e6]. *)
Theorem echo_is_credited (cfg : config) (ss : session) (st : client)
    (now : float) (send_ns recv_ns : Z) (clock : float) (stamp : string) :
  reachable cfg ss st ->
  positive_float (cfg_burstR cfg) ->
  fle (next_send st) now = true ->
  0 <= send_ns < 2 ^ 64 ->
  seq st ∉ received st ->
  exists packet st1 st2,
    pack (seq st) send_ns MAGIC = Some packet
    /\ send_phase ss st now send_ns SendOk = Ok st1
    /\ recv_phase cfg ss st1
         (RecvData (run_server_turn packet) recv_ns clock stamp)
       = Ok (st2, Next)
    /\ total_recv st2 = total_recv st + 1
    /\ received st2 = {[seq st]} ∪ received st
    /\ rtt_samples st2
       = rtt_samples st ++ [fdiv (of_Z (recv_ns - send_ns)) (of_Z 1000000)].
Proof.
  intros Hr Hb Hnow Hns Hnew.
  destruct (reachable_inv cfg ss st Hr) as (_ & _ & _ & Hseq & _).
  destruct (unpack_of_pack (seq st) send_ns MAGIC Hseq Hns ltac:(unfold MAGIC; lia))
    as (packet & Hp & Hlen & Hun).
  assert (Hecho : run_server_turn packet = packet).
  { unfold run_server_turn. apply firstn_all2. unfold PKT_SIZE in Hlen. lia. }
  exists packet. unfold send_phase. rewrite Hnow, Hp. cbn [of_option].
  unfold mbind at 1, outcome_bind at 1. cbv beta iota.
  eexists. set (st1 := mkClient _ _ _ _ _ _ _ _ _ _ _ _ _ _ _).
  rewrite Hecho.
  assert (Hsent : sent_times st1 !! seq st = Some send_ns)
    by (subst st1; cbn; apply lookup_insert_eq).
  rewrite (recv_phase_accepted cfg ss st1 packet recv_ns clock stamp
             (seq st) send_ns send_ns); try assumption; [|lia].
  destruct (window_loss_percent (window st1) ({[seq st]} ∪ received st1))
    as (loss & -> & _).
  cbn [of_option]. unfold mbind, outcome_bind. cbv beta iota.
  destruct (sample_mos_returns cfg ss
              (oneway_samples st1
                 ++ [fdiv (fdiv (of_Z (recv_ns - send_ns)) (of_Z 1000000))
                       (of_Z 2)]) loss clock Hb) as [m ->].
  eexists. split; [reflexivity|]. split; [reflexivity|].
  split; [reflexivity|]. cbn. repeat split.
Qed.

Lemma echo_is_credited_witness :
  exists packet st1 st2,
    pack (seq stB) 1000040000000 MAGIC = Some packet
    /\ send_phase ssA stB (dec 100004 100) 1000040000000 SendOk = Ok st1
    /\ recv_phase cfgA ssA st1
         (RecvData (run_server_turn packet) 1000060000000 (dec 100005 100) "t")
       = Ok (st2, Next)
    /\ total_recv st2 = total_recv stB + 1
    /\ received st2 = {[seq stB]} ∪ received stB
    /\ rtt_samples st2
       = rtt_samples stB
           ++ [fdiv (of_Z (1000060000000 - 1000040000000)) (of_Z 1000000)].
Proof.
  apply (echo_is_credited cfgA ssA stB (dec 100004 100) 1000040000000
           1000060000000 (dec 100005 100) "t").
  - exact reachable_stB.
  - split; vm_compute; reflexivity.
  - vm_compute. reflexivity.
  - lia.
  - apply (bool_decide_unpack _). vm_compute. exact I.
Defined.

(** X20: the loop stops by itself in exactly one case: a duration greater
    than 0 was given on the command line and the time since the start has
    reached it.  With the default duration of 0, or a negative one, no
    iteration ever breaks. *)
Theorem iteration_breaks_iff (a : client_args) (ss : session) (st : client)
    (ev : event) :
  iteration (main_config a) ss st ev = Break
  <-> 0 < arg_duration a
      /\ ge_Z (fsub (ev_now ev) (start ss)) (arg_duration a) = true.
Proof.
  unfold iteration, expired, main_config. cbn [cfg_duration].
  destruct (Z.ltb_spec 0 (arg_duration a)) as [Hd | Hd].
  - destruct (Z.eqb_spec (arg_duration a) 0); [lia|]. cbn [negb andb].
    destruct (ge_Z _ _); [split; auto|].
    split; [|intros [_ H]; discriminate].
    destruct (send_phase _ _ _ _ _); [|discriminate].
    destruct (recv_phase _ _ _ _) as [[st2 []]|]; try discriminate.
    destruct (report_phase _ _ _); discriminate.
  - split; [|intros [H _]; lia].
    destruct (send_phase _ _ _ _ _); [|discriminate].
    destruct (recv_phase _ _ _ _) as [[st2 []]|]; try discriminate.
    destruct (report_phase _ _ _); discriminate.
Qed.
